(** * Daily Programmer helper: message-to-Markdown pipeline

    A shallow embedding of [pin-manager-bot/daily_programmer_helper.py]
    (class [DailyProgrammerHelper]) with the properties of its message
    transformer, history aggregator and file writer, and of the
    singleton and its configuration file.

    - Python strings are sequences of Unicode code points: a string is a
      list of code points here.
    - The methods of the helper live in a monad of state and exceptions.
      The state is what the helper can see or change: the configured
      repository URL, what is at the path of the output directory, and the
      trace of its prints, filesystem calls and git commands.
    - The four compiled patterns of the class are syntax trees of the shape
      the parser of Python's [re] produces; [re_compile] reads their source
      texts and the results are checked against the trees.  They are run
      by a backtracking matcher with ordered choice, greedy and lazy
      repetition, capture groups, leftmost search and [re.sub].
    - The git commands and the system calls are assumed to succeed, except
      for [os.mkdir] on a path that is taken.  The definitions with the
      suffix [_env] drop this assumption for the encoding of the target
      file and for git: there a write breaks off at a character that
      cannot be encoded, and a git command can fail.
    - [getInstance], the constructor and [read_config] live in a second
      monad, over the class attribute [__instance], the objects
      constructed so far and the configuration file as [configparser]
      finds it. *)

From Stdlib Require Import List NArith Bool Arith Lia String Ascii.
Import ListNotations.
Open Scope string_scope.
Open Scope list_scope.
Open Scope nat_scope.

(** ** Strings *)

Definition char := N.
Definition str := list char.

(** [py "abc"] is the Python string literal 'abc' (ASCII only). *)
Definition py (s : string) : str := map N_of_ascii (list_ascii_of_string s).

(** The characters the patterns name. *)
Definition NEWLINE : char := 10%N.
Definition BACKTICK : char := 96%N.
Definition nl : str := [NEWLINE].

Definition str_eq_dec : forall a b : str, {a = b} + {a <> b} :=
  list_eq_dec N.eq_dec.

Fixpoint starts_with (p s : str) : bool :=
  match p, s with
  | [], _ => true
  | a :: p', b :: s' => N.eqb a b && starts_with p' s'
  | _ :: _, [] => false
  end.

(** ** Messages, errors and the world of the helper *)

(** A Slack message is a dict; its values are strings or None here. *)
Inductive value : Type :=
| VNone
| VStr (s : str).

Definition Message := list (string * value).

(** [dict.get(key)] *)
Fixpoint dict_get (key : string) (d : Message) : option value :=
  match d with
  | [] => None
  | (k, v) :: d' => if String.eqb k key then Some v else dict_get key d'
  end.

(** [message.get('text')], with Python's None for an absent key. *)
Definition get_text (message : Message) : option str :=
  match dict_get "text" message with
  | Some (VStr s) => Some s
  | _ => None
  end.

(** The response of the history request: its 'messages', newest first. *)
Record ChannelHistory : Type := { messages : list Message }.

(** The two exceptions of the module, the [OSError]s of [os.mkdir] and
    [open] (by the name of their class), GitPython's [NoSuchPathError],
    the [UnicodeEncodeError] of a write, and GitPython's
    [GitCommandError] with the command that failed. *)
Inductive exn : Type :=
| MessageTypeException (error : string) (message : Message)
| FileOpeningModeException (error : string)
| OSError (class : string)
| NoSuchPathError
| UnicodeEncodeError
| GitCommandError (command : list string).

Inductive result (A : Type) : Type :=
| Ok (a : A)
| Raise (e : exn).
Arguments Ok {A} a.
Arguments Raise {A} e.

(** What is at the path [ToBePublished/]: nothing, something that is not
    a directory, or a directory with the content of [index.md] (if the
    file exists) and whether the directory is a git working tree. *)
Inductive node : Type :=
| Missing
| NotADirectory
| Directory (index_md : option str) (git : bool).

(** Everything the helper does to the outside, in order. *)
Inductive event : Type :=
| Print (line : string)
| Mkdir (path : string)
| Open (path : string) (mode : str)
| Writelines (data : str)
| Close
| Git (args : list string).

Record World : Type := mkWorld {
  REPO_URL : string;
  output_dir : node;
  trace : list event
}.

(** State and exceptions. *)
Definition M (A : Type) : Type := World -> result A * World.

Definition ret {A} (a : A) : M A := fun w => (Ok a, w).
Definition raise {A} (e : exn) : M A := fun w => (Raise e, w).
Definition bind {A B} (m : M A) (f : A -> M B) : M B :=
  fun w =>
    match m w with
    | (Ok a, w') => f a w'
    | (Raise e, w') => (Raise e, w')
    end.

Notation "x <- m ;; k" := (bind m (fun x => k))
  (at level 61, m at next level, right associativity).
Notation "m ;; k" := (bind m (fun _ => k))
  (at level 61, right associativity).

(** [try: body  except MessageTypeException: handler] *)
Definition try_except {A} (body handler : M A) : M A :=
  fun w =>
    match body w with
    | (Raise (MessageTypeException _ _), w') => handler w'
    | other => other
    end.

Definition emit (e : event) : M unit :=
  fun w => (Ok tt, mkWorld (REPO_URL w) (output_dir w) (trace w ++ [e])).
Definition print (line : string) : M unit := emit (Print line).
Definition get_output_dir : M node := fun w => (Ok (output_dir w), w).
Definition set_output_dir (n : node) : M unit :=
  fun w => (Ok tt, mkWorld (REPO_URL w) n (trace w)).
Definition get_REPO_URL : M string := fun w => (Ok (REPO_URL w), w).

Definition is_some {A} (o : option A) : bool :=
  match o with Some _ => true | None => false end.

(** ** The singleton and its configuration file *)

(** The exceptions that can leave the constructor and [read_config]:
    [Exception] itself, the three classes [read_config] catches
    ([ParsingError] stands for the class and for its subclass
    [MissingSectionHeaderError]), any other error of [configparser] or of
    reading the file, by the name of its class ([DuplicateSectionError],
    [DuplicateOptionError], the interpolation errors,
    [UnicodeDecodeError]), and the exceptions of the helper's own
    methods. *)
Inductive py_exn : Type :=
| Exception (message : string)
| NoOptionError (option section : string)
| ParsingError
| KeyError (key : string)
| LibraryError (class : string)
| HelperError (e : exn).

Inductive outcome (A : Type) : Type :=
| Return (a : A)
| Throw (e : py_exn).
Arguments Return {A} a.
Arguments Throw {A} e.

(** What [get] gives for an option of the file: its text after
    interpolation, or the interpolation error it raises. *)
Inductive got : Type :=
| Text (v : string)
| Interpolation (class : string).

Definition options := list (string * got).

(** The file [config.ini] as [ConfigParser.read] finds it: a file that
    cannot be opened or read ([read] skips it), a file the parser rejects
    with [ParsingError], a file on which it raises another error, or the
    options of the [DEFAULT] section and the other sections by name. *)
Inductive config_file : Type :=
| Unreadable
| Malformed
| Unusable (class : string)
| Parsed (defaults : options) (sections : list (string * options)).

(** A [ConfigParser] after [read], and the proxy of one of its sections. *)
Record ConfigParser : Type := mkConfigParser {
  _defaults : options;
  _sections : list (string * options)
}.

Definition SectionProxy := (ConfigParser * string)%type.

(** Objects are named by their address.  The process holds the class
    attribute [__instance], the helpers constructed so far with the
    [__REPO_URL] each of them has set on itself (if any), the
    configuration file, what is at the path of the output directory, and
    what happened so far. *)
Definition address := nat.

Record Process : Type := mkProcess {
  instance : option address;
  objects : list (option string);
  config_ini : config_file;
  disk : node;
  events : list event
}.

(** State and exceptions, for the methods that touch the class. *)
Definition Boot (A : Type) : Type := Process -> outcome A * Process.

Definition pure {A} (a : A) : Boot A := fun p => (Return a, p).
Definition throw {A} (e : py_exn) : Boot A := fun p => (Throw e, p).
Definition and_then {A B} (m : Boot A) (f : A -> Boot B) : Boot B :=
  fun p =>
    match m p with
    | (Return a, p') => f a p'
    | (Throw e, p') => (Throw e, p')
    end.

Declare Scope boot_scope.
Delimit Scope boot_scope with boot.
Notation "x <- m ;; k" := (and_then m (fun x => k))
  (at level 61, m at next level, right associativity) : boot_scope.
Notation "m ;; k" := (and_then m (fun _ => k))
  (at level 61, right associativity) : boot_scope.

(** [try: body  except (NoOptionError, ParsingError, KeyError) as e:
    handler] *)
Definition caught (e : py_exn) : bool :=
  match e with
  | NoOptionError _ _ | ParsingError | KeyError _ => true
  | _ => false
  end.

Definition try_config {A} (body : Boot A) (handler : py_exn -> Boot A) : Boot A :=
  fun p =>
    match body p with
    | (Throw e, p') => if caught e then handler e p' else (Throw e, p')
    | other => other
    end.

Definition get_instance : Boot (option address) :=
  fun p => (Return (instance p), p).
Definition set_instance (i : option address) : Boot unit :=
  fun p => (Return tt, mkProcess i (objects p) (config_ini p) (disk p) (events p)).
Definition say (message : string) : Boot unit :=
  fun p => (Return tt,
            mkProcess (instance p) (objects p) (config_ini p) (disk p)
              (events p ++ [Print message])).

(** The class attributes of the configuration. *)
Definition REPO_URL_default : string :=
  "git@github.com:73VW/Daily-Programmer-Bot.git".
Definition CONFIG_FILE_PATH : string := "config.ini".

(** [self.__REPO_URL]: the attribute the object has set on itself, or
    else the attribute of the class. *)
Definition REPO_URL_of (p : Process) (self : address) : string :=
  match nth_error (objects p) self with
  | Some (Some url) => url
  | _ => REPO_URL_default
  end.

(** [self.__REPO_URL = url] *)
Fixpoint set_attribute (self : address) (url : string) (os : list (option string))
  : list (option string) :=
  match os, self with
  | [], _ => []
  | _ :: os', O => Some url :: os'
  | o :: os', S self' => o :: set_attribute self' url os'
  end.

Definition set_REPO_URL (self : address) (url : string) : Boot unit :=
  fun p => (Return tt,
            mkProcess (instance p) (set_attribute self url (objects p))
              (config_ini p) (disk p) (events p)).

(** *** The calls into [configparser] *)

(** Lookup in a [dict] with string keys. *)
Fixpoint lookup {A} (key : string) (d : list (string * A)) : option A :=
  match d with
  | [] => None
  | (k, v) :: d' => if String.eqb k key then Some v else lookup key d'
  end.

Definition default_section : string := "DEFAULT".

(** [config_object.read('config.ini')] on a new parser. *)
Definition ConfigParser_read : Boot ConfigParser :=
  fun p =>
    match config_ini p with
    | Unreadable => (Return (mkConfigParser [] []), p)
    | Malformed => (Throw ParsingError, p)
    | Unusable class => (Throw (LibraryError class), p)
    | Parsed defaults sections => (Return (mkConfigParser defaults sections), p)
    end.

Definition has_section (parser : ConfigParser) (section : string) : bool :=
  is_some (lookup section (_sections parser)).

(** [config_object[key]] *)
Definition ConfigParser_getitem (parser : ConfigParser) (key : string)
  : Boot SectionProxy :=
  if negb (String.eqb key default_section) && negb (has_section parser key)
  then throw (KeyError key)
  else pure (parser, key).

Definition has_option (parser : ConfigParser) (section name : string) : bool :=
  if String.eqb section EmptyString || String.eqb section default_section
  then is_some (lookup name (_defaults parser))
  else
    match lookup section (_sections parser) with
    | None => false
    | Some sectiondict =>
        is_some (lookup name sectiondict)
        || is_some (lookup name (_defaults parser))
    end.

(** The option in the section, or else in the defaults. *)
Definition unify_values (parser : ConfigParser) (section name : string)
  : option got :=
  match lookup name
          (match lookup section (_sections parser) with
           | Some sectiondict => sectiondict
           | None => []
           end)
  with
  | Some v => Some v
  | None => lookup name (_defaults parser)
  end.

(** [parser.get(section, name)] for the option [name] *)
Definition ConfigParser_get (parser : ConfigParser) (section name : string)
  : Boot string :=
  if negb (has_section parser section) && negb (String.eqb section default_section)
  then throw (LibraryError "NoSectionError")
  else
    match unify_values parser section name with
    | None => throw (NoOptionError name section)
    | Some (Text v) => pure v
    | Some (Interpolation class) => throw (LibraryError class)
    end.

(** [proxy[key]] *)
Definition SectionProxy_getitem (proxy : SectionProxy) (key : string)
  : Boot string :=
  if negb (has_option (fst proxy) (snd proxy) key)
  then throw (KeyError key)
  else ConfigParser_get (fst proxy) (snd proxy) key.

(** *** [read_config], the constructor and [getInstance] *)

Definition line_feed : string := String (ascii_of_nat 10) EmptyString.
Definition double_quote : string := String (ascii_of_nat 34) EmptyString.

(** [str(e)] for a [KeyError] is the [repr] of its key; for a key without
    quotes, backslashes or control characters, as the two keys of
    [read_config] are, that is the key between single quotes. *)
Definition repr (key : string) : string := ("'" ++ key ++ "'")%string.

(** Read the configuration from [config.ini]; on the three errors it
    catches, explain the expected content and keep the repository URL. *)
Definition read_config (self : address) : Boot unit :=
  (try_config
     (config_object <- ConfigParser_read ;;
      git_repo_info <- ConfigParser_getitem config_object "GitRepoInfo" ;;
      repo <- SectionProxy_getitem git_repo_info "repo" ;;
      (if String.eqb repo EmptyString
       then throw (NoOptionError "repo" "GitRepoInfo")
       else pure tt) ;;
      url <- SectionProxy_getitem git_repo_info "repo" ;;
      set_REPO_URL self url)
     (fun e =>
        let message := (line_feed ++ "/!\ " ++ line_feed ++ line_feed)%string in
        let message :=
          (message ++ "Invalid " ++ CONFIG_FILE_PATH ++ " file " ++ line_feed)%string in
        let message :=
          match e with
          | NoOptionError option section =>
              (message ++ "Check option " ++ double_quote ++ option ++ double_quote
                 ++ " in section " ++ double_quote ++ section ++ double_quote)%string
          | KeyError key => (message ++ "Missing section " ++ repr key)%string
          | _ => message
          end in
        let message :=
          (message ++ line_feed ++ "Content should look like:" ++ line_feed)%string in
        let message := (message ++ "[GitRepoInfo]" ++ line_feed)%string in
        let message :=
          (message ++ "repo = git@github.com:73VW/Daily-Programmer-Bot.git")%string in
        let message :=
          (message ++ line_feed ++ line_feed ++ line_feed ++ "USING DEFAULT REPO")%string in
        say message))%boot.

(** The virtually private constructor. *)
Definition __init__ (self : address) : Boot unit :=
  (i <- get_instance ;;
   match i with
   | Some _ => throw (Exception "This class is a singleton!")
   | None => set_instance (Some self) ;; read_config self
   end)%boot.

(** [DailyProgrammerHelper()]: a new object, then its [__init__]. *)
Definition allocate : Boot address :=
  fun p => (Return (List.length (objects p)),
            mkProcess (instance p) (objects p ++ [None]) (config_ini p)
              (disk p) (events p)).

Definition DailyProgrammerHelper : Boot address :=
  (self <- allocate ;; __init__ self ;; pure self)%boot.

(** Return, or create and return, the instance. *)
Definition getInstance : Boot (option address) :=
  (i <- get_instance ;;
   (match i with
    | None => DailyProgrammerHelper ;; pure tt
    | Some _ => pure tt
    end) ;;
   get_instance)%boot.

(** A method of the helper called on the object [self]: it sees the
    [__REPO_URL] of that object, the output directory and the events. *)
Definition method {A} (self : address) (m : M A) : Boot A :=
  fun p =>
    match m (mkWorld (REPO_URL_of p self) (disk p) (events p)) with
    | (Ok a, w) =>
        (Return a,
         mkProcess (instance p) (objects p) (config_ini p) (output_dir w) (trace w))
    | (Raise e, w) =>
        (Throw (HelperError e),
         mkProcess (instance p) (objects p) (config_ini p) (output_dir w) (trace w))
    end.

(** A method called on what [getInstance] returned. *)
Definition call {A} (helper : option address) (m : M A) : Boot A :=
  match helper with
  | Some self => method self m
  | None => throw (LibraryError "AttributeError")
  end.

(** ** The regular expression engine (Python's [re] on [str] patterns) *)

Section Unicode.

(** The Unicode character database is not part of the program: the two
    tables it contributes to the classes [\s] and [\w] outside ASCII are
    parameters of the development. *)
Variable unicode_isspace : char -> bool.
Variable unicode_isalnum : char -> bool.

Definition between (lo hi c : char) : bool := (N.leb lo c && N.leb c hi)%bool.

Local Open Scope N_scope.

(** [\s]: ASCII white space is tab, newline, vertical tab, form feed,
    carriage return, the four separators 0x1c-0x1f and the space. *)
Definition CATEGORY_SPACE (c : char) : bool :=
  if N.ltb c 128 then between 9 13 c || between 28 32 c
  else unicode_isspace c.

(** [\w]: alphanumeric characters and the underscore. *)
Definition CATEGORY_WORD (c : char) : bool :=
  if N.ltb c 128
  then between 48 57 c || between 65 90 c || between 97 122 c || N.eqb c 95
  else unicode_isalnum c.

Local Close Scope N_scope.

Definition LITERAL (a : char) : char -> bool := N.eqb a.
Definition NOT_LITERAL (a : char) : char -> bool := fun c => negb (N.eqb a c).
(** [.] without DOTALL: anything but a newline. *)
Definition ANY : char -> bool := NOT_LITERAL NEWLINE.
(** [[...]]: a set of classes. *)
Definition IN (items : list (char -> bool)) : char -> bool :=
  fun c => existsb (fun p => p c) items.

(** Parsed patterns.  [One p] is any item that consumes exactly one
    character; [Repeat true] is MAX_REPEAT (greedy), [Repeat false] is
    MIN_REPEAT (lazy); an upper bound of [None] is MAXREPEAT. *)
Inductive regex : Type :=
| Empty
| One (p : char -> bool)
| Cat (r1 r2 : regex)
| SUBPATTERN (group : nat) (r : regex)
| Repeat (greedy : bool) (lo : nat) (hi : option nat) (r : regex).

Definition seq (rs : list regex) : regex := fold_right Cat Empty rs.
(** A run of LITERAL items. *)
Definition lits (l : str) : regex := seq (map (fun a => One (LITERAL a)) l).
Definition lit (s : string) : regex := lits (py s).

Definition caps := list (nat * str).
Definition answer := (str * caps)%type.
Definition cont := str -> caps -> option answer.
Definition matcher := str -> caps -> cont -> option answer.

Definition dec_bound (hi : option nat) : option nat := option_map pred hi.

(** One more iteration of a repeated body.  An iteration that consumes
    nothing is refused: the engine guards its loops against empty
    iterations, and for bodies that set no group, as here, leaving the
    loop after such an iteration finds nothing new. *)
Definition one_more (body : matcher) (s : str) (c : caps) (loop : cont)
  : option answer :=
  body s c (fun s1 c1 =>
    if (List.length s1 <? List.length s)%nat then loop s1 c1 else None).

(** The optional part of a repetition, after the mandatory iterations. *)
Fixpoint rep_more (body : matcher) (greedy : bool) (hi : option nat)
         (fuel : nat) (s : str) (c : caps) (k : cont) : option answer :=
  match fuel with
  | O => k s c
  | S fuel' =>
      match hi with
      | Some O => k s c
      | _ =>
          if greedy then
            match one_more body s c
                    (fun s1 c1 => rep_more body greedy (dec_bound hi) fuel' s1 c1 k)
            with
            | Some a => Some a
            | None => k s c
            end
          else
            match k s c with
            | Some a => Some a
            | None =>
                one_more body s c
                  (fun s1 c1 => rep_more body greedy (dec_bound hi) fuel' s1 c1 k)
            end
      end
  end.

(** The mandatory iterations. *)
Fixpoint rep_min (body : matcher) (lo : nat) (s : str) (c : caps) (k : cont)
  : option answer :=
  match lo with
  | O => k s c
  | S lo' => body s c (fun s1 c1 => rep_min body lo' s1 c1 k)
  end.

Definition bound_sub (hi : option nat) (lo : nat) : option nat :=
  option_map (fun h => h - lo) hi.

(** [exec r s c k] runs [r] at the head of [s] with the groups [c] set so
    far, and hands the rest of the text to [k]; alternatives are tried in
    the engine's priority order and the first success is returned. *)
Fixpoint exec (r : regex) (s : str) (c : caps) (k : cont) : option answer :=
  match r with
  | Empty => k s c
  | One p =>
      match s with
      | a :: s' => if p a then k s' c else None
      | [] => None
      end
  | Cat r1 r2 => exec r1 s c (fun s1 c1 => exec r2 s1 c1 k)
  | SUBPATTERN g r' =>
      exec r' s c (fun s1 c1 =>
        k s1 ((g, firstn (List.length s - List.length s1) s) :: c1))
  | Repeat greedy lo hi r' =>
      rep_min (exec r') lo s c (fun s1 c1 =>
        rep_more (exec r') greedy (bound_sub hi lo) (S (List.length s1)) s1 c1 k)
  end.

(** The end of the pattern at top level; [must_advance] refuses an empty
    match (set by [re.sub] right after an empty match). *)
Definition toplevel (must_advance : bool) (s : str) : cont :=
  fun s1 c1 =>
    if must_advance && (List.length s1 =? List.length s)%nat then None
    else Some (s1, c1).

(** A match: the text skipped before it, the matched text (group 0), the
    groups, and the text after it. *)
Record Match : Type := mkMatch {
  m_pre : str;
  m_text : str;
  m_groups : caps;
  m_rest : str
}.

Definition shift (a : char) (m : Match) : Match :=
  mkMatch (a :: m_pre m) (m_text m) (m_groups m) (m_rest m).

(** [pattern.search]: the leftmost position at which the pattern matches. *)
Fixpoint search (r : regex) (must_advance : bool) (s : str) : option Match :=
  match exec r s [] (toplevel must_advance s) with
  | Some (s1, c1) =>
      Some (mkMatch [] (firstn (List.length s - List.length s1) s) c1 s1)
  | None =>
      match s with
      | [] => None
      | a :: s' => option_map (shift a) (search r false s')
      end
  end.

(** Replacement templates: literal text and group references. *)
Inductive titem : Type :=
| TLit (s : str)
| TGroup (g : nat).

Fixpoint group (g : nat) (c : caps) : str :=
  match c with
  | [] => []
  | (i, v) :: c' => if (i =? g)%nat then v else group g c'
  end.

Definition expand (t : list titem) (c : caps) : str :=
  flat_map (fun it => match it with TLit s => s | TGroup g => group g c end) t.

(** [re.sub]: replace the non-overlapping matches, leftmost first. *)
Fixpoint subx (fuel : nat) (r : regex) (t : list titem) (s : str)
         (must_advance : bool) : str :=
  match fuel with
  | O => s
  | S fuel' =>
      match search r must_advance s with
      | None => s
      | Some m =>
          m_pre m ++ expand t (m_groups m)
            ++ subx fuel' r t (m_rest m)
                 (match m_text m with [] => true | _ => false end)
      end
  end.

Definition sub (r : regex) (t : list titem) (s : str) : str :=
  subx (2 * List.length s + 2) r t s false.

(** ** The patterns of [DailyProgrammerHelper] *)

Definition star (r : regex) : regex := Repeat true 0 None r.
Definition plus (r : regex) : regex := Repeat true 1 None r.
Definition opt (r : regex) : regex := Repeat true 0 (Some 1) r.
Definition lazy_star (r : regex) : regex := Repeat false 0 None r.
Definition times (n : nat) (r : regex) : regex := Repeat true n (Some n) r.

Definition WORD_OR_SPACE : char -> bool := IN [CATEGORY_WORD; CATEGORY_SPACE].

(** The four patterns as the parser of [re] reads them; their source
    texts are checked against these trees in [CHALLENGE_REGEX_source],
    [CODE_BLOCS_REGEX_source], [TITLE_REGEX_source] and
    [IMAGES_REGEX_source] below.  The inner sequences of [TITLE_REGEX] are
    its three non-capturing groups. *)
Definition CHALLENGE_REGEX : regex :=
  seq [ lit "=="; opt (lit "=");
        plus (One CATEGORY_SPACE);
        SUBPATTERN 1 (plus (One WORD_OR_SPACE));
        opt (lit "-");
        star (One WORD_OR_SPACE);
        plus (One CATEGORY_SPACE);
        opt (lit "="); lit "==" ].

Definition CODE_BLOCS_REGEX : regex :=
  seq [ SUBPATTERN 1 (lit "```");
        SUBPATTERN 2
          (lazy_star (seq [ star (One (NOT_LITERAL BACKTICK));
                            star (One (LITERAL NEWLINE)) ]));
        SUBPATTERN 3 (lit "```") ].

Definition TITLE_REGEX : regex :=
  seq [ seq [ lit "*"; times 3 (lit "="); One CATEGORY_SPACE ];
        SUBPATTERN 1 (star (One ANY));
        seq [ One CATEGORY_SPACE; lit "-"; One CATEGORY_SPACE; lit "Daily";
              One CATEGORY_SPACE; lit "Programmer"; One CATEGORY_SPACE;
              times 3 (lit "="); lit "*";
              lazy_star (One (LITERAL NEWLINE)); lit "*"; lit "[" ];
        SUBPATTERN 2 (star (One ANY));
        seq [ lit "]"; lit "*" ] ].

Definition IMAGES_REGEX : regex :=
  seq [ lit "<";
        SUBPATTERN 1 (seq [ lit "https://assets.leetcode.com/uploads/";
                            lazy_star (One ANY) ]);
        lit ">" ].

(** The replacement templates of [format_messages]. *)
Definition TITLE_TEMPLATE : list titem :=
  [TGroup 2; TLit (py " -- "); TGroup 1].
Definition CODE_BLOCS_TEMPLATE : list titem :=
  [TGroup 1; TLit nl; TGroup 2; TLit nl; TGroup 3].
Definition IMAGES_TEMPLATE : list titem :=
  [TLit (py "![Illustration]("); TGroup 1; TLit (py ")"); TLit nl].

(** ** The source text of a pattern

    [re_compile] reads the part of Python's pattern syntax the four
    patterns use: literals, escapes, [.], sets, capturing and
    non-capturing groups, and the quantifiers [*], [+], [?] and [{n}]
    with their lazy forms.  Groups are numbered by their opening
    parenthesis. *)

Definition ch (s : string) : char := hd 0%N (py s).
Definition is_ch (s : string) (c : char) : bool := N.eqb c (ch s).

Definition NOT_IN (items : list (char -> bool)) : char -> bool :=
  fun c => negb (IN items c).

Definition is_alnum_ascii (c : char) : bool :=
  (between 48 57 c || between 65 90 c || between 97 122 c)%N.

(** [\s], [\w], [\n], or an escaped punctuation character. *)
Definition escape (c : char) : option (char + (char -> bool)) :=
  if is_ch "s" c then Some (inr CATEGORY_SPACE)
  else if is_ch "w" c then Some (inr CATEGORY_WORD)
  else if is_ch "n" c then Some (inl NEWLINE)
  else if is_alnum_ascii c then None
  else Some (inl c).

Definition item_pred (i : char + (char -> bool)) : char -> bool :=
  match i with
  | inl a => LITERAL a
  | inr p => p
  end.

(** The items of a set, up to its closing bracket. *)
Fixpoint set_items (s : str) : option (list (char + (char -> bool)) * str) :=
  match s with
  | [] => None
  | c :: s' =>
      if is_ch "]" c then Some ([], s')
      else if is_ch "\" c then
        match s' with
        | e :: s'' =>
            match escape e, set_items s'' with
            | Some i, Some (items, rest) => Some (i :: items, rest)
            | _, _ => None
            end
        | [] => None
        end
      else
        match set_items s' with
        | Some (items, rest) => Some (inl c :: items, rest)
        | None => None
        end
  end.

(** A set of a single literal is that literal (or its negation). *)
Definition set_pred (negate : bool) (items : list (char + (char -> bool)))
  : char -> bool :=
  match items, negate with
  | [inl a], false => LITERAL a
  | [inl a], true => NOT_LITERAL a
  | _, false => IN (map item_pred items)
  | _, true => NOT_IN (map item_pred items)
  end.

Fixpoint digits (s : str) (n : nat) : option (nat * str) :=
  match s with
  | [] => None
  | c :: s' =>
      if is_ch "}" c then Some (n, s')
      else if between 48%N 57%N c then digits s' (10 * n + N.to_nat (c - 48)%N)
      else None
  end.

Definition lazy_mark (s : str) : bool * str :=
  match s with
  | c :: s' => if is_ch "?" c then (false, s') else (true, s)
  | [] => (true, s)
  end.

(** The quantifier after an item, if there is one. *)
Definition quantified (r : regex) (s : str) : option (regex * str) :=
  match s with
  | c :: s' =>
      if is_ch "*" c then
        let (g, rest) := lazy_mark s' in Some (Repeat g 0 None r, rest)
      else if is_ch "+" c then
        let (g, rest) := lazy_mark s' in Some (Repeat g 1 None r, rest)
      else if is_ch "?" c then
        let (g, rest) := lazy_mark s' in Some (Repeat g 0 (Some 1) r, rest)
      else if is_ch "{" c then
        match digits s' 0 with
        | Some (n, s'') =>
            let (g, rest) := lazy_mark s'' in Some (Repeat g n (Some n) r, rest)
        | None => None
        end
      else Some (r, s)
  | [] => Some (r, s)
  end.

Definition is_special (c : char) : bool :=
  is_ch "*" c || is_ch "+" c || is_ch "?" c || is_ch "{" c || is_ch "|" c
  || is_ch "^" c || is_ch "$" c.

(** A sequence of quantified items, up to a closing parenthesis or the
    end of the text; [g] is the number of the next capturing group. *)
Fixpoint parse_seq (fuel : nat) (s : str) (g : nat)
  : option (list regex * str * nat) :=
  match fuel with
  | O => None
  | S fuel' =>
      let continue (atom : option (regex * str * nat)) :=
        match atom with
        | Some (r, s1, g1) =>
            match quantified r s1 with
            | Some (r', s2) =>
                match parse_seq fuel' s2 g1 with
                | Some (rs, s3, g3) => Some (r' :: rs, s3, g3)
                | None => None
                end
            | None => None
            end
        | None => None
        end in
      match s with
      | [] => Some ([], [], g)
      | c :: s' =>
          if is_ch ")" c then Some ([], s, g)
          else if starts_with (py "(?:") s then
            continue
              match parse_seq fuel' (skipn 3 s) g with
              | Some (rs, c' :: s1, g1) =>
                  if is_ch ")" c' then Some (seq rs, s1, g1) else None
              | _ => None
              end
          else if is_ch "(" c then
            continue
              match parse_seq fuel' s' (S g) with
              | Some (rs, c' :: s1, g1) =>
                  if is_ch ")" c' then Some (SUBPATTERN g (seq rs), s1, g1)
                  else None
              | _ => None
              end
          else if is_ch "[" c then
            continue
              match s' with
              | c' :: s'' =>
                  let negate := is_ch "^" c' in
                  match set_items (if negate then s'' else s') with
                  | Some (items, s1) => Some (One (set_pred negate items), s1, g)
                  | None => None
                  end
              | [] => None
              end
          else if is_ch "." c then continue (Some (One ANY, s', g))
          else if is_ch "\" c then
            continue
              match s' with
              | e :: s1 =>
                  match escape e with
                  | Some i => Some (One (item_pred i), s1, g)
                  | None => None
                  end
              | [] => None
              end
          else if is_special c then None
          else continue (Some (One (LITERAL c), s', g))
      end
  end.

Definition re_compile (source : string) : option regex :=
  match parse_seq (S (List.length (py source))) (py source) 1 with
  | Some (rs, [], _) => Some (seq rs)
  | _ => None
  end.

(** A replacement template: [\1] to [\9] are group references and [\n]
    is a newline. *)
Fixpoint re_template (s : str) : list titem :=
  match s with
  | [] => []
  | c :: s' =>
      match s' with
      | e :: s'' =>
          if is_ch "\" c then
            if between 49%N 57%N e
            then TGroup (N.to_nat (e - 48)%N) :: re_template s''
            else if is_ch "n" e then TLit nl :: re_template s''
            else TLit [c] :: re_template s'
          else TLit [c] :: re_template s'
      | [] => [TLit [c]]
      end
  end.

Definition expands_as (source : string) (t : list titem) : Prop :=
  forall c, expand (re_template (py source)) c = expand t c.

(** [compiles_to source r]: the source text reads as a pattern that runs
    exactly as [r] does. *)
Definition compiles_to (source : string) (r : regex) : Prop :=
  exists r', re_compile source = Some r' /\
             forall s c k, exec r' s c k = exec r s c k.

(** ** [DailyProgrammerHelper] *)

Definition directory : string := "ToBePublished/".
Definition filename : string := "index.md".
Definition challenges_separator : str :=
  nl ++ nl ++ nl ++ py "---" ++ nl ++ nl ++ nl.

(** [os.path.isdir], [os.mkdir], and [open(...)] with [writelines]. *)
Definition os_path_isdir : M bool :=
  n <- get_output_dir ;;
  ret match n with Directory _ _ => true | _ => false end.

Definition os_mkdir : M unit :=
  n <- get_output_dir ;;
  match n with
  | Missing => emit (Mkdir directory) ;; set_output_dir (Directory None false)
  | _ => raise (OSError "FileExistsError")
  end.

Definition is_mode (m : string) (mode : str) : bool :=
  if str_eq_dec mode (py m) then true else false.

Definition open_writelines (mode data : str) : M unit :=
  n <- get_output_dir ;;
  match n with
  | Directory old git =>
      emit (Open (directory ++ filename)%string mode) ;;
      emit (Writelines data) ;;
      set_output_dir
        (Directory
           (Some (if is_mode "w" mode then data
                  else match old with Some o => o | None => [] end ++ data))
           git) ;;
      emit Close
  | Missing => raise (OSError "FileNotFoundError")
  | NotADirectory => raise (OSError "NotADirectoryError")
  end.

(** Publish challenges to the gh-pages branch of the repo. *)
Definition publish_challenges : M unit :=
  print "Publishing result..." ;;
  n <- get_output_dir ;;
  match n with
  | Directory f true =>
      emit (Git ["add"; "."]) ;;
      emit (Git ["commit"; "--amend"; "--no-edit"]) ;;
      emit (Git ["push"; "-f"]) ;;
      print "Done."
  | Directory f false =>
      url <- get_REPO_URL ;;
      emit (Git ["init"]) ;;
      set_output_dir (Directory f true) ;;
      emit (Git ["config"; "user.name"; "Daily Programmer Bot"]) ;;
      emit (Git ["config"; "user.email"; "daily@programmer.bot"]) ;;
      emit (Git ["remote"; "add"; "origin"; url]) ;;
      emit (Git ["add"; "."]) ;;
      emit (Git ["commit"; "-m"; "Deploying to gh-pages"]) ;;
      emit (Git ["branch"; "gh-pages"]) ;;
      emit (Git ["checkout"; "gh-pages"]) ;;
      emit (Git ["fetch"; "origin"]) ;;
      emit (Git ["push"; "-f"; "--set-upstream"; "origin"; "gh-pages"]) ;;
      print "Done."
  | Missing => raise NoSuchPathError
  | NotADirectory => raise (OSError "NotADirectoryError")
  end.

(** Write challenge(s) to file; [mode] is 'a' or 'w'. *)
Definition write_history_to_file (challenges mode : str) : M unit :=
  print "Writing history to file..." ;;
  if negb (is_mode "a" mode || is_mode "w" mode) then
    raise (FileOpeningModeException "Given mode isn't 'a' or 'w'!")
  else
    isdir <- os_path_isdir ;;
    (if negb isdir then os_mkdir else ret tt) ;;
    open_writelines mode challenges ;;
    print "Done..." ;;
    publish_challenges.

(** The three modifications of [format_messages]. *)
Definition title_step (text : str) : str :=
  py "## " ++ sub TITLE_REGEX TITLE_TEMPLATE text.
Definition code_blocs_step (text : str) : str :=
  sub CODE_BLOCS_REGEX CODE_BLOCS_TEMPLATE text.
Definition images_step (text : str) : str :=
  sub IMAGES_REGEX IMAGES_TEMPLATE text.

(** Format one message, or raise [MessageTypeException]. *)
Definition format_messages (message : Message) : M str :=
  match get_text message with
  | None =>
      raise (MessageTypeException "The message doesn't match the pattern" message)
  | Some text =>
      if negb (is_some (search CHALLENGE_REGEX false text)) then
        raise (MessageTypeException "The message doesn't match the pattern" message)
      else
        let text := title_step text in
        let text := code_blocs_step text in
        let text := images_step text in
        ret text
  end.

(** The loop of [parse_channel_history] over the reversed messages. *)
Fixpoint history_loop (msgs : list Message) (complete_history : str) : M str :=
  match msgs with
  | [] => ret complete_history
  | message :: rest =>
      complete_history <-
        try_except
          (text <- format_messages message ;;
           ret (complete_history ++ text ++ challenges_separator))
          (ret complete_history) ;;
      history_loop rest complete_history
  end.

Definition parse_channel_history (channel_history : ChannelHistory) : M unit :=
  print "Parsing and formating history..." ;;
  complete_history <- history_loop (rev (messages channel_history)) [] ;;
  print "Done..." ;;
  match complete_history with
  | [] => ret tt
  | _ => write_history_to_file complete_history (py "w")
  end.

(** [write_history_to_file(text)]: the mode defaults to 'a'. *)
Definition parse_message (message : Message) : M unit :=
  try_except
    (text <- format_messages message ;;
     write_history_to_file text (py "a"))
    (ret tt).

(** ** The writer and the publisher with their failures *)

Section Environment.

(** Two more parts of the environment are parameters: the characters the
    encoding of the target file can take ([open] uses the encoding of the
    locale, with strict error handling), and whether a git command
    succeeds after what has happened so far. *)
Variable encodable : char -> bool.
Variable git_succeeds : list event -> list string -> bool.

(** What [writelines] gets into the file: it writes the characters of a
    string one by one, and the first character that cannot be encoded
    ends the writing. *)
Fixpoint encodable_prefix (data : str) : str :=
  match data with
  | [] => []
  | a :: data' => if encodable a then a :: encodable_prefix data' else []
  end.

(** [with open(...) as f: f.writelines(data)]: on a character that
    cannot be encoded [writelines] raises [UnicodeEncodeError]; leaving
    the [with] block closes the file, which keeps what was written
    before. *)
Definition open_writelines_env (mode data : str) : M unit :=
  n <- get_output_dir ;;
  match n with
  | Directory old git =>
      emit (Open (directory ++ filename)%string mode) ;;
      emit (Writelines data) ;;
      set_output_dir
        (Directory
           (Some (if is_mode "w" mode then encodable_prefix data
                  else match old with Some o => o | None => [] end
                         ++ encodable_prefix data))
           git) ;;
      emit Close ;;
      if forallb encodable data then ret tt else raise UnicodeEncodeError
  | Missing => raise (OSError "FileNotFoundError")
  | NotADirectory => raise (OSError "NotADirectoryError")
  end.

(** A git command: it is done, or it raises [GitCommandError]. *)
Definition git (args : list string) : M unit :=
  fun w =>
    if git_succeeds (trace w) args then emit (Git args) w
    else (Raise (GitCommandError args), w).

(** [publish_challenges] with git commands that can fail: the first
    failure leaves the method, after the commands that were done. *)
Definition publish_challenges_env : M unit :=
  print "Publishing result..." ;;
  n <- get_output_dir ;;
  match n with
  | Directory f true =>
      git ["add"; "."] ;;
      git ["commit"; "--amend"; "--no-edit"] ;;
      git ["push"; "-f"] ;;
      print "Done."
  | Directory f false =>
      url <- get_REPO_URL ;;
      git ["init"] ;;
      set_output_dir (Directory f true) ;;
      git ["config"; "user.name"; "Daily Programmer Bot"] ;;
      git ["config"; "user.email"; "daily@programmer.bot"] ;;
      git ["remote"; "add"; "origin"; url] ;;
      git ["add"; "."] ;;
      git ["commit"; "-m"; "Deploying to gh-pages"] ;;
      git ["branch"; "gh-pages"] ;;
      git ["checkout"; "gh-pages"] ;;
      git ["fetch"; "origin"] ;;
      git ["push"; "-f"; "--set-upstream"; "origin"; "gh-pages"] ;;
      print "Done."
  | Missing => raise NoSuchPathError
  | NotADirectory => raise (OSError "NotADirectoryError")
  end.

(** [write_history_to_file], [parse_channel_history] and [parse_message]
    over this writer and this publisher. *)
Definition write_history_to_file_env (challenges mode : str) : M unit :=
  print "Writing history to file..." ;;
  if negb (is_mode "a" mode || is_mode "w" mode) then
    raise (FileOpeningModeException "Given mode isn't 'a' or 'w'!")
  else
    isdir <- os_path_isdir ;;
    (if negb isdir then os_mkdir else ret tt) ;;
    open_writelines_env mode challenges ;;
    print "Done..." ;;
    publish_challenges_env.


Definition parse_message_env (message : Message) : M unit :=
  try_except
    (text <- format_messages message ;;
     write_history_to_file_env text (py "a"))
    (ret tt).

End Environment.

(** ** Definitions used in the statements and in the proofs *)

(** *** Matchers *)

(** [suffix_of s1 s]: [s1] is what is left of [s] after some prefix. *)
Definition suffix_of (s1 s : str) : Prop := exists p, s = p ++ s1.

(** A matcher only ever hands a suffix of its input to its continuation. *)
Definition sound (m : matcher) : Prop :=
  forall s c k a, m s c k = Some a ->
    exists s1 c1, suffix_of s1 s /\ k s1 c1 = Some a.

(** Matchers depend on their continuation only through its values. *)
Definition extensional (m : matcher) : Prop :=
  forall s c k1 k2, (forall s1 c1, k1 s1 c1 = k2 s1 c1) -> m s c k1 = m s c k2.

(** The number of iterations [subx] can need on a text. *)
Definition sub_measure (s : str) (adv : bool) : nat :=
  2 * List.length s + (if adv then 1 else 2).

(** What [p*] and [p*?] come to for a one-character item [p]: the longest
    run first, or the shortest run first. *)
Fixpoint greedy_scan (p : char -> bool) (s : str) (c : caps) (k : cont)
  : option answer :=
  match s with
  | a :: s' =>
      if p a then
        match greedy_scan p s' c k with
        | Some r => Some r
        | None => k s c
        end
      else k s c
  | [] => k s c
  end.

Fixpoint lazy_scan (p : char -> bool) (s : str) (c : caps) (k : cont)
  : option answer :=
  match k s c with
  | Some r => Some r
  | None =>
      match s with
      | a :: s' => if p a then lazy_scan p s' c k else None
      | [] => None
      end
  end.

(** The text at which a scan over the class [p] has to stop. *)
Definition stops (p : char -> bool) (s : str) : Prop :=
  match s with
  | [] => True
  | a :: _ => p a = false
  end.

(** A run of one-character items, and the test it performs on a text. *)
Definition ones (items : list (char -> bool)) : regex := seq (map One items).

Fixpoint match_items (items : list (char -> bool)) (s : str) : bool :=
  match items, s with
  | [], _ => true
  | p :: items', a :: s' => p a && match_items items' s'
  | _ :: _, [] => false
  end.

(** The tails of a text other than the text itself. *)
Fixpoint proper_tails (y : str) : list str :=
  match y with
  | [] => []
  | _ :: y' => y' :: proper_tails y'
  end.

(** [occurs p s]: [p] is a substring of [s]. *)
Fixpoint occurs (p s : str) : bool :=
  starts_with p s ||
  match s with
  | [] => false
  | _ :: s' => occurs p s'
  end.

(** *** The challenge banner *)

(** More of the characters the patterns and the texts name. *)
Definition LT : char := 60%N.
Definition GT : char := 62%N.
Definition RBRACKET : char := 93%N.
Definition STAR : char := 42%N.
Definition EQUALS : char := 61%N.
Definition HYPHEN : char := 45%N.

(** The vocabulary of the banner. *)
Definition optional (a : char) (x : str) : Prop := x = [] \/ x = [a].
Definition spaces (x : str) : Prop := x <> [] /\ forallb CATEGORY_SPACE x = true.
Definition wordy (x : str) : Prop := forallb WORD_OR_SPACE x = true.

(** The texts the challenge pattern matches: two or three equals signs,
    white space, words, an optional hyphen with more words, white space,
    and two or three equals signs. *)
Definition challenge_banner (s : str) : Prop :=
  exists e1 ws1 w hy q ws2 e2,
    s = py "==" ++ e1 ++ ws1 ++ w ++ hy ++ q ++ ws2 ++ e2 ++ py "==" /\
    optional EQUALS e1 /\ spaces ws1 /\ (w <> [] /\ wordy w) /\
    optional HYPHEN hy /\ wordy q /\ spaces ws2 /\ optional EQUALS e2.

(** The banner as the specification words it: exactly three equals signs
    on each side. *)
Definition strict_banner (s : str) : Prop :=
  exists ws1 w hy q ws2,
    s = py "===" ++ ws1 ++ w ++ hy ++ q ++ ws2 ++ py "===" /\
    spaces ws1 /\ (w <> [] /\ wordy w) /\
    optional HYPHEN hy /\ wordy q /\ spaces ws2.

(** [contains P text]: a substring of [text] satisfies [P]. *)
Definition contains (P : str -> Prop) (text : str) : Prop :=
  exists pre s post, text = pre ++ s ++ post /\ P s.

(** *** The title line *)

(** The fixed items of the title pattern before the date and between the
    date and the newlines, and the texts that match them with a space
    for each [\s]. *)
Definition head_items : list (char -> bool) :=
  map LITERAL (py "*===") ++ [CATEGORY_SPACE].

Definition banner_items : list (char -> bool) :=
  [CATEGORY_SPACE] ++ map LITERAL (py "-") ++
  [CATEGORY_SPACE] ++ map LITERAL (py "Daily") ++
  [CATEGORY_SPACE] ++ map LITERAL (py "Programmer") ++
  [CATEGORY_SPACE] ++ map LITERAL (py "===*").

Definition banner_head : str := py "*=== ".
Definition banner_tail : str := py " - Daily Programmer ===*".

(** The title pattern after its banner: the newlines, the opening of
    the title, the title and its closing. *)
Definition title_rest (k : cont) : cont :=
  fun s3 c3 =>
    exec (lazy_star (One (LITERAL NEWLINE))) s3 c3 (fun s4 c4 =>
      exec (lits (py "*[")) s4 c4 (fun s5 c5 =>
        exec (star (One ANY)) s5 c5 (fun s6 c6 =>
          exec (lits (py "]*")) s6
            ((2, firstn (List.length s5 - List.length s6) s5) :: c6)
            k))).

(** With the title on the banner line itself ([k = 0] newlines between
    them), the rest of the message must not bring the word of the banner
    again. *)
Definition same_line_ok (k : nat) (T r1 r2 : str) : Prop :=
  k = 0 -> occurs (py "Daily") (T ++ py "]*" ++ r1 ++ r2) = false.

(** A character that can follow the title on its line: no newline and no
    closing bracket. *)
Definition title_line_end (a : char) : bool := ANY a && negb (N.eqb a RBRACKET).

(** A character of a date or a title that none of the three steps can
    touch: no newline, no backtick, no opening angle bracket. *)
Definition plain_char (a : char) : bool :=
  ANY a && negb (N.eqb a BACKTICK) && negb (N.eqb a LT).

(** *** Code blocks and image links *)

(** The fence of a code block. *)
Definition fence : str := py "```".
Definition no_backtick (x : str) : bool := forallb (NOT_LITERAL BACKTICK) x.

(** The prefix of the image host. *)
Definition images_prefix : str := py "https://assets.leetcode.com/uploads/".

(** A text seen as plain characters and bracketed items [<u>]. *)
Inductive piece : Type :=
| Plain (a : char)
| Bracketed (u : str).

(** No opening angle bracket. *)
Definition no_lt (x : str) : bool := forallb (fun a => negb (N.eqb a LT)) x.

(** Inside a bracketed item: no angle bracket and no newline. *)
Definition url_char (a : char) : bool :=
  negb (N.eqb a LT) && negb (N.eqb a GT) && negb (N.eqb a NEWLINE).

Definition well_formed (x : piece) : bool :=
  match x with
  | Plain a => negb (N.eqb a LT)
  | Bracketed u => forallb url_char u
  end.

Definition render (x : piece) : str :=
  match x with
  | Plain a => [a]
  | Bracketed u => [LT] ++ u ++ [GT]
  end.

(** What the image step is expected to make of a piece. *)
Definition rewritten (x : piece) : str :=
  match x with
  | Plain a => [a]
  | Bracketed u =>
      if starts_with images_prefix u
      then py "![Illustration](" ++ u ++ py ")" ++ nl
      else [LT] ++ u ++ [GT]
  end.

(** *** The transformer and the aggregator *)

(** The three steps on a text, in order. *)
Definition transform (text : str) : str :=
  images_step (code_blocs_step (title_step text)).

(** The guard of [format_messages]: the message has a text and the
    challenge pattern is found in it. *)
Definition is_challenge (message : Message) : bool :=
  match get_text message with
  | Some text => is_some (search CHALLENGE_REGEX false text)
  | None => false
  end.

(** The document of an accepted message. *)
Definition document (message : Message) : str :=
  match get_text message with
  | Some text => transform text
  | None => []
  end.

(** The exception of [format_messages] for a message. *)
Definition not_a_challenge (message : Message) : exn :=
  MessageTypeException "The message doesn't match the pattern" message.

(** The documents of a batch, oldest first, and their concatenation with
    a separator after each of them. *)
Definition documents (msgs : list Message) : list str :=
  map document (filter is_challenge (rev msgs)).

Definition join_with_trailing (sep : str) (docs : list str) : str :=
  List.concat (map (fun d => d ++ sep) docs).

Definition history_blob (msgs : list Message) : str :=
  join_with_trailing challenges_separator (documents msgs).

(** *** The writer and the publisher *)

(** The world after some progress lines. *)
Definition printed (lines : list string) (w : World) : World :=
  mkWorld (REPO_URL w) (output_dir w) (trace w ++ map Print lines).

(** The two modes the writer accepts, and the path of the target file. *)
Definition valid_mode (mode : str) : Prop := mode = py "a" \/ mode = py "w".
Definition target : string := (directory ++ filename)%string.

(** The content of the target file after a write. *)
Definition written (mode data : str) (old : option str) : str :=
  if is_mode "w" mode then data
  else match old with Some o => o | None => [] end ++ data.

(** What [publish_challenges] does in a directory, by whether it is a
    git working tree already. *)
Definition publish_events (git : bool) (url : string) : list event :=
  [Print "Publishing result..."] ++
  (if git then
     [Git ["add"; "."]; Git ["commit"; "--amend"; "--no-edit"]; Git ["push"; "-f"]]
   else
     [Git ["init"];
      Git ["config"; "user.name"; "Daily Programmer Bot"];
      Git ["config"; "user.email"; "daily@programmer.bot"];
      Git ["remote"; "add"; "origin"; url];
      Git ["add"; "."];
      Git ["commit"; "-m"; "Deploying to gh-pages"];
      Git ["branch"; "gh-pages"];
      Git ["checkout"; "gh-pages"];
      Git ["fetch"; "origin"];
      Git ["push"; "-f"; "--set-upstream"; "origin"; "gh-pages"]]) ++
  [Print "Done."].

(** What the writer finds at the path of the output directory: the
    content of the target file, whether the directory is a git working
    tree, and the event of making the directory when it is missing. *)
Definition index_of (n : node) : option str :=
  match n with
  | Directory f _ => f
  | _ => None
  end.

Definition is_git (n : node) : bool :=
  match n with
  | Directory _ g => g
  | _ => false
  end.

Definition mkdir_events (n : node) : list event :=
  match n with
  | Missing => [Mkdir directory]
  | _ => []
  end.

(** The events of a write, up to the second progress line. *)
Definition write_events (mode data : str) : list event :=
  [Open target mode; Writelines data; Close; Print "Done..."].

(** The first line of [publish_challenges] marks a run of the publisher. *)
Definition is_publish (e : event) : bool :=
  match e with
  | Print line => String.eqb line "Publishing result..."
  | _ => false
  end.

(** How many times the publisher ran in a trace. *)
Definition publish_runs (t : list event) : nat := List.length (filter is_publish t).

(** *** The separator and the joined documents *)

(** The separator as the specification writes it: three newlines, three
    hyphens, three newlines. *)
Definition separator_text : str :=
  [NEWLINE; NEWLINE; NEWLINE; HYPHEN; HYPHEN; HYPHEN; NEWLINE; NEWLINE; NEWLINE].

(** Documents joined by a separator: the separator stands between two
    documents and nowhere else. *)
Fixpoint joined (sep : str) (docs : list str) : str :=
  match docs with
  | [] => []
  | d :: rest =>
      match rest with
      | [] => d
      | _ => d ++ sep ++ joined sep rest
      end
  end.

(** *** Texts and their matches *)

(** A pattern without capture groups. *)
Fixpoint group_free (r : regex) : bool :=
  match r with
  | Empty | One _ => true
  | Cat r1 r2 => group_free r1 && group_free r2
  | SUBPATTERN _ _ => false
  | Repeat _ _ _ r' => group_free r'
  end.

(** A matcher that hands the groups it was given to its continuation. *)
Definition keeps_groups (m : matcher) : Prop :=
  forall s c k a, m s c k = Some a ->
    exists s1, suffix_of s1 s /\ k s1 c = Some a.

(** A text without its newlines, and the number of its backticks. *)
Definition without_newlines (s : str) : str := filter (NOT_LITERAL NEWLINE) s.
Definition backticks (s : str) : nat := List.length (filter (LITERAL BACKTICK) s).

(** The texts with which every match of the title pattern and of the
    image pattern starts. *)
Definition title_start : str := py "*===".
Definition images_start : str := LT :: images_prefix.

(** *** Sequences of calls *)

(** A path the writer can use: missing, or a directory. *)
Definition usable (n : node) : bool :=
  match n with
  | NotADirectory => false
  | _ => true
  end.

(** The content of the target file, empty when there is none. *)
Definition content (n : node) : str :=
  match index_of n with
  | Some old => old
  | None => []
  end.

(** The mode check of the writer. *)
Definition mode_ok (mode : str) : bool := is_mode "a" mode || is_mode "w" mode.

(** The messages of a list handed to [parse_message] one after the
    other, whatever the outcome of each, as by a caller that receives
    them one at a time. *)
Fixpoint handle_all (encodable : char -> bool)
         (git_succeeds : list event -> list string -> bool)
         (msgs : list Message) (w : World) : World :=
  match msgs with
  | [] => w
  | message :: rest =>
      handle_all encodable git_succeeds rest
        (snd (parse_message_env encodable git_succeeds message w))
  end.

(** A list of writes, each given as content and mode, run one after the
    other whatever the outcome of each. *)
Fixpoint write_all (jobs : list (str * str)) (w : World) : World :=
  match jobs with
  | [] => w
  | (data, mode) :: rest =>
      write_all rest (snd (write_history_to_file data mode w))
  end.

(** The runs of [git init] in a trace. *)
Definition is_init (e : event) : bool :=
  match e with
  | Git args => if list_eq_dec string_dec args ["init"] then true else false
  | _ => false
  end.

Definition inits (t : list event) : nat := List.length (filter is_init t).

(** What is still to be initialised: one repository, unless the output
    directory is a git working tree already. *)
Definition to_init (n : node) : nat := if is_git n then 0 else 1.

(** *** Image links on any text *)

(** A character of a line that is not a closing angle bracket. *)
Definition line_char (a : char) : bool := ANY a && negb (N.eqb a GT).

(** A text in which the image pattern matches nowhere. *)
Definition no_image_link (s : str) : Prop :=
  forall s', suffix_of s' s -> exec IMAGES_REGEX s' [] (toplevel false s') = None.

(** The replacement of the image step for a URL. *)
Definition illustration (url : str) : str :=
  py "![Illustration](" ++ url ++ py ")" ++ nl.

(** *** The singleton and the configuration *)

(** The diagnostic of [read_config], with its line of detail. *)
Definition diagnostic (detail : string) : string :=
  (line_feed ++ "/!\ " ++ line_feed ++ line_feed
   ++ "Invalid config.ini file " ++ line_feed
   ++ detail ++ line_feed
   ++ "Content should look like:" ++ line_feed
   ++ "[GitRepoInfo]" ++ line_feed
   ++ "repo = git@github.com:73VW/Daily-Programmer-Bot.git"
   ++ line_feed ++ line_feed ++ line_feed ++ "USING DEFAULT REPO")%string.

(** The detail for an option without a value. *)
Definition check_option_repo : string :=
  ("Check option " ++ double_quote ++ "repo" ++ double_quote
   ++ " in section " ++ double_quote ++ "GitRepoInfo" ++ double_quote)%string.

(** What the file gives for the option 'repo' of the section
    'GitRepoInfo': the option of the section, or else the one of the
    [DEFAULT] section; nothing when the file cannot be read or parsed or
    has no such section or option. *)
Definition configured (c : config_file) : option got :=
  match c with
  | Parsed defaults sections =>
      match lookup "GitRepoInfo" sections with
      | Some sectiondict =>
          match lookup "repo" sectiondict with
          | Some v => Some v
          | None => lookup "repo" defaults
          end
      | None => None
      end
  | _ => None
  end.

(** The process after a line on the console, with another configuration
    file, with one more object that nothing refers to, and at its start. *)
Definition said (message : string) (p : Process) : Process :=
  mkProcess (instance p) (objects p) (config_ini p) (disk p)
    (events p ++ [Print message]).

Definition with_config (c : config_file) (p : Process) : Process :=
  mkProcess (instance p) (objects p) c (disk p) (events p).

Definition with_garbage (p : Process) : Process :=
  mkProcess (instance p) (objects p ++ [None]) (config_ini p) (disk p) (events p).

Definition fresh (c : config_file) : Process := mkProcess None [] c Missing [].

(** The helper obtained from [getInstance] writes a first history. *)
Definition first_write (data mode : str) : Boot unit :=
  (helper <- getInstance ;; call helper (write_history_to_file data mode))%boot.

(** *** Examples *)

(** The examples below are ASCII texts: the Unicode tables play no part. *)
Definition no_table : char -> bool := fun _ => false.

(** A fresh world, and a message with a text. *)
Definition w0 : World :=
  mkWorld "git@github.com:73VW/Daily-Programmer-Bot.git" Missing [].

Definition text_message (text : str) : Message :=
  [("ts", VStr (py "1603785600.000100")); ("text", VStr text)].

(** The message of the docstring of [format_messages]. *)
Definition example_date : str := py "Wednesday October 27th 2020".
Definition example_title : str := py "Binary Tree Postorder Traversal".
Definition example_body : str :=
  nl ++ py "```Input: root = []" ++ nl ++ py "Output: []```".
Definition example_text : str :=
  banner_head ++ example_date ++ banner_tail ++ repeat NEWLINE 2
    ++ py "*[" ++ example_title ++ py "]*" ++ [] ++ example_body.

(** A text with two image links, one other link and plain characters. *)
Definition example_pieces : list piece :=
  [Plain 97%N; Plain 32%N;
   Bracketed (images_prefix ++ py "2020/10/27/tree.png");
   Plain 32%N;
   Bracketed (py "https://example.com/uploads/x.png");
   Bracketed (images_prefix)].

(** A configuration file that names a repository, and a process in
    which one helper has been allocated. *)
Definition example_url : string := "git@example.org:me/site.git".

Definition example_config : config_file :=
  Parsed [] [("GitRepoInfo", [("repo", Text example_url)])].

Definition one_object (c : config_file) : Process :=
  mkProcess None [None] c Missing [].

(** An environment: a file encoding that takes the ASCII characters
    only, and a machine without network, on which [git fetch] and
    [git push] fail. *)
Definition ascii_only : char -> bool := fun a => N.ltb a 128.

Definition offline (_ : list event) (args : list string) : bool :=
  match args with
  | command :: _ => negb (String.eqb command "push" || String.eqb command "fetch")
  | [] => true
  end.

(** ** Facts about the engine *)

Lemma suffix_refl s : suffix_of s s.
Proof. exists []; reflexivity. Qed.

Lemma suffix_trans s1 s2 s3 : suffix_of s1 s2 -> suffix_of s2 s3 -> suffix_of s1 s3.
Proof.
  intros [p ->] [q ->]. exists (q ++ p). now rewrite app_assoc.
Qed.

Lemma suffix_length s1 s : suffix_of s1 s -> List.length s1 <= List.length s.
Proof. intros [p ->]. rewrite length_app. lia. Qed.

Lemma suffix_firstn s1 s :
  suffix_of s1 s -> firstn (List.length s - List.length s1) s ++ s1 = s.
Proof.
  intros [p ->]. rewrite length_app.
  replace (List.length p + List.length s1 - List.length s1) with (List.length p + 0) by lia.
  now rewrite firstn_app_2, firstn_O, app_nil_r.
Qed.

Lemma firstn_matched (p s : str) :
  firstn (List.length (p ++ s) - List.length s) (p ++ s) = p.
Proof.
  rewrite length_app.
  replace (List.length p + List.length s - List.length s) with (List.length p + 0) by lia.
  now rewrite firstn_app_2, firstn_O, app_nil_r.
Qed.

Lemma rep_min_sound body lo : sound body -> sound (rep_min body lo).
Proof.
  intros Hb. induction lo as [|lo IH]; intros s c k a H; simpl in H.
  - exists s, c. split; [apply suffix_refl | exact H].
  - apply Hb in H. destruct H as (s1 & c1 & Hs1 & H).
    apply IH in H. destruct H as (s2 & c2 & Hs2 & H).
    exists s2, c2. split; [eapply suffix_trans; eassumption | exact H].
Qed.

Lemma rep_more_sound body greedy fuel :
  sound body -> forall hi, sound (rep_more body greedy hi fuel).
Proof.
  intros Hb. induction fuel as [|fuel IH]; intros hi s c k a H; simpl in H.
  - exists s, c. split; [apply suffix_refl | exact H].
  - assert (Hstop : k s c = Some a -> exists s1 c1, suffix_of s1 s /\ k s1 c1 = Some a).
    { intros E. exists s, c. split; [apply suffix_refl | exact E]. }
    assert (Hmore : one_more body s c
                      (fun s1 c1 => rep_more body greedy (dec_bound hi) fuel s1 c1 k) = Some a ->
                    exists s1 c1, suffix_of s1 s /\ k s1 c1 = Some a).
    { intros E. unfold one_more in E. apply Hb in E.
      destruct E as (s1 & c1 & Hs1 & E).
      destruct (List.length s1 <? List.length s); [|discriminate].
      apply IH in E. destruct E as (s2 & c2 & Hs2 & E).
      exists s2, c2. split; [eapply suffix_trans; eassumption | exact E]. }
    destruct hi as [[|h]|]; auto; destruct greedy.
    + destruct (one_more _ _ _ _) eqn:E; [inversion H; subst; auto | auto].
    + destruct (k s c) eqn:E; [inversion H; subst; auto | auto].
    + destruct (one_more _ _ _ _) eqn:E; [inversion H; subst; auto | auto].
    + destruct (k s c) eqn:E; [inversion H; subst; auto | auto].
Qed.

Lemma exec_sound r : sound (exec r).
Proof.
  induction r as [|p|r1 IH1 r2 IH2|g r IH|greedy lo hi r IH];
    intros s c k a H; cbn [exec] in H.
  - exists s, c. split; [apply suffix_refl | exact H].
  - destruct s as [|x s]; [discriminate|].
    destruct (p x); [|discriminate].
    exists s, c. split; [exists [x]; reflexivity | exact H].
  - apply IH1 in H. destruct H as (s1 & c1 & Hs1 & H).
    apply IH2 in H. destruct H as (s2 & c2 & Hs2 & H).
    exists s2, c2. split; [eapply suffix_trans; eassumption | exact H].
  - apply IH in H. destruct H as (s1 & c1 & Hs1 & H). eauto.
  - apply (rep_min_sound (exec r) lo IH) in H. destruct H as (s1 & c1 & Hs1 & H).
    apply (rep_more_sound (exec r) greedy (S (List.length s1)) IH) in H.
    destruct H as (s2 & c2 & Hs2 & H).
    exists s2, c2. split; [eapply suffix_trans; eassumption | exact H].
Qed.

(** What [search] returns is a decomposition of the text, and under
    [must_advance] the match is not the empty match at the start. *)
Lemma search_spec r : forall s adv m,
  search r adv s = Some m ->
  s = m_pre m ++ m_text m ++ m_rest m /\
  (adv = true -> m_pre m = [] -> m_text m <> []).
Proof.
  induction s as [|x s IH]; intros adv m H; cbn [search] in H.
  - destruct (exec r [] [] (toplevel adv [])) as [[s1 c1]|] eqn:E; [|discriminate].
    inversion H; subst; clear H. simpl.
    apply exec_sound in E. destruct E as (s2 & c2 & Hs & E).
    unfold toplevel in E. destruct Hs as [p Hp].
    symmetry in Hp. apply app_eq_nil in Hp. destruct Hp; subst.
    destruct adv; simpl in E; [discriminate|].
    inversion E; subst. split; [reflexivity | discriminate].
  - destruct (exec r (x :: s) [] (toplevel adv (x :: s))) as [[s1 c1]|] eqn:E.
    + inversion H; subst; clear H. cbn [m_pre m_text m_rest].
      apply exec_sound in E. destruct E as (s2 & c2 & Hs & E).
      unfold toplevel in E.
      destruct (adv && (List.length s2 =? List.length (x :: s))) eqn:G; [discriminate|].
      inversion E; subst s2 c2; clear E.
      split.
      * symmetry. exact (suffix_firstn _ _ Hs).
      * intros -> _ Hnil. cbn [andb] in G.
        apply Nat.eqb_neq in G. apply G.
        pose proof (suffix_firstn _ _ Hs) as F.
        apply (f_equal (@List.length char)) in F.
        rewrite length_app in F.
        apply (f_equal (@List.length char)) in Hnil.
        change (List.length (firstn (List.length (x :: s) - List.length s1) (x :: s)) = 0)
          in Hnil.
        lia.
    + destruct (search r false s) as [m'|] eqn:S'; [|discriminate].
      inversion H; subst; clear H. apply IH in S'. destruct S' as [Hd _].
      cbn [shift m_pre m_text m_rest]. split.
      * simpl. now f_equal.
      * discriminate.
Qed.

(** [subx] never runs out of iterations: any amount at or above the
    measure gives the same result. *)
Lemma subx_fuel r t : forall f1 f2 s adv,
  sub_measure s adv <= f1 -> sub_measure s adv <= f2 ->
  subx f1 r t s adv = subx f2 r t s adv.
Proof.
  induction f1 as [|f1 IH]; intros f2 s adv H1 H2.
  - unfold sub_measure in H1. destruct adv; lia.
  - destruct f2 as [|f2]; [unfold sub_measure in H2; destruct adv; lia|].
    simpl. destruct (search r adv s) as [m|] eqn:E; [|reflexivity].
    apply search_spec in E. destruct E as [Hd Hadv].
    do 2 f_equal.
    assert (Hm : sub_measure (m_rest m) (match m_text m with [] => true | _ => false end)
                 < sub_measure s adv).
    { unfold sub_measure. rewrite Hd. rewrite !length_app.
      destruct (m_text m) as [|y ys] eqn:T.
      - destruct adv.
        + destruct (m_pre m) as [|z zs] eqn:P.
          * exfalso. now apply Hadv.
          * simpl. lia.
        + simpl. lia.
      - simpl. destruct adv; lia. }
    apply IH; lia.
Qed.

Lemma sub_unfold r t s :
  sub r t s =
  match search r false s with
  | None => s
  | Some m =>
      m_pre m ++ expand t (m_groups m)
        ++ subx (sub_measure (m_rest m) (match m_text m with [] => true | _ => false end))
             r t (m_rest m) (match m_text m with [] => true | _ => false end)
  end.
Proof.
  unfold sub. cbn [subx Nat.add].
  replace (2 * List.length s + 2) with (S (2 * List.length s + 1)) by lia.
  cbn [subx]. destruct (search r false s) as [m|] eqn:E; [|reflexivity].
  do 2 f_equal. apply search_spec in E. destruct E as [Hd _].
  apply subx_fuel; [|lia].
  unfold sub_measure. rewrite Hd. rewrite !length_app.
  destruct (m_text m); simpl; lia.
Qed.

(** *** [re.sub] one step at a time *)

Lemma sub_no_match r t s : search r false s = None -> sub r t s = s.
Proof. intros H. now rewrite sub_unfold, H. Qed.

(** The pattern fails at the first character: the character is copied. *)
Lemma sub_skip r t a s :
  exec r (a :: s) [] (toplevel false (a :: s)) = None ->
  sub r t (a :: s) = a :: sub r t s.
Proof.
  intros H. rewrite (sub_unfold r t (a :: s)), (sub_unfold r t s).
  cbn [search]. rewrite H.
  destruct (search r false s) as [m|]; reflexivity.
Qed.

(** The pattern matches a non-empty text at the start. *)
Lemma sub_hit r t p s1 c1 :
  p <> [] ->
  exec r (p ++ s1) [] (toplevel false (p ++ s1)) = Some (s1, c1) ->
  sub r t (p ++ s1) = expand t c1 ++ sub r t s1.
Proof.
  intros Hp H. rewrite sub_unfold.
  destruct (p ++ s1) as [|x s] eqn:Es.
  - apply app_eq_nil in Es. destruct Es; contradiction.
  - cbn [search]. rewrite H. cbn [m_pre m_text m_groups m_rest app].
    rewrite <- Es, firstn_matched.
    destruct p; [contradiction | reflexivity].
Qed.

Lemma sub_skip_all r t pre s :
  (forall a s', In a pre -> exec r (a :: s') [] (toplevel false (a :: s')) = None) ->
  sub r t (pre ++ s) = pre ++ sub r t s.
Proof.
  induction pre as [|a pre IH]; intros H; [reflexivity|].
  cbn [app]. rewrite sub_skip by (apply H; now left).
  rewrite IH; [reflexivity|]. intros; apply H; now right.
Qed.

(** *** Literals *)

Lemma exec_lits_app l : forall s c k, exec (lits l) (l ++ s) c k = k s c.
Proof.
  induction l as [|a l IH]; intros s c k; [reflexivity|].
  unfold lits in *. cbn [map seq fold_right exec app].
  unfold LITERAL at 1. rewrite N.eqb_refl. apply IH.
Qed.

Lemma exec_lits l : forall s c k,
  exec (lits l) s c k =
  if starts_with l s then k (skipn (List.length l) s) c else None.
Proof.
  induction l as [|a l IH]; intros s c k; [reflexivity|].
  unfold lits in *. cbn [map seq fold_right exec].
  destruct s as [|b s]; [reflexivity|].
  cbn [starts_with skipn List.length]. unfold LITERAL at 1.
  destruct (N.eqb a b); [apply IH | reflexivity].
Qed.

Lemma starts_with_app l s : starts_with l (l ++ s) = true.
Proof.
  induction l as [|a l IH]; [reflexivity|].
  cbn [app starts_with]. now rewrite N.eqb_refl.
Qed.

Lemma starts_with_split l : forall s,
  starts_with l s = true -> s = l ++ skipn (List.length l) s.
Proof.
  induction l as [|a l IH]; intros s H; [reflexivity|].
  destruct s as [|b s]; [discriminate|].
  cbn [starts_with] in H. apply andb_prop in H. destruct H as [Hab H].
  apply N.eqb_eq in Hab. subst b. cbn [app skipn List.length].
  f_equal. now apply IH.
Qed.

(** *** Repetition of a one-character item *)

Lemma rep_more_greedy_one p c k : forall s fuel,
  List.length s < fuel ->
  rep_more (exec (One p)) true None fuel s c k = greedy_scan p s c k.
Proof.
  induction s as [|a s IH]; intros fuel Hf;
    (destruct fuel as [|fuel]; [inversion Hf|]);
    cbn [rep_more one_more exec greedy_scan dec_bound option_map]; [reflexivity|].
  destruct (p a); [|reflexivity].
  replace (List.length s <? List.length (a :: s)) with true
    by (symmetry; apply Nat.ltb_lt; simpl; lia).
  rewrite IH by (simpl in Hf; lia). reflexivity.
Qed.

Lemma rep_more_lazy_one p c k : forall s fuel,
  List.length s < fuel ->
  rep_more (exec (One p)) false None fuel s c k = lazy_scan p s c k.
Proof.
  induction s as [|a s IH]; intros fuel Hf;
    (destruct fuel as [|fuel]; [inversion Hf|]);
    cbn [rep_more one_more exec lazy_scan dec_bound option_map];
    destruct (k _ c); try reflexivity.
  destruct (p a); [|reflexivity].
  replace (List.length s <? List.length (a :: s)) with true
    by (symmetry; apply Nat.ltb_lt; simpl; lia).
  apply IH. simpl in Hf; lia.
Qed.

Lemma exec_star_One p s c k : exec (star (One p)) s c k = greedy_scan p s c k.
Proof.
  unfold star. cbn [exec rep_min bound_sub option_map].
  apply rep_more_greedy_one. lia.
Qed.

Lemma exec_lazy_star_One p s c k :
  exec (lazy_star (One p)) s c k = lazy_scan p s c k.
Proof.
  unfold lazy_star. cbn [exec rep_min bound_sub option_map].
  apply rep_more_lazy_one. lia.
Qed.

Lemma exec_plus_One p s c k :
  exec (plus (One p)) s c k =
  match s with
  | a :: s' => if p a then greedy_scan p s' c k else None
  | [] => None
  end.
Proof.
  unfold plus. cbn [exec rep_min bound_sub option_map].
  destruct s as [|a s]; [reflexivity|].
  destruct (p a); [|reflexivity].
  apply rep_more_greedy_one. lia.
Qed.

Lemma rep_min_ext body lo : extensional body -> extensional (rep_min body lo).
Proof.
  intros Hb. induction lo as [|lo IH]; intros s c k1 k2 H; cbn [rep_min].
  - apply H.
  - apply Hb. intros s1 c1. now apply IH.
Qed.

Lemma rep_more_ext body greedy fuel :
  extensional body -> forall hi, extensional (rep_more body greedy hi fuel).
Proof.
  intros Hb. induction fuel as [|fuel IH]; intros hi s c k1 k2 H; cbn [rep_more].
  - apply H.
  - rewrite (H s c).
    assert (E : one_more body s c
                  (fun s1 c1 => rep_more body greedy (dec_bound hi) fuel s1 c1 k1) =
                one_more body s c
                  (fun s1 c1 => rep_more body greedy (dec_bound hi) fuel s1 c1 k2)).
    { unfold one_more. apply Hb. intros s1 c1.
      destruct (List.length s1 <? List.length s); [|reflexivity].
      now apply IH. }
    now rewrite E.
Qed.

Lemma exec_ext r : extensional (exec r).
Proof.
  induction r as [|p|r1 IH1 r2 IH2|g r IH|greedy lo hi r IH];
    intros s c k1 k2 H; cbn [exec].
  - apply H.
  - destruct s as [|a s]; [reflexivity|]. now rewrite H.
  - apply IH1. intros s1 c1. now apply IH2.
  - apply IH. intros s1 c1. apply H.
  - apply rep_min_ext; [assumption|]. intros s1 c1.
    now apply rep_more_ext.
Qed.

Lemma rep_more_zero body greedy fuel s c k :
  rep_more body greedy (Some 0) fuel s c k = k s c.
Proof. destruct fuel; reflexivity. Qed.

(** [r?] *)
Lemma exec_opt r s c k :
  exec (opt r) s c k =
  match exec r s c (fun s1 c1 =>
          if List.length s1 <? List.length s then k s1 c1 else None) with
  | Some a => Some a
  | None => k s c
  end.
Proof.
  unfold opt. cbn [exec rep_min].
  change (bound_sub (Some 1) 0) with (Some 1).
  cbn [rep_more one_more dec_bound option_map pred].
  erewrite exec_ext; [reflexivity|].
  intros s1 c1. cbv beta. now rewrite rep_more_zero.
Qed.

(** [x?] for a literal character. *)
Lemma exec_opt_lit a s c k :
  exec (opt (lits [a])) s c k =
  match s with
  | b :: s' =>
      if N.eqb a b then
        match k s' c with Some r => Some r | None => k s c end
      else k s c
  | [] => k s c
  end.
Proof.
  rewrite exec_opt. unfold lits. cbn [map seq fold_right exec].
  destruct s as [|b s]; [reflexivity|].
  unfold LITERAL. destruct (N.eqb a b); [|reflexivity].
  replace (List.length s <? List.length (b :: s)) with true
    by (symmetry; apply Nat.ltb_lt; simpl; lia).
  reflexivity.
Qed.

(** [r{3}] *)
Lemma exec_times3 r s c k :
  exec (times 3 r) s c k =
  exec r s c (fun s1 c1 => exec r s1 c1 (fun s2 c2 => exec r s2 c2 k)).
Proof.
  unfold times. cbn [exec rep_min].
  apply exec_ext; intros s1 c1. apply exec_ext; intros s2 c2.
  apply exec_ext; intros s3 c3.
  change (bound_sub (Some 3) 3) with (Some 0). apply rep_more_zero.
Qed.

Lemma exec_times3_lit a s c k :
  exec (times 3 (lits [a])) s c k = exec (lits [a; a; a]) s c k.
Proof.
  rewrite exec_times3. unfold lits. cbn [map seq fold_right exec].
  destruct s as [|x1 s]; [reflexivity|]. destruct (LITERAL a x1); [|reflexivity].
  destruct s as [|x2 s]; [reflexivity|]. destruct (LITERAL a x2); [|reflexivity].
  destruct s as [|x3 s]; [reflexivity|]. destruct (LITERAL a x3); reflexivity.
Qed.

Lemma greedy_scan_stop p s c k : stops p s -> greedy_scan p s c k = k s c.
Proof. destruct s as [|a s]; simpl; [reflexivity | now intros ->]. Qed.

(** A greedy scan gives back characters only while the continuation
    fails: if it fails on every shorter remainder of [y], the remainder
    [y ++ s] is the first one that is tried with success. *)
Lemma greedy_scan_exact p c k : forall y s,
  forallb p y = true -> stops p s ->
  (forall y1 y2, y = y1 ++ y2 -> y1 <> [] -> k (y2 ++ s) c = None) ->
  greedy_scan p (y ++ s) c k = k (y ++ s) c.
Proof.
  induction y as [|a y IH]; intros s Hy Hs Hk.
  - now apply greedy_scan_stop.
  - cbn [forallb] in Hy. apply andb_prop in Hy. destruct Hy as [Ha Hy].
    cbn [app greedy_scan]. rewrite Ha.
    rewrite IH; [| assumption | assumption |].
    + rewrite (Hk [a] y); [reflexivity | reflexivity | discriminate].
    + intros y1 y2 -> Hne. apply (Hk (a :: y1) y2); [reflexivity | discriminate].
Qed.

Lemma greedy_scan_backtrack p c k r : forall x y s,
  forallb p x = true -> forallb p y = true -> stops p s ->
  (forall y1 y2, y = y1 ++ y2 -> y1 <> [] -> k (y2 ++ s) c = None) ->
  k (y ++ s) c = Some r ->
  greedy_scan p (x ++ y ++ s) c k = Some r.
Proof.
  induction x as [|a x IH]; intros y s Hx Hy Hs Hk Hr.
  - cbn [app]. rewrite greedy_scan_exact; assumption.
  - cbn [forallb] in Hx. apply andb_prop in Hx. destruct Hx as [Ha Hx].
    cbn [app greedy_scan]. rewrite Ha.
    now rewrite (IH y s Hx Hy Hs Hk Hr).
Qed.

Lemma greedy_scan_longest p c k r x s :
  forallb p x = true -> stops p s -> k s c = Some r ->
  greedy_scan p (x ++ s) c k = Some r.
Proof.
  intros Hx Hs Hr.
  apply (greedy_scan_backtrack p c k r x [] s); auto.
  intros y1 y2 E Hne. symmetry in E. apply app_eq_nil in E. destruct E; contradiction.
Qed.

Lemma lazy_scan_done p s c k r : k s c = Some r -> lazy_scan p s c k = Some r.
Proof. intros H. destruct s; simpl; now rewrite H. Qed.

(** A lazy scan moves on exactly while the continuation fails. *)
Lemma lazy_scan_skip p c k : forall x s,
  forallb p x = true ->
  (forall x1 x2, x = x1 ++ x2 -> x2 <> [] -> k (x2 ++ s) c = None) ->
  lazy_scan p (x ++ s) c k = lazy_scan p s c k.
Proof.
  induction x as [|a x IH]; intros s Hx Hk; [reflexivity|].
  cbn [forallb] in Hx. apply andb_prop in Hx. destruct Hx as [Ha Hx].
  cbn [app lazy_scan].
  assert (H0 : k (a :: x ++ s) c = None)
    by (apply (Hk [] (a :: x)); [reflexivity | discriminate]).
  rewrite H0, Ha. apply IH; [assumption|].
  intros x1 x2 -> Hne. apply (Hk (a :: x1) x2); [reflexivity | assumption].
Qed.

(** *** Unbounded repetition of any body *)

Lemma rep_more_fuel body greedy :
  extensional body ->
  forall f1 f2 hi s c k,
    List.length s < f1 -> List.length s < f2 ->
    rep_more body greedy hi f1 s c k = rep_more body greedy hi f2 s c k.
Proof.
  intros Hb. induction f1 as [|f1 IH]; intros f2 hi s c k H1 H2; [inversion H1|].
  destruct f2 as [|f2]; [inversion H2|].
  cbn [rep_more].
  assert (E : one_more body s c
                (fun s1 c1 => rep_more body greedy (dec_bound hi) f1 s1 c1 k) =
              one_more body s c
                (fun s1 c1 => rep_more body greedy (dec_bound hi) f2 s1 c1 k)).
  { unfold one_more. apply Hb. intros s1 c1.
    destruct (List.length s1 <? List.length s) eqn:L; [|reflexivity].
    apply Nat.ltb_lt in L. apply IH; lia. }
  now rewrite E.
Qed.

Lemma exec_lazy_star_def r s c k :
  exec (lazy_star r) s c k = rep_more (exec r) false None (S (List.length s)) s c k.
Proof. reflexivity. Qed.

(** [r*?]: first the rest of the pattern, then one more [r]. *)
Lemma exec_lazy_star r s c k :
  exec (lazy_star r) s c k =
  match k s c with
  | Some a => Some a
  | None =>
      exec r s c (fun s1 c1 =>
        if List.length s1 <? List.length s
        then exec (lazy_star r) s1 c1 k else None)
  end.
Proof.
  rewrite exec_lazy_star_def.
  cbn [rep_more one_more dec_bound option_map].
  destruct (k s c); [reflexivity|].
  apply exec_ext. intros s1 c1.
  destruct (List.length s1 <? List.length s) eqn:L; [|reflexivity].
  apply Nat.ltb_lt in L. rewrite exec_lazy_star_def.
  apply rep_more_fuel; [apply exec_ext | lia | lia].
Qed.

(** ** The patterns and their source text *)

Lemma CHALLENGE_REGEX_source :
  compiles_to "===?\s+([\w\s]+)\-?[\w\s]*\s+=?==" CHALLENGE_REGEX.
Proof. eexists. split; [vm_compute; reflexivity | reflexivity]. Qed.

Lemma CODE_BLOCS_REGEX_source :
  compiles_to "(```)((?:[^`]*\n*)*?)(```)" CODE_BLOCS_REGEX.
Proof. eexists. split; [vm_compute; reflexivity | reflexivity]. Qed.

Lemma TITLE_REGEX_source :
  compiles_to
    "(?:\*\={3}\s)(.*)(?:\s-\sDaily\sProgrammer\s\={3}\*\n*?\*\[)(.*)(?:\]\*)"
    TITLE_REGEX.
Proof. eexists. split; [vm_compute; reflexivity | reflexivity]. Qed.

Lemma IMAGES_REGEX_source :
  compiles_to "<(https://assets\.leetcode\.com/uploads/.*?)>" IMAGES_REGEX.
Proof. eexists. split; [vm_compute; reflexivity | reflexivity]. Qed.

Lemma TITLE_TEMPLATE_source : expands_as "\2 -- \1" TITLE_TEMPLATE.
Proof. intros c. reflexivity. Qed.

Lemma CODE_BLOCS_TEMPLATE_source : expands_as "\1\n\2\n\3" CODE_BLOCS_TEMPLATE.
Proof. intros c. reflexivity. Qed.

Lemma IMAGES_TEMPLATE_source :
  expands_as "![Illustration](\1)\n" IMAGES_TEMPLATE.
Proof. intros c. reflexivity. Qed.

(** ** Code blocks *)

Lemma length_lt_app (x : str) a s : (List.length s <? List.length ((a :: x) ++ s)) = true.
Proof. apply Nat.ltb_lt. rewrite length_app. simpl. lia. Qed.

Lemma code_blocs_miss a s c k :
  a <> BACKTICK -> exec CODE_BLOCS_REGEX (a :: s) c k = None.
Proof.
  intros Ha. unfold CODE_BLOCS_REGEX, seq. cbn [fold_right exec].
  unfold lit. rewrite exec_lits.
  change (py "```") with [BACKTICK; BACKTICK; BACKTICK].
  cbn [starts_with].
  destruct (N.eqb BACKTICK a) eqn:E; [|reflexivity].
  apply N.eqb_eq in E. congruence.
Qed.

Lemma code_blocs_hit X post :
  no_backtick X = true ->
  exec CODE_BLOCS_REGEX (fence ++ X ++ fence ++ post) []
       (toplevel false (fence ++ X ++ fence ++ post))
  = Some (post, [(3, fence); (2, X); (1, fence)]).
Proof.
  intros HX. unfold CODE_BLOCS_REGEX, seq. cbn [fold_right exec rep_min].
  unfold lit. fold fence. rewrite exec_lits_app.
  rewrite firstn_matched.
  assert (Hlen : (List.length post =? List.length (fence ++ X ++ fence ++ post)) = false).
  { apply Nat.eqb_neq. rewrite !length_app. simpl. lia. }
  destruct X as [|x X].
  - (* the closing fence follows at once *)
    rewrite exec_lazy_star. cbn [app]. rewrite exec_lits_app.
    unfold toplevel. cbn [andb].
    rewrite Nat.sub_diag. cbn [firstn].
    rewrite (firstn_matched fence post). reflexivity.
  - unfold no_backtick in HX. pose proof HX as HX'.
    cbn [forallb] in HX. apply andb_prop in HX. destruct HX as [Hx HX].
    rewrite exec_lazy_star.
    rewrite exec_lits. fold fence.
    change (starts_with fence ((x :: X) ++ fence ++ post))
      with (N.eqb BACKTICK x && starts_with [BACKTICK; BACKTICK] (X ++ fence ++ post)).
    unfold NOT_LITERAL in Hx. apply negb_true_iff in Hx. rewrite Hx. cbn [andb].
    cbn [exec]. rewrite exec_star_One.
    erewrite greedy_scan_longest; [reflexivity | exact HX' | reflexivity |].
    rewrite exec_star_One. rewrite greedy_scan_stop by reflexivity.
    rewrite length_lt_app.
    rewrite exec_lazy_star. rewrite exec_lits_app.
    unfold toplevel. cbn [andb].
    rewrite (firstn_matched (x :: X) (fence ++ post)).
    rewrite (firstn_matched fence post). reflexivity.
Qed.

Lemma code_blocs_step_skip pre s :
  no_backtick pre = true ->
  code_blocs_step (pre ++ s) = pre ++ code_blocs_step s.
Proof.
  intros Hpre. unfold code_blocs_step. apply sub_skip_all.
  intros a s' Ha. apply code_blocs_miss.
  unfold no_backtick in Hpre. rewrite forallb_forall in Hpre.
  specialize (Hpre a Ha). unfold NOT_LITERAL in Hpre.
  apply negb_true_iff, N.eqb_neq in Hpre. congruence.
Qed.

Lemma code_blocs_step_block X post :
  no_backtick X = true ->
  code_blocs_step (fence ++ X ++ fence ++ post)
  = fence ++ nl ++ X ++ nl ++ fence ++ code_blocs_step post.
Proof.
  intros HX. unfold code_blocs_step.
  pose proof (code_blocs_hit X post HX) as H.
  replace (fence ++ X ++ fence ++ post) with ((fence ++ X ++ fence) ++ post) in *
    by now rewrite <- !app_assoc.
  assert (Hne : (fence ++ X ++ fence) <> []) by (intro E; discriminate E).
  rewrite (sub_hit _ _ _ _ _ Hne H).
  cbn [expand CODE_BLOCS_TEMPLATE flat_map group Nat.eqb].
  now rewrite <- !app_assoc.
Qed.

(** ** Image links *)

Lemma url_char_spec a :
  url_char a = true -> a <> LT /\ a <> GT /\ ANY a = true.
Proof.
  unfold url_char, ANY, NOT_LITERAL. intros H.
  apply andb_prop in H. destruct H as [H H3].
  apply andb_prop in H. destruct H as [H1 H2].
  apply negb_true_iff in H1, H2, H3.
  apply N.eqb_neq in H1, H2. repeat split; try assumption.
  rewrite N.eqb_sym, H3. reflexivity.
Qed.

Lemma images_miss a s c k : a <> LT -> exec IMAGES_REGEX (a :: s) c k = None.
Proof.
  intros Ha. unfold IMAGES_REGEX, seq, lit. cbn [fold_right exec].
  rewrite exec_lits. change (py "<") with [LT]. cbn [starts_with].
  destruct (N.eqb LT a) eqn:E; [|reflexivity].
  apply N.eqb_eq in E. congruence.
Qed.

Lemma images_miss_prefix s c k :
  starts_with images_prefix s = false -> exec IMAGES_REGEX (LT :: s) c k = None.
Proof.
  intros Hs. unfold IMAGES_REGEX, seq, lit. cbn [fold_right exec].
  change (py "<") with [LT]. rewrite (exec_lits_app [LT] s).
  fold images_prefix. rewrite exec_lits, Hs. reflexivity.
Qed.

Lemma images_hit U post :
  forallb url_char U = true ->
  exec IMAGES_REGEX ([LT] ++ (images_prefix ++ U) ++ [GT] ++ post) []
       (toplevel false ([LT] ++ (images_prefix ++ U) ++ [GT] ++ post))
  = Some (post, [(1, images_prefix ++ U)]).
Proof.
  intros HU. unfold IMAGES_REGEX, seq, lit. cbn [fold_right exec].
  change (py "<") with [LT]. change (py ">") with [GT]. fold images_prefix.
  rewrite exec_lits_app. rewrite <- app_assoc. rewrite exec_lits_app.
  rewrite exec_lazy_star_One.
  assert (HA : forallb ANY U = true).
  { rewrite forallb_forall in *. intros a Ha. now apply url_char_spec, HU. }
  rewrite lazy_scan_skip; [| exact HA |].
  - apply lazy_scan_done.
    rewrite (app_assoc images_prefix U), firstn_matched.
    rewrite (exec_lits_app [GT]). unfold toplevel. reflexivity.
  - intros x1 x2 -> Hne. destruct x2 as [|a x2]; [contradiction|].
    rewrite forallb_app in HU. apply andb_prop in HU. destruct HU as [_ HU].
    cbn [forallb] in HU. apply andb_prop in HU. destruct HU as [Ha _].
    apply url_char_spec in Ha. destruct Ha as (_ & Ha & _).
    rewrite exec_lits. cbn [app starts_with].
    destruct (N.eqb GT a) eqn:E; [|reflexivity].
    apply N.eqb_eq in E. congruence.
Qed.

Lemma starts_with_before x p : ~ In x p -> forall u rest,
  starts_with p (u ++ x :: rest) = starts_with p u.
Proof.
  intros Hx. induction p as [|a p IH]; intros u rest; [reflexivity|].
  destruct u as [|b u]; cbn [app starts_with].
  - destruct (N.eqb a x) eqn:E; [|reflexivity].
    apply N.eqb_eq in E. subst. exfalso. apply Hx. now left.
  - rewrite IH; [reflexivity|]. intros H. apply Hx. now right.
Qed.

Lemma images_step_skip pre s :
  no_lt pre = true ->
  images_step (pre ++ s) = pre ++ images_step s.
Proof.
  intros Hpre. unfold images_step, no_lt in *. apply sub_skip_all.
  intros a s' Ha. apply images_miss.
  rewrite forallb_forall in Hpre. specialize (Hpre a Ha).
  now apply negb_true_iff, N.eqb_neq in Hpre.
Qed.

Lemma images_step_piece x s :
  well_formed x = true ->
  images_step (render x ++ s) = rewritten x ++ images_step s.
Proof.
  destruct x as [a|u]; cbn [well_formed render rewritten]; intros H.
  - apply (images_step_skip [a] s). unfold no_lt. cbn [forallb]. now rewrite H.
  - destruct (starts_with images_prefix u) eqn:P.
    + apply starts_with_split in P.
      set (U := skipn (List.length images_prefix) u) in *.
      assert (HU : forallb url_char U = true).
      { rewrite P, forallb_app in H. now apply andb_prop in H. }
      rewrite P. unfold images_step.
      pose proof (images_hit U s HU) as Hit.
      replace ([LT] ++ (images_prefix ++ U) ++ [GT] ++ s)
        with (([LT] ++ (images_prefix ++ U) ++ [GT]) ++ s) in Hit
        by now rewrite <- !app_assoc.
      assert (Hne : ([LT] ++ (images_prefix ++ U) ++ [GT]) <> [])
        by (intro E; discriminate E).
      rewrite (sub_hit _ _ _ _ _ Hne Hit).
      cbn [expand IMAGES_TEMPLATE flat_map group Nat.eqb].
      now rewrite <- !app_assoc.
    + unfold images_step. rewrite <- !app_assoc. cbn [app].
      rewrite sub_skip.
      * f_equal. fold (images_step (u ++ GT :: s)). fold (images_step s).
        change (u ++ GT :: s) with (u ++ [GT] ++ s).
        change (u ++ GT :: images_step s) with (u ++ [GT] ++ images_step s).
        rewrite !app_assoc. apply (images_step_skip (u ++ [GT]) s).
        unfold no_lt. rewrite forallb_app. apply andb_true_intro. split; [|reflexivity].
        rewrite forallb_forall in *. intros a Ha.
        apply H, url_char_spec in Ha. destruct Ha as (Ha & _).
        now apply negb_true_iff, N.eqb_neq.
      * apply images_miss_prefix.
        rewrite starts_with_before; [exact P|].
        unfold images_prefix. intros Hin. vm_compute in Hin.
        repeat (destruct Hin as [Hin|Hin]; [discriminate Hin|]). exact Hin.
Qed.

(** ** The title line *)

Lemma exec_ones items : forall s c k,
  exec (ones items) s c k =
  if match_items items s then k (skipn (List.length items) s) c else None.
Proof.
  induction items as [|p items IH]; intros s c k; [reflexivity|].
  unfold ones in *. cbn [map seq fold_right exec].
  destruct s as [|a s]; [reflexivity|].
  cbn [match_items skipn List.length].
  destruct (p a); [apply IH | reflexivity].
Qed.

(** The pattern as the matcher runs it: fixed items, the two greedy
    groups, and the lazy run of newlines before the title. *)
Lemma exec_TITLE_REGEX s c k :
  exec TITLE_REGEX s c k =
  exec (ones head_items) s c (fun s1 c1 =>
    exec (star (One ANY)) s1 c1 (fun s2 c2 =>
      exec (ones banner_items) s2
        ((1, firstn (List.length s1 - List.length s2) s1) :: c2)
        (title_rest k))).
Proof. reflexivity. Qed.

Lemma proper_tails_spec : forall y y1 y2,
  y = y1 ++ y2 -> y1 <> [] -> In y2 (proper_tails y).
Proof.
  induction y as [|a y IH]; intros y1 y2 E Hne.
  - symmetry in E. apply app_eq_nil in E. destruct E; contradiction.
  - destruct y1 as [|b y1]; [contradiction|].
    cbn [app] in E. injection E as _ E.
    destruct y1 as [|b' y1].
    + left. now rewrite E.
    + right. apply (IH (b' :: y1) y2 E). discriminate.
Qed.

(** After the date, the banner cannot start anywhere later on its line
    when the line ends with it. *)
Lemma banner_miss y1 y2 x s :
  banner_tail = y1 ++ y2 -> y1 <> [] -> x = NEWLINE \/ x = STAR ->
  match_items banner_items (y2 ++ NEWLINE :: x :: s) = false.
Proof.
  intros E Hne Hx. pose proof (proper_tails_spec _ _ _ E Hne) as Hin.
  vm_compute in Hin.
  destruct Hx; subst x;
    repeat (destruct Hin as [Hin|Hin]; [subst y2; reflexivity|]);
    contradiction.
Qed.

Lemma match_items_skip : forall i1 i2 s,
  match_items (i1 ++ i2) s = true ->
  match_items i2 (skipn (List.length i1) s) = true.
Proof.
  induction i1 as [|p i1 IH]; intros i2 s H; [exact H|].
  destruct s as [|a s]; [discriminate H|].
  cbn [app match_items] in H. apply andb_prop in H. destruct H as [_ H].
  cbn [List.length skipn]. now apply IH.
Qed.

Lemma match_items_literals : forall l items s,
  match_items (map LITERAL l ++ items) s = true -> starts_with l s = true.
Proof.
  induction l as [|a l IH]; intros items s H; [reflexivity|].
  destruct s as [|b s]; [discriminate H|].
  cbn [map app match_items] in H. apply andb_prop in H. destruct H as [Hab H].
  cbn [starts_with]. unfold LITERAL in Hab. rewrite Hab. now apply (IH items).
Qed.

(** Where the banner matches, the word of its fourth item stands. *)
Lemma banner_has_Daily s :
  match_items banner_items s = true ->
  starts_with (py "Daily") (skipn 3 s) = true.
Proof.
  intros H.
  change banner_items
    with ([CATEGORY_SPACE; LITERAL HYPHEN; CATEGORY_SPACE]
            ++ (map LITERAL (py "Daily")
                  ++ [CATEGORY_SPACE] ++ map LITERAL (py "Programmer")
                  ++ [CATEGORY_SPACE] ++ map LITERAL (py "===*"))) in H.
  apply match_items_skip in H. now apply match_items_literals in H.
Qed.

Lemma occurs_skipn p : forall m s,
  starts_with p (skipn m s) = true -> occurs p s = true.
Proof.
  induction m as [|m IH]; intros s H.
  - cbn [skipn] in H. destruct s; cbn [occurs]; now rewrite H.
  - destruct s as [|a s].
    + cbn [skipn] in H. cbn [occurs]. now rewrite H.
    + cbn [skipn] in H. cbn [occurs]. rewrite (IH s H). apply orb_true_r.
Qed.

(** With the title on the banner line, the banner cannot start later on
    that line either, unless the word comes again. *)
Lemma banner_miss_same_line T r1 r2 y1 y2 :
  occurs (py "Daily") (T ++ py "]*" ++ r1 ++ r2) = false ->
  banner_tail ++ py "*[" ++ T ++ py "]*" ++ r1 = y1 ++ y2 -> y1 <> [] ->
  match_items banner_items (y2 ++ r2) = false.
Proof.
  intros Hocc E Hne.
  destruct (match_items banner_items (y2 ++ r2)) eqn:M; [exfalso | reflexivity].
  apply banner_has_Daily in M.
  assert (W : banner_tail ++ py "*[" ++ T ++ py "]*" ++ r1 ++ r2
              = y1 ++ y2 ++ r2).
  { rewrite (app_assoc y1), <- E. now rewrite <- !app_assoc. }
  assert (S3 : skipn 3 (y2 ++ r2)
               = skipn (3 + List.length y1)
                   (banner_tail ++ py "*[" ++ T ++ py "]*" ++ r1 ++ r2)).
  { rewrite W. clear. induction y1 as [|b y1 IH]; [reflexivity | exact IH]. }
  rewrite S3 in M. clear S3 W E.
  destruct y1 as [|b y1]; [contradiction|].
  cbn [List.length] in M.
  remember (List.length y1) as n eqn:En. clear En Hne b y1 y2.
  change (3 + S n) with (S (S (S (S n)))) in M.
  change (banner_tail ++ py "*[" ++ T ++ py "]*" ++ r1 ++ r2)
    with (py " - D" ++ py "aily Programmer ===**[" ++ T ++ py "]*" ++ r1 ++ r2) in M.
  cbn [py list_ascii_of_string map app skipn] in M.
  do 22 (destruct n as [|n]; [discriminate M|]; cbn [skipn] in M).
  apply occurs_skipn in M.
  exact (Bool.diff_true_false (eq_trans (eq_sym M) Hocc)).
Qed.

Lemma forallb_repeat (p : char -> bool) a n :
  p a = true -> forallb p (repeat a n) = true.
Proof. intros H. induction n; simpl; [reflexivity | now rewrite H]. Qed.

Lemma repeat_tail_head (a : char) n : forall x1 x2,
  repeat a n = x1 ++ x2 -> x2 <> [] -> exists x2', x2 = a :: x2'.
Proof.
  intros x1 x2 E Hne. destruct x2 as [|b x2]; [contradiction|].
  exists x2. f_equal. apply (repeat_spec n a b).
  rewrite E. apply in_or_app. right. now left.
Qed.

Lemma newlines_then_title k s :
  exists x s', repeat NEWLINE (S k) ++ py "*[" ++ s = NEWLINE :: x :: s'
               /\ (x = NEWLINE \/ x = STAR).
Proof.
  destruct k as [|k].
  - exists STAR, (91%N :: s). split; [reflexivity | now right].
  - exists NEWLINE, (repeat NEWLINE k ++ py "*[" ++ s). split; [reflexivity | now left].
Qed.

Lemma title_line_end_spec r1 :
  forallb title_line_end r1 = true ->
  forallb ANY r1 = true /\
  forallb (fun a => negb (N.eqb a RBRACKET)) r1 = true.
Proof.
  intros Hr1. rewrite !forallb_forall in *. split; intros a Ha;
    specialize (Hr1 a Ha); unfold title_line_end in Hr1;
    apply andb_prop in Hr1; tauto.
Qed.

(** After the banner: the newlines, taken one by one until the title
    opens, and the title, given back from the end of its line to its
    last closing bracket. *)
Lemma title_rest_hit text T k r1 r2 c :
  forallb ANY T = true -> forallb title_line_end r1 = true -> stops ANY r2 ->
  title_rest (toplevel false text)
    (repeat NEWLINE k ++ py "*[" ++ T ++ py "]*" ++ r1 ++ r2) c
  = Some (r1 ++ r2, (2, T) :: c).
Proof.
  intros HT Hr1 Hr2. unfold title_rest.
  destruct (title_line_end_spec r1 Hr1) as [Hany Hnb].
  rewrite exec_lazy_star_One.
  rewrite lazy_scan_skip.
  - apply lazy_scan_done. rewrite exec_lits_app, exec_star_One.
    replace (T ++ py "]*" ++ r1 ++ r2) with (T ++ (py "]*" ++ r1) ++ r2)
      by now rewrite <- app_assoc.
    apply greedy_scan_backtrack.
    + exact HT.
    + cbn [app forallb py]. exact Hany.
    + exact Hr2.
    + intros y1 y2 E Hne. rewrite exec_lits.
      destruct y1 as [|b y1]; [contradiction|].
      cbn in E. injection E as _ E.
      assert (Hy2 : forallb (fun a => negb (N.eqb a RBRACKET)) y2 = true).
      { assert (H : forallb (fun a => negb (N.eqb a RBRACKET)) (y1 ++ y2) = true)
          by (rewrite <- E; cbn [forallb]; exact Hnb).
        rewrite forallb_app in H. now apply andb_prop in H. }
      destruct y2 as [|a y2]; cbn [app].
      * destruct r2 as [|a r2]; [reflexivity|].
        cbn in Hr2. unfold ANY, NOT_LITERAL in Hr2.
        apply negb_false_iff, N.eqb_eq in Hr2. subst a. reflexivity.
      * cbn [forallb] in Hy2. apply andb_prop in Hy2. destruct Hy2 as [Ha _].
        apply negb_true_iff in Ha. change (py "]*") with [RBRACKET; STAR].
        cbn [starts_with]. now rewrite N.eqb_sym, Ha.
    + rewrite <- app_assoc. rewrite exec_lits_app.
      replace (T ++ py "]*" ++ r1 ++ r2) with (T ++ (py "]*" ++ r1 ++ r2)) by reflexivity.
      rewrite firstn_matched. reflexivity.
  - apply forallb_repeat. unfold LITERAL. apply N.eqb_refl.
  - intros x1 x2 E Hne.
    destruct (repeat_tail_head NEWLINE k x1 x2 E Hne) as [x2' ->].
    rewrite exec_lits. reflexivity.
Qed.

Lemma banner_then s c k :
  exec (ones banner_items) (banner_tail ++ s) c k = k s c.
Proof. rewrite exec_ones. reflexivity. Qed.

Lemma title_hit D T k r1 r2 :
  forallb ANY D = true -> forallb ANY T = true ->
  forallb title_line_end r1 = true -> stops ANY r2 ->
  same_line_ok k T r1 r2 ->
  exec TITLE_REGEX
    (banner_head ++ D ++ banner_tail ++ repeat NEWLINE k
       ++ py "*[" ++ T ++ py "]*" ++ r1 ++ r2) []
    (toplevel false
       (banner_head ++ D ++ banner_tail ++ repeat NEWLINE k
          ++ py "*[" ++ T ++ py "]*" ++ r1 ++ r2))
  = Some (r1 ++ r2, [(2, T); (1, D)]).
Proof.
  intros HD HT Hr1 Hr2 Hk.
  set (text := banner_head ++ _).
  rewrite exec_TITLE_REGEX, exec_ones.
  change (match_items head_items text) with true.
  change (skipn (List.length head_items) text)
    with (D ++ banner_tail ++ repeat NEWLINE k
            ++ py "*[" ++ T ++ py "]*" ++ r1 ++ r2).
  cbv iota. rewrite exec_star_One.
  destruct k as [|k].
  - (* the title is on the banner line *)
    cbn [repeat app].
    replace (D ++ banner_tail ++ py "*[" ++ T ++ py "]*" ++ r1 ++ r2)
      with (D ++ (banner_tail ++ py "*[" ++ T ++ py "]*" ++ r1) ++ r2)
      by now rewrite <- !app_assoc.
    destruct (title_line_end_spec r1 Hr1) as [Hany _].
    apply greedy_scan_backtrack.
    + exact HD.
    + rewrite !forallb_app, HT, Hany. reflexivity.
    + exact Hr2.
    + intros y1 y2 E Hne. rewrite exec_ones.
      rewrite (banner_miss_same_line T r1 r2 y1 y2 (Hk eq_refl) E Hne).
      reflexivity.
    + rewrite <- !app_assoc. rewrite banner_then.
      replace (D ++ banner_tail ++ py "*[" ++ T ++ py "]*" ++ r1 ++ r2)
        with (D ++ (banner_tail ++ py "*[" ++ T ++ py "]*" ++ r1 ++ r2))
        by reflexivity.
      rewrite firstn_matched.
      apply (title_rest_hit text T 0 r1 r2); assumption.
  - apply greedy_scan_backtrack.
    + exact HD.
    + reflexivity.
    + reflexivity.
    + intros y1 y2 E Hne. rewrite exec_ones.
      destruct (newlines_then_title k (T ++ py "]*" ++ r1 ++ r2))
        as (x & s' & Es & Hx).
      rewrite Es.
      rewrite (banner_miss y1 y2 x s' E Hne Hx). reflexivity.
    + rewrite banner_then. rewrite firstn_matched.
      apply (title_rest_hit text T (S k) r1 r2); assumption.
Qed.

Lemma title_sub_banner D T k r1 r2 :
  forallb ANY D = true -> forallb ANY T = true ->
  forallb title_line_end r1 = true -> stops ANY r2 ->
  same_line_ok k T r1 r2 ->
  sub TITLE_REGEX TITLE_TEMPLATE
    (banner_head ++ D ++ banner_tail ++ repeat NEWLINE k
       ++ py "*[" ++ T ++ py "]*" ++ r1 ++ r2)
  = T ++ py " -- " ++ D ++ sub TITLE_REGEX TITLE_TEMPLATE (r1 ++ r2).
Proof.
  intros HD HT Hr1 Hr2 Hk.
  pose proof (title_hit D T k r1 r2 HD HT Hr1 Hr2 Hk) as H.
  replace (banner_head ++ D ++ banner_tail ++ repeat NEWLINE k
             ++ py "*[" ++ T ++ py "]*" ++ r1 ++ r2)
    with ((banner_head ++ D ++ banner_tail ++ repeat NEWLINE k
             ++ py "*[" ++ T ++ py "]*") ++ r1 ++ r2) in *
    by now rewrite <- !app_assoc.
  assert (Hne : banner_head ++ D ++ banner_tail ++ repeat NEWLINE k
                  ++ py "*[" ++ T ++ py "]*" <> [])
    by (intro E; discriminate E).
  rewrite (sub_hit _ _ _ _ _ Hne H).
  cbn [expand TITLE_TEMPLATE flat_map group Nat.eqb].
  now rewrite <- !app_assoc.
Qed.

(** ** The challenge banner *)

Lemma ok_lits l s c k :
  is_some (exec (lits l) s c k) = true <->
  exists s', s = l ++ s' /\ is_some (k s' c) = true.
Proof.
  rewrite exec_lits. split.
  - destruct (starts_with l s) eqn:E; [|discriminate].
    intros H. exists (skipn (List.length l) s). split; [|exact H].
    now apply starts_with_split.
  - intros (s' & -> & H). rewrite starts_with_app.
    rewrite skipn_app, Nat.sub_diag, skipn_all. exact H.
Qed.

Lemma ok_opt_lit a s c k :
  is_some (exec (opt (lits [a])) s c k) = true <->
  is_some (k s c) = true \/ exists s', s = a :: s' /\ is_some (k s' c) = true.
Proof.
  rewrite exec_opt_lit. split.
  - destruct s as [|b s]; [now left|].
    destruct (N.eqb a b) eqn:E; [|now left].
    apply N.eqb_eq in E. subst b.
    destruct (k s c) eqn:K; [|now left].
    intros _. right. exists s. now rewrite K.
  - intros [H|(s' & -> & H)].
    + destruct s as [|b s]; [exact H|].
      destruct (N.eqb a b); [|exact H].
      destruct (k s c); [reflexivity | exact H].
    + rewrite N.eqb_refl. destruct (k s' c); [reflexivity | discriminate].
Qed.

Lemma ok_greedy_scan p c k : forall s,
  is_some (greedy_scan p s c k) = true <->
  exists x s', s = x ++ s' /\ forallb p x = true /\ is_some (k s' c) = true.
Proof.
  induction s as [|a s IH].
  - cbn [greedy_scan]. split.
    + intros H. exists [], []. auto.
    + intros (x & s' & E & _ & H). symmetry in E. apply app_eq_nil in E.
      destruct E; subst. exact H.
  - cbn [greedy_scan]. split.
    + destruct (p a) eqn:Pa.
      * destruct (greedy_scan p s c k) eqn:G.
        -- intros _. destruct IH as [IH _].
           destruct (IH eq_refl) as (x & s' & -> & Hx & H).
           exists (a :: x), s'. cbn [forallb app]. rewrite Pa. auto.
        -- intros H. exists [], (a :: s). auto.
      * intros H. exists [], (a :: s). auto.
    + intros (x & s' & E & Hx & H). destruct x as [|b x].
      * cbn [app] in E. subst s'.
        destruct (p a); [|exact H].
        destruct (greedy_scan p s c k); [reflexivity | exact H].
      * cbn [app] in E. injection E as <- ->.
        cbn [forallb] in Hx. apply andb_prop in Hx. destruct Hx as [Pa Hx].
        rewrite Pa.
        assert (G : is_some (greedy_scan p (x ++ s') c k) = true)
          by (apply IH; eauto).
        destruct (greedy_scan p (x ++ s') c k); [reflexivity | discriminate].
Qed.

Lemma ok_star p s c k :
  is_some (exec (star (One p)) s c k) = true <->
  exists x s', s = x ++ s' /\ forallb p x = true /\ is_some (k s' c) = true.
Proof. rewrite exec_star_One. apply ok_greedy_scan. Qed.

Lemma ok_plus p s c k :
  is_some (exec (plus (One p)) s c k) = true <->
  exists x s', s = x ++ s' /\ (x <> [] /\ forallb p x = true)
               /\ is_some (k s' c) = true.
Proof.
  rewrite exec_plus_One. split.
  - destruct s as [|a s]; [discriminate|].
    destruct (p a) eqn:Pa; [|discriminate].
    intros H. apply ok_greedy_scan in H. destruct H as (x & s' & -> & Hx & H).
    exists (a :: x), s'. cbn [forallb app]. rewrite Pa.
    repeat split; auto. discriminate.
  - intros (x & s' & -> & (Hne & Hx) & H).
    destruct x as [|a x]; [contradiction|].
    cbn [forallb] in Hx. apply andb_prop in Hx. destruct Hx as [Pa Hx].
    cbn [app]. rewrite Pa. apply ok_greedy_scan. eauto.
Qed.

Lemma search_is_some r : forall s,
  is_some (search r false s) = true <->
  exists pre s', s = pre ++ s' /\
                 is_some (exec r s' [] (toplevel false s')) = true.
Proof.
  induction s as [|a s IH]; cbn [search].
  - split.
    + intros H. exists [], []. split; [reflexivity|].
      destruct (exec r [] [] (toplevel false [])) as [[? ?]|]; [reflexivity | discriminate].
    + intros (pre & s' & E & H). symmetry in E. apply app_eq_nil in E.
      destruct E; subst.
      destruct (exec r [] [] (toplevel false [])) as [[? ?]|]; [reflexivity | discriminate].
  - split.
    + destruct (exec r (a :: s) [] (toplevel false (a :: s))) as [[? ?]|] eqn:E.
      * intros _. exists [], (a :: s). now rewrite E.
      * intros H.
        assert (H' : is_some (search r false s) = true)
          by (destruct (search r false s); [reflexivity | discriminate]).
        apply IH in H'. destruct H' as (pre & s' & -> & H').
        exists (a :: pre), s'. auto.
    + intros (pre & s' & E & H). destruct pre as [|b pre].
      * cbn [app] in E. subst s'.
        destruct (exec r (a :: s) [] (toplevel false (a :: s))) as [[? ?]|];
          [reflexivity | discriminate].
      * cbn [app] in E. injection E as <- ->.
        destruct (exec r (a :: pre ++ s') [] (toplevel false (a :: pre ++ s')))
          as [[? ?]|]; [reflexivity|].
        assert (H' : is_some (search r false (pre ++ s')) = true)
          by (apply IH; eauto).
        destruct (search r false (pre ++ s')); [reflexivity | discriminate].
Qed.

Lemma ok_opt a s c k :
  is_some (exec (opt (lits [a])) s c k) = true <->
  exists e s', s = e ++ s' /\ optional a e /\ is_some (k s' c) = true.
Proof.
  rewrite ok_opt_lit. split.
  - intros [H|(s' & -> & H)].
    + exists [], s. split; [reflexivity|]. split; [now left | exact H].
    + exists [a], s'. split; [reflexivity|]. split; [now right | exact H].
  - intros (e & s' & -> & [->| ->] & H);
      [now left | right; exists s'; split; [reflexivity | exact H]].
Qed.

(** The pattern succeeds at the head of a text exactly when the text
    begins with a banner. *)
Lemma challenge_exec_iff s c (k : cont) :
  (forall s' c', is_some (k s' c') = true) ->
  is_some (exec CHALLENGE_REGEX s c k) = true <->
  exists b rest, s = b ++ rest /\ challenge_banner b.
Proof.
  intros Hk. unfold CHALLENGE_REGEX, seq. cbn [fold_right exec].
  change (lit "==") with (lits (py "==")).
  change (lit "=") with (lits [EQUALS]).
  change (lit "-") with (lits [HYPHEN]).
  split.
  - intros H.
    apply ok_lits in H. destruct H as (s1 & -> & H).
    apply ok_opt in H. destruct H as (e1 & s2 & -> & He1 & H).
    apply ok_plus in H. destruct H as (ws1 & s3 & -> & Hws1 & H).
    apply ok_plus in H. destruct H as (w & s4 & -> & Hw & H).
    apply ok_opt in H. destruct H as (hy & s5 & -> & Hhy & H).
    apply ok_star in H. destruct H as (q & s6 & -> & Hq & H).
    apply ok_plus in H. destruct H as (ws2 & s7 & -> & Hws2 & H).
    apply ok_opt in H. destruct H as (e2 & s8 & -> & He2 & H).
    apply ok_lits in H. destruct H as (rest & -> & _).
    exists (py "==" ++ e1 ++ ws1 ++ w ++ hy ++ q ++ ws2 ++ e2 ++ py "=="), rest.
    split; [now rewrite <- !app_assoc|].
    exists e1, ws1, w, hy, q, ws2, e2. repeat split; tauto.
  - intros (b & rest & -> & B).
    destruct B as (e1 & ws1 & w & hy & q & ws2 & e2 & -> & He1 & Hws1 & Hw
                   & Hhy & Hq & Hws2 & He2).
    rewrite <- !app_assoc.
    apply ok_lits. eexists. split; [reflexivity|].
    apply ok_opt. exists e1. eexists. split; [reflexivity|]. split; [exact He1|].
    apply ok_plus. exists ws1. eexists. split; [reflexivity|]. split; [exact Hws1|].
    apply ok_plus. exists w. eexists. split; [reflexivity|]. split; [exact Hw|].
    apply ok_opt. exists hy. eexists. split; [reflexivity|]. split; [exact Hhy|].
    apply ok_star. exists q. eexists. split; [reflexivity|]. split; [exact Hq|].
    apply ok_plus. exists ws2. eexists. split; [reflexivity|]. split; [exact Hws2|].
    apply ok_opt. exists e2. eexists. split; [reflexivity|]. split; [exact He2|].
    apply ok_lits. eexists. split; [reflexivity|]. apply Hk.
Qed.

Lemma toplevel_false_ok s s' c' : is_some (toplevel false s s' c') = true.
Proof. reflexivity. Qed.

(** [CHALLENGE_REGEX.search(text)] finds a match exactly when the text
    contains a banner. *)
Lemma challenge_search_iff text :
  is_some (search CHALLENGE_REGEX false text) = true <->
  contains challenge_banner text.
Proof.
  rewrite search_is_some. split.
  - intros (pre & s' & -> & H).
    apply challenge_exec_iff in H; [|apply toplevel_false_ok].
    destruct H as (b & rest & -> & B). exists pre, b, rest. auto.
  - intros (pre & b & post & -> & B). exists pre, (b ++ post). split; [reflexivity|].
    apply challenge_exec_iff; [apply toplevel_false_ok | eauto].
Qed.

(** ** The transformer as a function of the text *)

Lemma format_messages_eq message w :
  format_messages message w =
  (if is_challenge message then Ok (document message)
   else Raise (not_a_challenge message), w).
Proof.
  unfold format_messages, is_challenge, document, transform, not_a_challenge.
  destruct (get_text message) as [text|]; [|reflexivity].
  destruct (is_some (search CHALLENGE_REGEX false text)); reflexivity.
Qed.

(** ** The aggregator *)

Lemma history_loop_eq : forall msgs acc w,
  history_loop msgs acc w =
  (Ok (acc ++ join_with_trailing challenges_separator
                (map document (filter is_challenge msgs))), w).
Proof.
  induction msgs as [|m msgs IH]; intros acc w.
  - cbn. now rewrite app_nil_r.
  - cbn [history_loop]. unfold bind at 1, try_except, bind at 1.
    rewrite format_messages_eq. cbn [filter].
    destruct (is_challenge m).
    + unfold ret at 1. rewrite IH. cbn [map join_with_trailing List.concat].
      unfold join_with_trailing. now rewrite <- !app_assoc.
    + unfold not_a_challenge, ret at 1. apply IH.
Qed.

Lemma parse_channel_history_eq ch w :
  parse_channel_history ch w =
  match history_blob (messages ch) with
  | [] => (Ok tt, printed ["Parsing and formating history..."; "Done..."] w)
  | blob =>
      write_history_to_file blob (py "w")
        (printed ["Parsing and formating history..."; "Done..."] w)
  end.
Proof.
  unfold parse_channel_history, bind at 1, print at 1, emit.
  unfold bind at 1. rewrite history_loop_eq. cbn [app].
  fold (documents (messages ch)). fold (history_blob (messages ch)).
  unfold bind at 1, print at 1, emit. cbn [REPO_URL output_dir trace].
  unfold printed. cbn [map]. rewrite <- app_assoc. cbn [app].
  destruct (history_blob (messages ch)); reflexivity.
Qed.

Lemma transform_nonempty text : transform text <> [].
Proof.
  unfold transform, title_step.
  change (py "## ") with ([35%N; 35%N] ++ [32%N]).
  rewrite <- !app_assoc.
  rewrite code_blocs_step_skip by reflexivity.
  rewrite images_step_skip by reflexivity. discriminate.
Qed.

Lemma history_blob_nil msgs :
  history_blob msgs = [] <-> filter is_challenge msgs = [].
Proof.
  unfold history_blob, documents, join_with_trailing. split.
  - intros H.
    destruct (filter is_challenge (rev msgs)) as [|m l] eqn:E.
    + destruct (filter is_challenge msgs) as [|m' l'] eqn:E'; [reflexivity|].
      assert (Hin : In m' (filter is_challenge (rev msgs))).
      { apply filter_In. assert (Hm : In m' (filter is_challenge msgs)) by (rewrite E'; now left).
        apply filter_In in Hm. destruct Hm as [Hm Hc]. split; [|exact Hc].
        now apply in_rev in Hm. }
      rewrite E in Hin. destruct Hin.
    + cbn in H. apply app_eq_nil in H. destruct H as [H _].
      apply app_eq_nil in H. destruct H as [H _].
      assert (Hm : In m (filter is_challenge (rev msgs))) by (rewrite E; now left).
      apply filter_In in Hm. destruct Hm as [_ Hc].
      unfold document, is_challenge in *.
      destruct (get_text m); [|discriminate].
      now apply transform_nonempty in H.
  - intros H.
    assert (E : filter is_challenge (rev msgs) = []).
    { destruct (filter is_challenge (rev msgs)) as [|m l] eqn:E; [reflexivity|].
      assert (Hm : In m (filter is_challenge (rev msgs))) by (rewrite E; now left).
      apply filter_In in Hm. destruct Hm as [Hm Hc]. apply in_rev in Hm.
      assert (Hin : In m (filter is_challenge msgs)) by (apply filter_In; auto).
      rewrite H in Hin. destruct Hin. }
    now rewrite E.
Qed.

(** ** The writer and the publisher *)

(** Decide the comparisons of a known mode with 'a' and 'w'. *)
Ltac decide_modes :=
  repeat (match goal with
          | |- context [str_eq_dec ?a ?b] =>
              let E := fresh in
              destruct (str_eq_dec a b) as [E|E];
              [try discriminate E | try (exfalso; apply E; reflexivity)]
          end).

(** Run [write_history_to_file] up to the call of the publisher. *)
Ltac run_writer :=
  cbv [write_history_to_file bind print emit os_path_isdir os_mkdir
       get_output_dir set_output_dir ret raise open_writelines
       REPO_URL output_dir trace negb orb];
  unfold is_mode; decide_modes; cbv iota beta.

Lemma publish_challenges_Directory url f git t :
  publish_challenges (mkWorld url (Directory f git) t) =
  (Ok tt, mkWorld url (Directory f true) (t ++ publish_events git url)).
Proof.
  destruct git; cbv [publish_challenges bind print emit get_output_dir
                     set_output_dir get_REPO_URL REPO_URL output_dir trace
                     publish_events];
    rewrite <- !app_assoc; reflexivity.
Qed.

Lemma write_history_to_file_invalid data mode w :
  ~ valid_mode mode ->
  write_history_to_file data mode w =
  (Raise (FileOpeningModeException "Given mode isn't 'a' or 'w'!"),
   printed ["Writing history to file..."] w).
Proof.
  intros H. unfold write_history_to_file, bind at 1, print at 1, emit.
  unfold is_mode.
  destruct (str_eq_dec mode (py "a")) as [E|_]; [exfalso; apply H; now left|].
  destruct (str_eq_dec mode (py "w")) as [E|_]; [exfalso; apply H; now right|].
  reflexivity.
Qed.

Lemma write_history_to_file_Directory data mode url old git t :
  valid_mode mode ->
  write_history_to_file data mode (mkWorld url (Directory old git) t) =
  publish_challenges
    (mkWorld url (Directory (Some (written mode data old)) git)
       (t ++ [Print "Writing history to file..."] ++ write_events mode data)).
Proof.
  intros [-> | ->];
    run_writer; unfold written, is_mode; decide_modes;
    rewrite <- !app_assoc; reflexivity.
Qed.

Lemma write_history_to_file_Missing data mode url t :
  valid_mode mode ->
  write_history_to_file data mode (mkWorld url Missing t) =
  publish_challenges
    (mkWorld url (Directory (Some (written mode data None)) false)
       (t ++ [Print "Writing history to file..."; Mkdir directory]
          ++ write_events mode data)).
Proof.
  intros [-> | ->];
    run_writer; unfold written, is_mode; decide_modes;
    rewrite <- !app_assoc; reflexivity.
Qed.

Lemma write_history_to_file_NotADirectory data mode url t :
  valid_mode mode ->
  write_history_to_file data mode (mkWorld url NotADirectory t) =
  (Raise (OSError "FileExistsError"),
   mkWorld url NotADirectory (t ++ [Print "Writing history to file..."])).
Proof.
  intros [-> | ->];
    run_writer; reflexivity.
Qed.

Lemma publish_runs_app t1 t2 :
  publish_runs (t1 ++ t2) = publish_runs t1 + publish_runs t2.
Proof. unfold publish_runs. now rewrite filter_app, length_app. Qed.

Lemma publish_runs_publish_events git url :
  publish_runs (publish_events git url) = 1.
Proof. destruct git; reflexivity. Qed.

Lemma is_challenge_iff message :
  is_challenge message = true <->
  exists text, get_text message = Some text /\ contains challenge_banner text.
Proof.
  unfold is_challenge. destruct (get_text message) as [text|].
  - rewrite challenge_search_iff. split.
    + intros H. exists text. auto.
    + intros (t & E & H). now injection E as ->.
  - split; [discriminate | intros (t & E & _); discriminate].
Qed.

Lemma is_challenge_false message :
  is_challenge message = false <->
  (forall text, get_text message = Some text -> ~ contains challenge_banner text).
Proof.
  split.
  - intros H text E C.
    assert (T : is_challenge message = true) by (apply is_challenge_iff; eauto).
    congruence.
  - intros H. destruct (is_challenge message) eqn:E; [|reflexivity].
    apply is_challenge_iff in E. destruct E as (text & E & C).
    exfalso. exact (H text E C).
Qed.

Lemma history_blob_skip before message after :
  is_challenge message = false ->
  history_blob (before ++ message :: after) = history_blob (before ++ after).
Proof.
  intros H. unfold history_blob, documents.
  rewrite !rev_app_distr. cbn [rev]. rewrite !filter_app. cbn [filter].
  rewrite H. now rewrite app_nil_r.
Qed.

Lemma plain_char_spec x :
  forallb plain_char x = true ->
  forallb ANY x = true /\ no_backtick x = true /\ no_lt x = true.
Proof.
  intros H. unfold no_backtick, no_lt. rewrite !forallb_forall in *.
  repeat split; intros a Ha; specialize (H a Ha); unfold plain_char in H;
    apply andb_prop in H; destruct H as [H H3];
    apply andb_prop in H; destruct H as [H1 H2]; try assumption.
  unfold NOT_LITERAL. now rewrite N.eqb_sym.
Qed.

(** A banner line whose date is made of word characters and white space
    passes the guard of [format_messages]. *)
Lemma dated_banner_is_challenge message D rest :
  wordy D ->
  get_text message = Some (banner_head ++ D ++ banner_tail ++ rest) ->
  is_challenge message = true.
Proof.
  intros HD Htext. apply is_challenge_iff.
  exists (banner_head ++ D ++ banner_tail ++ rest). split; [exact Htext|].
  exists [STAR], (py "==" ++ [EQUALS] ++ [32%N] ++ (D ++ [32%N]) ++ [HYPHEN]
                    ++ py " Daily Programmer" ++ [32%N] ++ [EQUALS] ++ py "=="),
         (STAR :: rest).
  split.
  - change banner_head with ([STAR] ++ py "==" ++ [EQUALS] ++ [32%N]).
    change banner_tail
      with ([32%N] ++ [HYPHEN] ++ py " Daily Programmer" ++ [32%N]
              ++ [EQUALS] ++ py "==" ++ [STAR]).
    rewrite <- !app_assoc. reflexivity.
  - exists [EQUALS], [32%N], (D ++ [32%N]), [HYPHEN], (py " Daily Programmer"),
           [32%N], [EQUALS].
    split; [reflexivity|].
    split; [now right|]. split; [split; [discriminate | reflexivity]|].
    split.
    { split.
      - intros E. apply app_eq_nil in E. destruct E; discriminate.
      - unfold wordy in *. rewrite forallb_app, HD. reflexivity. }
    split; [now right|]. split; [reflexivity|].
    split; [split; [discriminate | reflexivity]|]. now right.
Qed.

Lemma printed_trace lines w : trace (printed lines w) = trace w ++ map Print lines.
Proof. reflexivity. Qed.

Lemma write_history_to_file_not_caught data mode w r w' :
  write_history_to_file data mode w = (r, w') ->
  match r with Raise (MessageTypeException _ _) => False | _ => True end.
Proof.
  intros H.
  assert (Hv : valid_mode mode \/ ~ valid_mode mode).
  { unfold valid_mode. destruct (str_eq_dec mode (py "a")); [tauto|].
    destruct (str_eq_dec mode (py "w")); tauto. }
  destruct Hv as [Hv|Hv].
  - destruct w as [url [| |old git] t].
    + rewrite write_history_to_file_Missing, publish_challenges_Directory in H
        by exact Hv. now injection H as <- _.
    + rewrite write_history_to_file_NotADirectory in H by exact Hv.
      now injection H as <- _.
    + rewrite write_history_to_file_Directory, publish_challenges_Directory in H
        by exact Hv. now injection H as <- _.
  - rewrite write_history_to_file_invalid in H by exact Hv.
    now injection H as <- _.
Qed.

(** ** The claims *)

(** C1 (corrected): when the text of an accepted message begins with
    the banner line [*=== <date> - Daily Programmer ===*], followed after
    any number of newlines by [*[<title>]*] with no further closing
    bracket on that line, and date and title hold no newline, backtick or
    opening angle bracket, the output is [## <title> -- <date>] followed
    by the transformed remainder of the message.  With no newline at all
    between banner and title, the remainder must not hold the word Daily
    again. *)
Theorem title_heading message w D T k r1 r2 :
  forallb plain_char D = true -> forallb plain_char T = true ->
  forallb title_line_end r1 = true -> stops ANY r2 ->
  same_line_ok k T r1 r2 ->
  get_text message =
    Some (banner_head ++ D ++ banner_tail ++ repeat NEWLINE k
            ++ py "*[" ++ T ++ py "]*" ++ r1 ++ r2) ->
  is_challenge message = true ->
  format_messages message w =
  (Ok (py "## " ++ T ++ py " -- " ++ D
         ++ images_step (code_blocs_step
                           (sub TITLE_REGEX TITLE_TEMPLATE (r1 ++ r2)))), w).
Proof.
  intros HD HT Hr1 Hr2 Hk Htext Hc.
  apply plain_char_spec in HD, HT.
  destruct HD as (HDa & HDb & HDl), HT as (HTa & HTb & HTl).
  rewrite format_messages_eq, Hc. unfold document. rewrite Htext.
  unfold transform, title_step.
  rewrite title_sub_banner by assumption.
  replace (py "## " ++ T ++ py " -- " ++ D ++ sub TITLE_REGEX TITLE_TEMPLATE (r1 ++ r2))
    with ((py "## " ++ T ++ py " -- " ++ D) ++ sub TITLE_REGEX TITLE_TEMPLATE (r1 ++ r2))
    by now rewrite <- !app_assoc.
  rewrite code_blocs_step_skip.
  - rewrite images_step_skip.
    + now rewrite <- !app_assoc.
    + unfold no_lt in *. rewrite !forallb_app.
      repeat (apply andb_true_intro; split); try assumption; reflexivity.
  - unfold no_backtick in *. rewrite !forallb_app.
    repeat (apply andb_true_intro; split); try assumption; reflexivity.
Qed.

(** C2 (corrected): [format_messages] raises [MessageTypeException],
    carrying the original message and leaving the world as it was,
    exactly when the text is absent or contains no banner of two or three
    equals signs, white space, words (with an optional hyphenated
    qualifier), white space and two or three equals signs; a text that
    contains one is transformed; and a rejected message in a batch changes
    nothing in what [parse_channel_history] does. *)
Theorem not_a_challenge_raised message w :
  (format_messages message w = (Raise (not_a_challenge message), w) <->
   (forall text, get_text message = Some text -> ~ contains challenge_banner text))
  /\ (forall text, get_text message = Some text ->
        contains challenge_banner text ->
        format_messages message w = (Ok (transform text), w))
  /\ (forall before after w0,
        (forall text, get_text message = Some text ->
                      ~ contains challenge_banner text) ->
        parse_channel_history {| messages := before ++ message :: after |} w0 =
        parse_channel_history {| messages := before ++ after |} w0).
Proof.
  split; [|split].
  - rewrite format_messages_eq, <- is_challenge_false.
    destruct (is_challenge message); split; intros H;
      try reflexivity; try discriminate.
  - intros text E C. rewrite format_messages_eq.
    assert (T : is_challenge message = true) by (apply is_challenge_iff; eauto).
    rewrite T. unfold document. now rewrite E.
  - intros before after w0 H. apply is_challenge_false in H.
    rewrite !parse_channel_history_eq. cbn [messages].
    now rewrite history_blob_skip.
Qed.

(** A separator after every document: the documents joined by the
    separator, and one more separator. *)
Lemma concat_joined sep docs :
  List.concat (map (fun d => d ++ sep) docs)
  = match docs with
    | [] => []
    | _ => joined sep docs ++ sep
    end.
Proof.
  induction docs as [|d docs IH]; [reflexivity|].
  cbn [map List.concat]. rewrite IH.
  destruct docs as [|d' docs].
  - cbn [joined]. now rewrite app_nil_r.
  - change (joined sep (d :: d' :: docs))
      with (d ++ sep ++ joined sep (d' :: docs)).
    now rewrite <- !app_assoc.
Qed.

(** C3: the loop of [parse_channel_history] returns the documents of
    the M matching messages of the batch, oldest first (the batch
    reversed), each followed by the separator of three newlines, three
    hyphens and three newlines: that is, when M is not zero, the documents
    joined by the separator with one more separator after the last.  Each
    document is what [format_messages] returns for its message, and the
    messages it rejects contribute nothing.  When M is not zero
    [parse_channel_history] hands exactly this text to the writer. *)
Theorem history_is_joined_documents ch w :
  history_loop (rev (messages ch)) [] w
  = (Ok (List.concat
           (map (fun d => d ++ separator_text)
              (map document (filter is_challenge (rev (messages ch)))))), w)
  /\ (forall m, In m (messages ch) ->
        format_messages m w
        = (if is_challenge m then Ok (document m)
           else Raise (not_a_challenge m), w))
  /\ List.length (map document (filter is_challenge (rev (messages ch))))
     = List.length (filter is_challenge (messages ch))
  /\ List.concat
       (map (fun d => d ++ separator_text)
          (map document (filter is_challenge (rev (messages ch)))))
     = match map document (filter is_challenge (rev (messages ch))) with
       | [] => []
       | docs => joined separator_text docs ++ separator_text
       end
  /\ parse_channel_history ch w =
     (if List.length (filter is_challenge (messages ch)) =? 0
      then (Ok tt, printed ["Parsing and formating history..."; "Done..."] w)
      else write_history_to_file
             (List.concat
                (map (fun d => d ++ separator_text)
                   (map document (filter is_challenge (rev (messages ch))))))
             (py "w")
             (printed ["Parsing and formating history..."; "Done..."] w)).
Proof.
  assert (Hsep : challenges_separator = separator_text) by reflexivity.
  assert (Hblob : history_blob (messages ch)
                  = List.concat
                      (map (fun d => d ++ separator_text)
                         (map document (filter is_challenge (rev (messages ch)))))).
  { unfold history_blob, documents, join_with_trailing. now rewrite Hsep. }
  split; [|split; [|split; [|split]]].
  - rewrite history_loop_eq. fold (documents (messages ch)).
    fold (history_blob (messages ch)). now rewrite Hblob.
  - intros m _. apply format_messages_eq.
  - rewrite length_map. generalize (messages ch). intros l.
    induction l as [|m l IH]; [reflexivity|].
    cbn [rev filter]. rewrite filter_app, length_app. cbn [filter].
    destruct (is_challenge m); cbn [List.length]; lia.
  - rewrite concat_joined.
    now destruct (map document (filter is_challenge (rev (messages ch)))).
  - rewrite <- Hblob. rewrite parse_channel_history_eq.
    destruct (history_blob (messages ch)) as [|a blob] eqn:E.
    + apply history_blob_nil in E. now rewrite E.
    + destruct (filter is_challenge (messages ch)) as [|m l] eqn:F; [|reflexivity].
      apply history_blob_nil in F. congruence.
Qed.

(** C4 (corrected): an inline block of three backticks, a body [X] free
    of backticks, and three backticks, met after a text free of backticks,
    comes out as the fence, a newline, [X], a newline and the fence; the
    step is not idempotent: run again on its own output it puts one more
    newline on each side of the body. *)
Theorem code_block_normalized pre X post :
  no_backtick pre = true -> no_backtick X = true ->
  code_blocs_step (pre ++ fence ++ X ++ fence ++ post)
  = pre ++ fence ++ nl ++ X ++ nl ++ fence ++ code_blocs_step post
  /\ code_blocs_step (fence ++ nl ++ X ++ nl ++ fence)
     = fence ++ nl ++ nl ++ X ++ nl ++ nl ++ fence.
Proof.
  intros Hpre HX. split.
  - rewrite code_blocs_step_skip by exact Hpre.
    now rewrite code_blocs_step_block by exact HX.
  - pose proof (code_blocs_step_block (nl ++ X ++ nl) []) as H.
    rewrite app_nil_r in H. rewrite <- !app_assoc in H.
    rewrite H.
    + change (code_blocs_step []) with (@nil char). now rewrite app_nil_r.
    + unfold no_backtick in *. rewrite !forallb_app, HX. reflexivity.
Qed.

(** C5 (corrected): in a text made of plain characters other than the
    opening angle bracket and of bracketed items [<u>] with no angle
    bracket and no newline inside [u], the image step rewrites every item
    whose [u] starts with [https://assets.leetcode.com/uploads/] to
    [![Illustration](u)] and a newline, and leaves every other item and
    every plain character as it is. *)
Theorem image_links_rewritten ps :
  forallb well_formed ps = true ->
  images_step (flat_map render ps) = flat_map rewritten ps.
Proof.
  induction ps as [|x ps IH]; intros H; [reflexivity|].
  cbn [forallb] in H. apply andb_prop in H. destruct H as [Hx H].
  cbn [flat_map]. rewrite images_step_piece by exact Hx.
  now rewrite IH.
Qed.

(** C6: with a mode other than 'a' and 'w' the writer raises
    [FileOpeningModeException] after its first progress line and nothing
    else: the output directory is as before, no directory is made, no file
    is opened or written, and the publisher has not run.  With a valid
    mode, and unless the path of the output directory is taken by
    something that is not a directory, the directory is made if it is
    missing, the file is written and closed, and what remains is one run
    of the publisher, from the world right after the write. *)
Theorem writer_checks_mode challenges mode w :
  (~ valid_mode mode ->
   exists w',
     write_history_to_file challenges mode w =
       (Raise (FileOpeningModeException "Given mode isn't 'a' or 'w'!"), w')
     /\ output_dir w' = output_dir w
     /\ trace w' = trace w ++ [Print "Writing history to file..."]
     /\ publish_runs (trace w') = publish_runs (trace w))
  /\ (valid_mode mode -> output_dir w <> NotADirectory ->
      exists w1 w',
        write_history_to_file challenges mode w = publish_challenges w1
        /\ trace w1 = trace w ++ [Print "Writing history to file..."]
                        ++ mkdir_events (output_dir w)
                        ++ write_events mode challenges
        /\ output_dir w1
           = Directory (Some (written mode challenges (index_of (output_dir w))))
               (is_git (output_dir w))
        /\ publish_challenges w1 = (Ok tt, w')
        /\ trace w' = trace w1 ++ publish_events (is_git (output_dir w)) (REPO_URL w)
        /\ publish_runs (trace w') = publish_runs (trace w) + 1).
Proof.
  split.
  - intros H. exists (printed ["Writing history to file..."] w).
    rewrite write_history_to_file_invalid by exact H.
    repeat split. rewrite printed_trace, publish_runs_app. cbn. lia.
  - intros Hm Hd. destruct w as [url dir t]. cbn [output_dir trace REPO_URL] in *.
    destruct dir as [| |old git]; [| contradiction |].
    + do 2 eexists.
      rewrite write_history_to_file_Missing by exact Hm.
      split; [reflexivity|]. split; [reflexivity|]. split; [reflexivity|].
      rewrite publish_challenges_Directory.
      split; [reflexivity|]. split; [reflexivity|].
      cbn [trace]. rewrite !publish_runs_app, publish_runs_publish_events.
      cbn. lia.
    + do 2 eexists.
      rewrite write_history_to_file_Directory by exact Hm.
      split; [reflexivity|]. split; [reflexivity|]. split; [reflexivity|].
      rewrite publish_challenges_Directory.
      split; [reflexivity|]. split; [reflexivity|].
      cbn [trace]. rewrite !publish_runs_app, publish_runs_publish_events.
      cbn. lia.
Qed.

(** C7: a batch in which no message matches leaves only the two progress
    lines of [parse_channel_history]: the writer is not called (its own
    first line is absent), the output directory is untouched and the
    publisher does not run. *)
Theorem empty_history_not_written ch w :
  (forall m, In m (messages ch) -> is_challenge m = false) ->
  history_blob (messages ch) = []
  /\ exists w',
       parse_channel_history ch w = (Ok tt, w')
       /\ output_dir w' = output_dir w
       /\ trace w' = trace w ++ [Print "Parsing and formating history...";
                                 Print "Done..."]
       /\ publish_runs (trace w') = publish_runs (trace w).
Proof.
  intros H.
  assert (E : history_blob (messages ch) = []).
  { apply history_blob_nil.
    induction (messages ch) as [|m l IH]; [reflexivity|].
    cbn [filter]. rewrite (H m) by now left.
    apply IH. intros m' Hm'. apply H. now right. }
  split; [exact E|].
  exists (printed ["Parsing and formating history..."; "Done..."] w).
  rewrite parse_channel_history_eq, E.
  repeat split. rewrite printed_trace, publish_runs_app. cbn. lia.
Qed.

(** C8: [parse_channel_history] writes its history in mode 'w' and the
    target file then holds the history alone, whatever it held before;
    [parse_message] writes the document in mode 'a' and the target file
    then holds its previous content followed by the document, with
    nothing added. *)
Theorem entry_points_write_modes :
  (forall ch w,
     history_blob (messages ch) <> [] ->
     parse_channel_history ch w =
     write_history_to_file (history_blob (messages ch)) (py "w")
       (printed ["Parsing and formating history..."; "Done..."] w))
  /\ (forall message w,
        is_challenge message = true ->
        parse_message message w =
        write_history_to_file (document message) (py "a") w)
  /\ (forall data url old git t,
        output_dir (snd (write_history_to_file data (py "w")
                           (mkWorld url (Directory old git) t)))
        = Directory (Some data) true)
  /\ (forall data url old git t,
        output_dir (snd (write_history_to_file data (py "a")
                           (mkWorld url (Directory (Some old) git) t)))
        = Directory (Some (old ++ data)) true).
Proof.
  split; [|split; [|split]].
  - intros ch w H. rewrite parse_channel_history_eq.
    destruct (history_blob (messages ch)); [contradiction | reflexivity].
  - intros message w H. unfold parse_message, try_except, bind at 1.
    rewrite format_messages_eq, H.
    destruct (write_history_to_file (document message) (py "a") w) as [r w'] eqn:E.
    apply write_history_to_file_not_caught in E.
    destruct r as [u|e]; [reflexivity|]. destruct e; try contradiction; reflexivity.
  - intros. rewrite write_history_to_file_Directory by now right.
    now rewrite publish_challenges_Directory.
  - intros. rewrite write_history_to_file_Directory by now left.
    now rewrite publish_challenges_Directory.
Qed.

(** C9: called with the empty string and a valid mode, the writer still
    creates a missing output directory, opens the target file, writes the
    empty content and runs the publisher; only [parse_channel_history]
    refrains from calling it for an empty history. *)
Theorem writer_accepts_empty_content mode url t :
  valid_mode mode ->
  write_history_to_file [] mode (mkWorld url Missing t) =
    (Ok tt,
     mkWorld url (Directory (Some []) true)
       (t ++ [Print "Writing history to file..."; Mkdir directory;
              Open target mode; Writelines []; Close; Print "Done..."]
          ++ publish_events false url))
  /\ (forall old git,
        write_history_to_file [] mode (mkWorld url (Directory old git) t) =
          (Ok tt,
           mkWorld url (Directory (Some (written mode [] old)) true)
             (t ++ [Print "Writing history to file...";
                    Open target mode; Writelines []; Close; Print "Done..."]
                ++ publish_events git url)))
  /\ parse_channel_history {| messages := [] |} (mkWorld url Missing t) =
       (Ok tt,
        mkWorld url Missing
          (t ++ [Print "Parsing and formating history..."; Print "Done..."])).
Proof.
  intros Hm. split; [|split].
  - rewrite write_history_to_file_Missing by exact Hm.
    rewrite publish_challenges_Directory.
    assert (E : written mode [] None = []) by (destruct Hm as [-> | ->]; reflexivity).
    rewrite E. unfold write_events. now rewrite <- !app_assoc.
  - intros old git. rewrite write_history_to_file_Directory by exact Hm.
    rewrite publish_challenges_Directory.
    unfold write_events. now rewrite <- !app_assoc.
  - now rewrite parse_channel_history_eq.
Qed.

(** C10: the outcome of [format_messages] is a function of the text of
    the message alone: two messages with the same text, in any two worlds,
    give the same document or are both rejected, and the world (helper
    configuration, output directory, trace) is returned as it was. *)
Theorem format_messages_reads_text_only m1 m2 w1 w2 :
  get_text m1 = get_text m2 ->
  snd (format_messages m1 w1) = w1 /\ snd (format_messages m2 w2) = w2 /\
  ((exists doc, fst (format_messages m1 w1) = Ok doc /\
                fst (format_messages m2 w2) = Ok doc) \/
   (fst (format_messages m1 w1) = Raise (not_a_challenge m1) /\
    fst (format_messages m2 w2) = Raise (not_a_challenge m2))).
Proof.
  intros H. rewrite !format_messages_eq. cbn [fst snd].
  repeat split.
  unfold is_challenge, document. rewrite <- H.
  destruct (get_text m1) as [text|]; [|now right].
  destruct (is_some (search CHALLENGE_REGEX false text)); [left | now right].
  now exists (transform text).
Qed.

(** ** Further properties of the transformer *)

(** *** Matches of a pattern in general *)

Lemma rep_min_keeps body lo : keeps_groups body -> keeps_groups (rep_min body lo).
Proof.
  intros Hb. induction lo as [|lo IH]; intros s c k a H; simpl in H.
  - exists s. split; [apply suffix_refl | exact H].
  - apply Hb in H. destruct H as (s1 & Hs1 & H).
    apply IH in H. destruct H as (s2 & Hs2 & H).
    exists s2. split; [eapply suffix_trans; eassumption | exact H].
Qed.

Lemma rep_more_keeps body greedy fuel :
  keeps_groups body -> forall hi, keeps_groups (rep_more body greedy hi fuel).
Proof.
  intros Hb. induction fuel as [|fuel IH]; intros hi s c k a H; simpl in H.
  - exists s. split; [apply suffix_refl | exact H].
  - assert (Hstop : k s c = Some a -> exists s1, suffix_of s1 s /\ k s1 c = Some a).
    { intros E. exists s. split; [apply suffix_refl | exact E]. }
    assert (Hmore : one_more body s c
                      (fun s1 c1 => rep_more body greedy (dec_bound hi) fuel s1 c1 k) = Some a ->
                    exists s1, suffix_of s1 s /\ k s1 c = Some a).
    { intros E. unfold one_more in E. apply Hb in E.
      destruct E as (s1 & Hs1 & E).
      destruct (List.length s1 <? List.length s); [|discriminate].
      apply IH in E. destruct E as (s2 & Hs2 & E).
      exists s2. split; [eapply suffix_trans; eassumption | exact E]. }
    destruct hi as [[|h]|]; auto; destruct greedy.
    + destruct (one_more _ _ _ _) eqn:E; [inversion H; subst; auto | auto].
    + destruct (k s c) eqn:E; [inversion H; subst; auto | auto].
    + destruct (one_more _ _ _ _) eqn:E; [inversion H; subst; auto | auto].
    + destruct (k s c) eqn:E; [inversion H; subst; auto | auto].
Qed.

Lemma exec_group_free r : group_free r = true -> keeps_groups (exec r).
Proof.
  induction r as [|p|r1 IH1 r2 IH2|g r IH|greedy lo hi r IH];
    intros G s c k a H; cbn [exec] in H; cbn [group_free] in G.
  - exists s. split; [apply suffix_refl | exact H].
  - destruct s as [|x s]; [discriminate|].
    destruct (p x); [|discriminate].
    exists s. split; [exists [x]; reflexivity | exact H].
  - apply andb_prop in G. destruct G as [G1 G2].
    apply (IH1 G1) in H. destruct H as (s1 & Hs1 & H).
    apply (IH2 G2) in H. destruct H as (s2 & Hs2 & H).
    exists s2. split; [eapply suffix_trans; eassumption | exact H].
  - discriminate G.
  - apply (rep_min_keeps (exec r) lo (IH G)) in H. destruct H as (s1 & Hs1 & H).
    apply (rep_more_keeps (exec r) greedy (S (List.length s1)) (IH G)) in H.
    destruct H as (s2 & Hs2 & H).
    exists s2. split; [eapply suffix_trans; eassumption | exact H].
Qed.

(** A match found by [search] is a match of the pattern at its place. *)
Lemma search_match r : forall s adv m,
  search r adv s = Some m ->
  exists adv',
    exec r (m_text m ++ m_rest m) [] (toplevel adv' (m_text m ++ m_rest m))
    = Some (m_rest m, m_groups m).
Proof.
  induction s as [|x s IH]; intros adv m H; cbn [search] in H.
  - destruct (exec r [] [] (toplevel adv [])) as [[s1 c1]|] eqn:E; [|discriminate].
    inversion H; subst; clear H. cbn [m_text m_rest m_groups].
    pose proof E as E'. apply exec_sound in E'. destruct E' as (s2 & c2 & Hs & E').
    unfold toplevel in E'.
    destruct (adv && (List.length s2 =? List.length (@nil char))); [discriminate|].
    inversion E'; subst s2 c2; clear E'.
    destruct Hs as [p Hp]. symmetry in Hp. apply app_eq_nil in Hp.
    destruct Hp as [_ ->]. exists adv. exact E.
  - destruct (exec r (x :: s) [] (toplevel adv (x :: s))) as [[s1 c1]|] eqn:E.
    + injection H as Hm. subst m. cbn [m_text m_rest m_groups].
      pose proof E as E'. apply exec_sound in E'. destruct E' as (s2 & c2 & Hs & E').
      unfold toplevel in E'.
      destruct (adv && (List.length s2 =? List.length (x :: s))); [discriminate|].
      injection E' as -> ->.
      change (firstn _ (x :: s))
        with (firstn (List.length (x :: s) - List.length s1) (x :: s)).
      rewrite (suffix_firstn _ _ Hs). exists adv. exact E.
    + destruct (search r false s) as [m'|] eqn:S'; [|discriminate].
      inversion H; subst; clear H. cbn [shift m_text m_rest m_groups].
      now apply IH in S'.
Qed.

(** No match at any place: [search] finds nothing. *)
Lemma search_none r : forall s,
  (forall s', suffix_of s' s -> exec r s' [] (toplevel false s') = None) ->
  search r false s = None.
Proof.
  induction s as [|x s IH]; intros H; cbn [search].
  - now rewrite (H [] (suffix_refl [])).
  - rewrite (H (x :: s) (suffix_refl _)).
    rewrite IH; [reflexivity|].
    intros s' [p ->]. apply H. exists (x :: p). reflexivity.
Qed.

(** What a substitution keeps: if every replacement has the same image
    under [f] as the text it replaces, and [f] goes through
    concatenation, then the whole result has the image of the text. *)
Lemma subx_image (f : str -> str) r t :
  (forall a b, f (a ++ b) = f a ++ f b) ->
  (forall s adv s1 c1,
     exec r s [] (toplevel adv s) = Some (s1, c1) ->
     f (expand t c1) = f (firstn (List.length s - List.length s1) s)) ->
  forall fuel s adv, f (subx fuel r t s adv) = f s.
Proof.
  intros Happ Hrep. induction fuel as [|fuel IH]; intros s adv; [reflexivity|].
  cbn [subx]. destruct (search r adv s) as [m|] eqn:E; [|reflexivity].
  pose proof (search_spec _ _ _ _ E) as [Hd _].
  apply search_match in E. destruct E as (adv' & E).
  apply Hrep in E. rewrite firstn_matched in E.
  rewrite !Happ, IH, E. rewrite Hd. now rewrite !Happ.
Qed.

(** *** Code blocks on any text *)

(** Every match of the code pattern is a fence, a body and a fence. *)
Lemma code_blocs_match adv s s1 c1 :
  exec CODE_BLOCS_REGEX s [] (toplevel adv s) = Some (s1, c1) ->
  exists X, s = fence ++ X ++ fence ++ s1
            /\ c1 = [(3, fence); (2, X); (1, fence)].
Proof.
  unfold CODE_BLOCS_REGEX, seq. cbn [fold_right]. intros H.
  cbn [exec] in H. unfold lit in H. fold fence in H.
  rewrite exec_lits in H.
  destruct (starts_with fence s) eqn:F; [|discriminate].
  apply starts_with_split in F.
  set (s' := skipn (List.length fence) s) in *.
  apply (exec_group_free
           (lazy_star (Cat (star (One (NOT_LITERAL BACKTICK)))
                           (Cat (star (One (LITERAL NEWLINE))) Empty)))
           eq_refl) in H.
  destruct H as (s2 & Hs2 & H).
  rewrite exec_lits in H.
  destruct (starts_with fence s2) eqn:F2; [|discriminate].
  apply starts_with_split in F2.
  set (s3 := skipn (List.length fence) s2) in *.
  unfold toplevel in H.
  destruct (adv && (List.length s3 =? List.length s)); [discriminate|].
  inversion H; subst s1 c1; clear H.
  exists (firstn (List.length s' - List.length s2) s').
  pose proof (suffix_firstn _ _ Hs2) as D.
  split.
  - rewrite F at 1. f_equal. rewrite <- D at 1. f_equal. exact F2.
  - assert (E3 : firstn (List.length s2 - List.length s3) s2 = fence)
      by (rewrite F2 at 1 2; apply firstn_matched).
    assert (E1 : firstn (List.length s - List.length s') s = fence)
      by (rewrite F at 1 2; apply firstn_matched).
    now rewrite E3, E1.
Qed.

(** X2: whatever the text, the code-block step only adds newlines: the
    result without its newlines is the text without its newlines. *)
Theorem code_blocs_step_adds_newlines_only text :
  without_newlines (code_blocs_step text) = without_newlines text.
Proof.
  unfold code_blocs_step, sub.
  apply (subx_image without_newlines).
  - intros a b. unfold without_newlines. apply filter_app.
  - intros s adv s1 c1 H. apply code_blocs_match in H.
    destruct H as (X & -> & ->).
    replace (fence ++ X ++ fence ++ s1) with ((fence ++ X ++ fence) ++ s1)
      by now rewrite <- !app_assoc.
    rewrite firstn_matched.
    cbn [expand CODE_BLOCS_TEMPLATE flat_map group Nat.eqb].
    unfold without_newlines. rewrite !filter_app. reflexivity.
Qed.

Lemma backticks_app a b : backticks (a ++ b) = backticks a + backticks b.
Proof. unfold backticks. now rewrite filter_app, length_app. Qed.

Lemma few_backticks_step text :
  backticks text < 6 -> code_blocs_step text = text.
Proof.
  intros H. unfold code_blocs_step. apply sub_no_match, search_none.
  intros s' [p ->].
  destruct (exec CODE_BLOCS_REGEX s' [] (toplevel false s')) as [[s1 c1]|] eqn:E;
    [|reflexivity].
  exfalso. apply code_blocs_match in E. destruct E as (X & -> & _).
  rewrite !backticks_app in H.
  change (backticks fence) with 3 in H. lia.
Qed.

(** X3: a text with fewer than six backticks has no fenced block: the
    code-block step returns it as it is.  This covers inline code and an
    opening fence that is never closed. *)
Theorem few_backticks_unchanged pre X :
  no_backtick pre = true -> no_backtick X = true ->
  code_blocs_step (pre ++ fence ++ X) = pre ++ fence ++ X
  /\ forall text, backticks text < 6 -> code_blocs_step text = text.
Proof.
  assert (Z : forall x, no_backtick x = true -> backticks x = 0).
  { induction x as [|a x IH]; [reflexivity|].
    unfold no_backtick, backticks in *. cbn [forallb filter]. intros H.
    apply andb_prop in H. destruct H as [Ha Hx].
    unfold NOT_LITERAL in Ha. apply negb_true_iff in Ha.
    unfold LITERAL at 1. rewrite Ha. now apply IH. }
  intros Hpre HX. split; [|exact few_backticks_step].
  apply few_backticks_step. rewrite !backticks_app, (Z pre Hpre), (Z X HX).
  change (backticks fence) with 3. lia.
Qed.

(** X1: the document of every accepted message is the heading marker
    followed by the result of the three steps on the text: the marker
    itself goes through the second and the third step untouched. *)
Theorem document_starts_with_heading message w doc w' :
  format_messages message w = (Ok doc, w') ->
  w' = w
  /\ exists text,
       get_text message = Some text
       /\ doc = py "## "
                  ++ images_step
                       (code_blocs_step (sub TITLE_REGEX TITLE_TEMPLATE text)).
Proof.
  rewrite format_messages_eq. unfold is_challenge, document.
  destruct (get_text message) as [text|]; [|discriminate].
  destruct (is_some (search CHALLENGE_REGEX false text)); [|discriminate].
  intros H. injection H as <- <-. split; [reflexivity|].
  exists text. split; [reflexivity|].
  unfold transform, title_step.
  rewrite code_blocs_step_skip by reflexivity.
  now rewrite images_step_skip by reflexivity.
Qed.

(** *** Image links on any text *)

Lemma line_char_spec a : line_char a = true -> ANY a = true /\ a <> GT.
Proof.
  unfold line_char. intros H. apply andb_prop in H. destruct H as [H1 H2].
  split; [exact H1|]. now apply negb_true_iff, N.eqb_neq in H2.
Qed.

(** A lazy scan stops at the first place where the continuation
    succeeds. *)
Lemma lazy_scan_inv p c k r : forall s,
  lazy_scan p s c k = Some r ->
  exists x s', s = x ++ s' /\ forallb p x = true /\ k s' c = Some r
               /\ (forall x1 x2, x = x1 ++ x2 -> x2 <> [] -> k (x2 ++ s') c = None).
Proof.
  induction s as [|a s IH]; intros H; cbn [lazy_scan] in H.
  - destruct (k [] c) eqn:E; [|discriminate]. injection H as ->.
    exists [], []. repeat split; [exact E|].
    intros x1 x2 Hx Hne. symmetry in Hx. apply app_eq_nil in Hx.
    destruct Hx as [_ ->]. contradiction.
  - destruct (k (a :: s) c) eqn:E.
    + injection H as ->. exists [], (a :: s). repeat split; [exact E|].
      intros x1 x2 Hx Hne. symmetry in Hx. apply app_eq_nil in Hx.
      destruct Hx as [_ ->]. contradiction.
    + destruct (p a) eqn:Pa; [|discriminate].
      apply IH in H. destruct H as (x & s' & -> & Hx & Hk & Hmin).
      exists (a :: x), s'. repeat split.
      * cbn [forallb]. now rewrite Pa, Hx.
      * exact Hk.
      * intros x1 x2 Hx12 Hne. destruct x1 as [|b x1].
        -- cbn [app] in Hx12. subst x2. exact E.
        -- cbn [app] in Hx12. injection Hx12 as -> ->.
           now apply (Hmin x1 x2).
Qed.

(** Every match of the image pattern is a bracketed URL under the
    prefix, on one line, up to the first closing bracket. *)
Lemma images_match adv s s1 c1 :
  exec IMAGES_REGEX s [] (toplevel adv s) = Some (s1, c1) ->
  exists v, s = LT :: images_prefix ++ v ++ GT :: s1
            /\ forallb line_char v = true
            /\ c1 = [(1, images_prefix ++ v)].
Proof.
  unfold IMAGES_REGEX, seq, lit. cbn [fold_right]. intros H.
  cbn [exec] in H. change (py "<") with [LT] in H. change (py ">") with [GT] in H.
  fold images_prefix in H.
  rewrite exec_lits in H.
  destruct s as [|a0 s0]; [discriminate|]. cbn [starts_with] in H.
  destruct (N.eqb LT a0) eqn:E0; [|discriminate].
  apply N.eqb_eq in E0. subst a0. cbn [List.length skipn andb] in H.
  rewrite exec_lits in H.
  destruct (starts_with images_prefix s0) eqn:P; [|discriminate].
  apply starts_with_split in P.
  set (s2 := skipn (List.length images_prefix) s0) in *.
  rewrite exec_lazy_star_One in H.
  apply lazy_scan_inv in H. destruct H as (v & s3 & Hv & HA & H & Hmin).
  rewrite exec_lits in H.
  destruct s3 as [|a3 s4]; [discriminate|]. cbn [starts_with] in H.
  destruct (N.eqb GT a3) eqn:E3; [|discriminate].
  apply N.eqb_eq in E3. subst a3. cbn [List.length skipn andb] in H.
  assert (Hs0 : s0 = (images_prefix ++ v) ++ GT :: s4)
    by (rewrite P, Hv; now rewrite <- app_assoc).
  exists v. split; [|split].
  - unfold toplevel in H.
    destruct (adv && (List.length s4 =? List.length (LT :: s0))); [discriminate|].
    injection H as <- _. now rewrite Hs0, <- app_assoc.
  - apply forallb_forall. intros a Ha. unfold line_char.
    rewrite forallb_forall in HA. rewrite (HA a Ha). cbn [andb].
    apply negb_true_iff, N.eqb_neq. intros ->.
    apply in_split in Ha. destruct Ha as (v1 & v2 & ->).
    pose proof (Hmin v1 (GT :: v2) eq_refl ltac:(discriminate)) as K.
    rewrite exec_lits in K. cbn [app starts_with] in K.
    rewrite N.eqb_refl in K. cbn [andb List.length skipn] in K.
    unfold toplevel in K.
    assert (L : (List.length (v2 ++ GT :: s4) =? List.length (LT :: s0)) = false).
    { apply Nat.eqb_neq. rewrite Hs0. cbn [List.length].
      repeat (rewrite length_app; cbn [List.length]). lia. }
    rewrite L, andb_false_r in K. discriminate K.
  - unfold toplevel in H.
    destruct (adv && (List.length s4 =? List.length (LT :: s0))); [discriminate|].
    injection H as _ <-. do 2 f_equal.
    rewrite Hs0 at 1 2. apply firstn_matched.
Qed.

Lemma images_hit_line v post :
  forallb line_char v = true ->
  exec IMAGES_REGEX (LT :: images_prefix ++ v ++ GT :: post) []
       (toplevel false (LT :: images_prefix ++ v ++ GT :: post))
  = Some (post, [(1, images_prefix ++ v)]).
Proof.
  intros Hv.
  change (LT :: images_prefix ++ v ++ GT :: post)
    with ([LT] ++ images_prefix ++ v ++ [GT] ++ post).
  unfold IMAGES_REGEX, seq, lit. cbn [fold_right exec].
  change (py "<") with [LT]. change (py ">") with [GT]. fold images_prefix.
  rewrite (exec_lits_app [LT]). rewrite exec_lits_app.
  rewrite exec_lazy_star_One.
  assert (HA : forallb ANY v = true).
  { rewrite forallb_forall in *. intros a Ha. now apply line_char_spec, Hv. }
  rewrite lazy_scan_skip; [| exact HA |].
  - apply lazy_scan_done.
    rewrite (app_assoc images_prefix v), firstn_matched.
    rewrite (exec_lits_app [GT]). unfold toplevel. reflexivity.
  - intros x1 x2 -> Hne. destruct x2 as [|a x2]; [contradiction|].
    rewrite forallb_app in Hv. apply andb_prop in Hv. destruct Hv as [_ Hv].
    cbn [forallb] in Hv. apply andb_prop in Hv. destruct Hv as [Ha _].
    apply line_char_spec in Ha. destruct Ha as (_ & Ha).
    rewrite exec_lits. cbn [app starts_with].
    destruct (N.eqb GT a) eqn:E; [|reflexivity].
    apply N.eqb_eq in E. congruence.
Qed.

(** [search] finds the leftmost match: the pattern fails at every place
    before it. *)
Lemma search_leftmost r : forall s m,
  search r false s = Some m ->
  forall p1 p2, m_pre m = p1 ++ p2 -> p2 <> [] ->
    exec r (p2 ++ m_text m ++ m_rest m) []
         (toplevel false (p2 ++ m_text m ++ m_rest m)) = None.
Proof.
  induction s as [|x s IH]; intros m H p1 p2 Hp Hne; cbn [search] in H.
  - destruct (exec r [] [] (toplevel false [])) as [[s1 c1]|]; [|discriminate].
    injection H as <-. cbn [m_pre] in Hp.
    symmetry in Hp. apply app_eq_nil in Hp. destruct Hp as [_ ->]. contradiction.
  - destruct (exec r (x :: s) [] (toplevel false (x :: s))) as [[s1 c1]|] eqn:E.
    + injection H as <-. cbn [m_pre] in Hp.
      symmetry in Hp. apply app_eq_nil in Hp. destruct Hp as [_ ->]. contradiction.
    + destruct (search r false s) as [m'|] eqn:S'; [|discriminate].
      injection H as <-. cbn [shift m_pre m_text m_rest] in *.
      pose proof (search_spec _ _ _ _ S') as [Hd _].
      destruct p1 as [|b p1].
      * cbn [app] in Hp. subst p2. cbn [app]. rewrite <- Hd. exact E.
      * cbn [app] in Hp. injection Hp as _ Hp. now apply (IH m' eq_refl p1 p2).
Qed.

Lemma search_none_inv r : forall s,
  search r false s = None ->
  forall s', suffix_of s' s -> exec r s' [] (toplevel false s') = None.
Proof.
  induction s as [|x s IH]; intros H s' [p Hp]; cbn [search] in H.
  - symmetry in Hp. apply app_eq_nil in Hp. destruct Hp as [_ ->].
    destruct (exec r [] [] (toplevel false [])) as [[s1 c1]|]; [discriminate|reflexivity].
  - destruct (exec r (x :: s) [] (toplevel false (x :: s))) as [[s1 c1]|] eqn:E;
      [discriminate|].
    destruct (search r false s) as [m'|] eqn:S'; [discriminate|].
    destruct p as [|b p].
    + cbn [app] in Hp. subst s'. exact E.
    + cbn [app] in Hp. injection Hp as _ Hp. apply (IH eq_refl). now exists p.
Qed.

(** Characters at which the pattern fails, in their context, are copied. *)
Lemma sub_skip_context r t : forall pre s,
  (forall p1 p2, pre = p1 ++ p2 -> p2 <> [] ->
     exec r (p2 ++ s) [] (toplevel false (p2 ++ s)) = None) ->
  sub r t (pre ++ s) = pre ++ sub r t s.
Proof.
  induction pre as [|a pre IH]; intros s H; [reflexivity|].
  cbn [app]. rewrite sub_skip.
  - f_equal. apply IH. intros p1 p2 -> Hne.
    apply (H (a :: p1) p2); [reflexivity | exact Hne].
  - apply (H [] (a :: pre)); [reflexivity | discriminate].
Qed.

(** Two ways of cutting a text at the first character outside a class
    are the same way. *)
Lemma first_stop (q : char -> bool) : forall x y a b s s',
  forallb q x = true -> q a = false ->
  forallb q y = true -> q b = false ->
  x ++ a :: s = y ++ b :: s' -> x = y /\ a = b /\ s = s'.
Proof.
  induction x as [|c x IH]; intros y a b s s' Hx Ha Hy Hb E.
  - destruct y as [|d y].
    + cbn [app] in E. injection E as -> ->. auto.
    + cbn [app] in E. injection E as -> _.
      cbn [forallb] in Hy. apply andb_prop in Hy. destruct Hy as [Hd _].
      congruence.
  - cbn [forallb] in Hx. apply andb_prop in Hx. destruct Hx as [Hc Hx].
    destruct y as [|d y].
    + cbn [app] in E. injection E as -> _. congruence.
    + cbn [app] in E. injection E as -> E.
      cbn [forallb] in Hy. apply andb_prop in Hy. destruct Hy as [_ Hy].
      destruct (IH y a b s s' Hx Ha Hy Hb E) as (-> & -> & ->). auto.
Qed.

Lemma split_at_first_stop (q : char -> bool) : forall p,
  forallb q p = true \/
  exists x a p', p = x ++ a :: p' /\ forallb q x = true /\ q a = false.
Proof.
  induction p as [|c p IH]; [now left|].
  destruct (q c) eqn:Hc.
  - destruct IH as [IH | (x & a & p' & -> & Hx & Ha)].
    + left. cbn [forallb]. now rewrite Hc.
    + right. exists (c :: x), a, p'. repeat split; [|exact Ha].
      cbn [forallb]. now rewrite Hc.
  - right. exists [], c, p. repeat split. exact Hc.
Qed.

Lemma suffix_app_inv (s' a b : str) :
  suffix_of s' (a ++ b) ->
  suffix_of s' b \/ exists a1 a2, a = a1 ++ a2 /\ a2 <> [] /\ s' = a2 ++ b.
Proof.
  revert s'. induction a as [|c a IH]; intros s' [p Hp]; [left; now exists p|].
  destruct p as [|d p].
  - right. exists [], (c :: a). repeat split; [discriminate | symmetry; exact Hp].
  - cbn [app] in Hp. injection Hp as _ Hp.
    destruct (IH s' (ex_intro _ p Hp)) as [Hb | (a1 & a2 & -> & Hne & ->)].
    + now left.
    + right. exists (c :: a1), a2. repeat split; exact Hne.
Qed.

(** One step of the image step at its leftmost match. *)
Lemma images_step_at_match pre v rest :
  (forall p1 p2, pre = p1 ++ p2 -> p2 <> [] ->
     exec IMAGES_REGEX (p2 ++ LT :: images_prefix ++ v ++ GT :: rest) []
          (toplevel false (p2 ++ LT :: images_prefix ++ v ++ GT :: rest)) = None) ->
  forallb line_char v = true ->
  images_step (pre ++ LT :: images_prefix ++ v ++ GT :: rest)
  = pre ++ illustration (images_prefix ++ v) ++ images_step rest.
Proof.
  intros Hpre Hv. unfold images_step.
  rewrite sub_skip_context by exact Hpre. f_equal.
  pose proof (images_hit_line v rest Hv) as Hit.
  replace (LT :: images_prefix ++ v ++ GT :: rest)
    with ((LT :: images_prefix ++ v ++ [GT]) ++ rest) in *
    by (cbn [app]; now rewrite <- !app_assoc).
  assert (Hne : (LT :: images_prefix ++ v ++ [GT]) <> []) by discriminate.
  rewrite (sub_hit _ _ _ _ _ Hne Hit).
  cbn [expand IMAGES_TEMPLATE flat_map group Nat.eqb]. unfold illustration.
  now rewrite <- !app_assoc.
Qed.

(** The replacement of a link, without its final newline, has no
    closing bracket and no newline. *)
Lemma illustration_line v :
  forallb line_char v = true ->
  forallb line_char (py "![Illustration](" ++ (images_prefix ++ v) ++ py ")") = true.
Proof.
  intros Hv. rewrite !forallb_app, Hv. reflexivity.
Qed.

(** After the image step no image link is left. *)
Lemma images_step_no_image_link : forall n text,
  List.length text <= n -> no_image_link (images_step text).
Proof.
  induction n as [|n IH]; intros text Hn.
  - destruct text; [|cbn in Hn; lia].
    change (images_step []) with (@nil char).
    intros s' [p Hp]. symmetry in Hp. apply app_eq_nil in Hp.
    destruct Hp as [_ ->]. reflexivity.
  - destruct (search IMAGES_REGEX false text) as [m|] eqn:Hsearch.
    + pose proof (search_spec _ _ _ _ Hsearch) as [Hd _].
      pose proof (search_leftmost _ _ _ Hsearch) as Hleft.
      destruct (search_match _ _ _ _ Hsearch) as (adv' & E).
      apply images_match in E. destruct E as (v & Ht & Hv & _).
      rewrite Ht in Hleft. rewrite Hd, Ht.
      rewrite (images_step_at_match (m_pre m) v (m_rest m) Hleft Hv).
      assert (Hrest : no_image_link (images_step (m_rest m))).
      { apply IH. rewrite Hd, Ht in Hn. rewrite length_app in Hn.
        cbn [List.length] in Hn. rewrite !length_app in Hn.
        cbn [List.length] in Hn. lia. }
      set (O := images_step (m_rest m)) in *.
      set (R0 := py "![Illustration](" ++ (images_prefix ++ v) ++ py ")").
      assert (HR0 : forallb line_char R0 = true) by now apply illustration_line.
      assert (HR : illustration (images_prefix ++ v) ++ O = R0 ++ NEWLINE :: O).
      { unfold illustration, R0. now rewrite <- !app_assoc. }
      rewrite HR.
      (* a match in the result would end at a closing bracket *)
      assert (Hend : forall x s1 y,
                 forallb line_char x = true ->
                 x ++ NEWLINE :: O = LT :: images_prefix ++ y ++ GT :: s1 ->
                 forallb line_char y = true -> False).
      { intros x s1 y Hx Hxy Hy.
        assert (Hy' : forallb line_char (LT :: images_prefix ++ y) = true).
        { change (LT :: images_prefix ++ y) with ((LT :: images_prefix) ++ y).
          rewrite forallb_app, Hy. reflexivity. }
        change (LT :: images_prefix ++ y ++ GT :: s1)
          with ((LT :: images_prefix ++ y) ++ GT :: s1) in Hxy.
        destruct (first_stop line_char x (LT :: images_prefix ++ y)
                    NEWLINE GT O s1 Hx eq_refl Hy' eq_refl) as (_ & Habs & _).
        - rewrite Hxy. cbn [app]. now rewrite <- app_assoc.
        - discriminate Habs. }
      intros s' Hs'.
      destruct (exec IMAGES_REGEX s' [] (toplevel false s')) as [[s1 c1]|] eqn:E;
        [exfalso | reflexivity].
      apply images_match in E. destruct E as (y & Hy & Hyl & _).
      apply suffix_app_inv in Hs'.
      destruct Hs' as [Hs' | (p1 & p2 & Hp & Hne & Hs')].
      * apply suffix_app_inv in Hs'.
        destruct Hs' as [Hs' | (r1 & r2 & Hr & Hne & Hs')].
        -- (* inside what follows the replacement *)
           destruct Hs' as [q Hq]. destruct q as [|c q].
           ++ cbn [app] in Hq. subst s'.
              apply (Hend [] s1 y eq_refl); [|exact Hyl].
              cbn [app]. exact Hy.
           ++ cbn [app] in Hq. injection Hq as _ Hq.
              assert (Hsuf : suffix_of s' O) by now exists q.
              apply Hrest in Hsuf.
              rewrite Hy in Hsuf.
              rewrite (images_hit_line y s1 Hyl) in Hsuf. discriminate Hsuf.
        -- (* inside the replacement *)
           subst s'. rewrite Hr, forallb_app in HR0.
           apply andb_prop in HR0. destruct HR0 as [_ Hr2].
           apply (Hend r2 s1 y Hr2); [|exact Hyl].
           rewrite <- Hy. reflexivity.
      * (* before the replacement *)
        subst s'.
        destruct (split_at_first_stop line_char p2)
          as [Hall | (x & a & p' & Hp2 & Hx & Ha)].
        -- apply (Hend (p2 ++ R0) s1 y); [now rewrite forallb_app, Hall, HR0| |exact Hyl].
           rewrite <- Hy. now rewrite <- app_assoc.
        -- rewrite Hp2 in Hy. rewrite <- app_assoc in Hy. cbn [app] in Hy.
           assert (Hy' : forallb line_char (LT :: images_prefix ++ y) = true).
           { change (LT :: images_prefix ++ y) with ((LT :: images_prefix) ++ y).
             rewrite forallb_app, Hyl. reflexivity. }
           destruct (first_stop line_char x (LT :: images_prefix ++ y)
                       a GT (p' ++ R0 ++ NEWLINE :: O) s1 Hx Ha Hy' eq_refl)
             as (Hxy & -> & _).
           { rewrite Hy. cbn [app]. now rewrite <- app_assoc. }
           pose proof (Hleft p1 p2 Hp Hne) as Hnone.
           rewrite Hp2, Hxy in Hnone.
           replace ((((LT :: images_prefix ++ y) ++ GT :: p')
                      ++ LT :: images_prefix ++ v ++ GT :: m_rest m))
             with (LT :: images_prefix ++ y ++ GT
                      :: (p' ++ LT :: images_prefix ++ v ++ GT :: m_rest m)) in Hnone
             by (cbn [app]; rewrite <- !app_assoc; reflexivity).
           rewrite (images_hit_line y _ Hyl) in Hnone. discriminate Hnone.
    + unfold images_step. rewrite sub_no_match by exact Hsearch.
      exact (search_none_inv _ _ Hsearch).
Qed.

(** X5: the image step is idempotent on every text: after one run no
    image link is left, so a second run changes nothing. *)
Theorem images_step_idempotent text :
  images_step (images_step text) = images_step text.
Proof.
  unfold images_step at 1. apply sub_no_match, search_none.
  exact (images_step_no_image_link (List.length text) text (le_n _)).
Qed.

(** *** Texts without the patterns *)

Lemma occurs_suffix l : forall p s, starts_with l s = true -> occurs l (p ++ s) = true.
Proof.
  induction p as [|a p IH]; intros s H.
  - cbn [app]. destruct s; cbn [occurs]; now rewrite H.
  - cbn [app occurs]. rewrite (IH s H). apply orb_true_r.
Qed.

(** A pattern whose matches all start with a text [l] leaves a text
    without [l] as it is. *)
Lemma sub_without_start r t l text :
  (forall s s1 c1,
     exec r s [] (toplevel false s) = Some (s1, c1) -> starts_with l s = true) ->
  occurs l text = false -> sub r t text = text.
Proof.
  intros Hstart Hocc. apply sub_no_match, search_none.
  intros s' [p ->].
  destruct (exec r s' [] (toplevel false s')) as [[s1 c1]|] eqn:E; [|reflexivity].
  apply Hstart in E. rewrite (occurs_suffix l p s' E) in Hocc. discriminate Hocc.
Qed.

Lemma title_match_start s c k a :
  exec TITLE_REGEX s c k = Some a -> starts_with title_start s = true.
Proof.
  rewrite exec_TITLE_REGEX, exec_ones.
  destruct (match_items head_items s) eqn:M; [|discriminate].
  intros _. unfold head_items in M.
  now apply match_items_literals in M.
Qed.

Lemma images_match_start s s1 c1 :
  exec IMAGES_REGEX s [] (toplevel false s) = Some (s1, c1) ->
  starts_with images_start s = true.
Proof.
  intros H. apply images_match in H. destruct H as (v & -> & _).
  change (LT :: images_prefix ++ v ++ GT :: s1)
    with (images_start ++ v ++ GT :: s1).
  apply starts_with_app.
Qed.

(** X4: a text without the start of a title banner, with fewer than six
    backticks and without the start of an image link goes through the
    three steps unchanged: its document is the text behind the heading
    marker. *)
Theorem text_without_patterns_gets_heading_only text :
  occurs title_start text = false ->
  backticks text < 6 ->
  occurs images_start text = false ->
  transform text = py "## " ++ text.
Proof.
  intros Ht Hb Hi. unfold transform, title_step.
  rewrite (sub_without_start TITLE_REGEX TITLE_TEMPLATE title_start text);
    [| intros s s1 c1; apply title_match_start | exact Ht].
  rewrite few_backticks_step by (rewrite backticks_app; exact Hb).
  unfold images_step.
  apply (sub_without_start IMAGES_REGEX IMAGES_TEMPLATE images_start).
  - exact images_match_start.
  - change (py "## " ++ text) with (35%N :: 35%N :: 32%N :: text).
    cbn [occurs]. rewrite Hi.
    change (starts_with images_start (35%N :: 35%N :: 32%N :: text)) with false.
    change (starts_with images_start (35%N :: 32%N :: text)) with false.
    change (starts_with images_start (32%N :: text)) with false.
    reflexivity.
Qed.

(** ** Further properties of the guard, the aggregator and the writer *)

(** X6: a message with a Daily Programmer banner anywhere in its text,
    whose date phrase is made of word characters and white space, passes
    the guard of [format_messages] and is transformed. *)
Theorem banner_passes_guard message pre D rest w :
  wordy D ->
  get_text message = Some (pre ++ banner_head ++ D ++ banner_tail ++ rest) ->
  is_challenge message = true
  /\ format_messages message w = (Ok (document message), w).
Proof.
  intros HD Htext.
  assert (H : is_challenge message = true).
  { apply is_challenge_iff.
    exists (pre ++ banner_head ++ D ++ banner_tail ++ rest). split; [exact Htext|].
    pose proof (dated_banner_is_challenge
                  [("text", VStr (banner_head ++ D ++ banner_tail ++ rest))]
                  D rest HD eq_refl) as G.
    apply is_challenge_iff in G. destruct G as (text & Et & (p & s & q & Es & Hs)).
    assert (Et' : banner_head ++ D ++ banner_tail ++ rest = text)
      by (injection Et as Et; exact Et).
    exists (pre ++ p), s, q. split; [|exact Hs].
    rewrite <- app_assoc. f_equal. now rewrite Et'. }
  split; [exact H|]. now rewrite format_messages_eq, H.
Qed.

(** X7: the loop of [parse_channel_history] on a batch made of a newer
    part followed by an older part (the history is newest first) returns
    the history of the older part followed by the history of the newer
    part: it is the loop on the newer part, started from the history of
    the older part.  A rejected message neither ends the loop nor loses
    what was gathered before it. *)
Theorem history_loop_split_batch newer older w :
  exists a b,
    history_loop (rev older) [] w = (Ok a, w)
    /\ history_loop (rev newer) [] w = (Ok b, w)
    /\ history_loop (rev (newer ++ older)) [] w = (Ok (a ++ b), w)
    /\ history_loop (rev newer) a w = (Ok (a ++ b), w).
Proof.
  exists (join_with_trailing challenges_separator
            (map document (filter is_challenge (rev older)))),
         (join_with_trailing challenges_separator
            (map document (filter is_challenge (rev newer)))).
  rewrite !history_loop_eq. repeat split.
  cbn [app]. unfold join_with_trailing.
  now rewrite rev_app_distr, filter_app, !map_app, concat_app.
Qed.

Lemma mode_ok_iff mode : mode_ok mode = true <-> valid_mode mode.
Proof.
  unfold mode_ok, is_mode, valid_mode.
  destruct (str_eq_dec mode (py "a")) as [Ea|Ea];
    destruct (str_eq_dec mode (py "w")) as [Ew|Ew]; cbn [orb];
    split; intros H; auto; try discriminate H.
  destruct H; contradiction.
Qed.

(** The writer on a usable path with a valid mode. *)
Lemma write_history_to_file_usable data mode w :
  valid_mode mode -> usable (output_dir w) = true ->
  write_history_to_file data mode w =
  (Ok tt,
   mkWorld (REPO_URL w)
     (Directory (Some (written mode data (index_of (output_dir w)))) true)
     (trace w ++ [Print "Writing history to file..."]
        ++ mkdir_events (output_dir w) ++ write_events mode data
        ++ publish_events (is_git (output_dir w)) (REPO_URL w))).
Proof.
  intros Hm Hu. destruct w as [url dir t]. cbn [output_dir trace REPO_URL] in *.
  destruct dir as [| |old git]; [| discriminate Hu |].
  - rewrite write_history_to_file_Missing by exact Hm.
    rewrite publish_challenges_Directory.
    cbn [index_of is_git mkdir_events]. now rewrite <- !app_assoc.
  - rewrite write_history_to_file_Directory by exact Hm.
    rewrite publish_challenges_Directory.
    cbn [index_of is_git mkdir_events app]. now rewrite <- !app_assoc.
Qed.

(** The writer on a path taken by something that is not a directory. *)
Lemma write_history_to_file_unusable data mode w :
  valid_mode mode -> usable (output_dir w) = false ->
  write_history_to_file data mode w =
  (Raise (OSError "FileExistsError"), printed ["Writing history to file..."] w).
Proof.
  intros Hm Hu. destruct w as [url dir t]. cbn [output_dir] in Hu.
  destruct dir as [| |old git]; try discriminate Hu.
  now rewrite write_history_to_file_NotADirectory by exact Hm.
Qed.

(** The writer case by case, when every write and every git command
    succeeds. *)
Lemma write_history_to_file_cases data mode w :
  fst (write_history_to_file data mode w)
  = (if negb (mode_ok mode)
     then Raise (FileOpeningModeException "Given mode isn't 'a' or 'w'!")
     else if usable (output_dir w) then Ok tt
          else Raise (OSError "FileExistsError"))
  /\ snd (write_history_to_file data mode w)
     = (if mode_ok mode && usable (output_dir w)
        then mkWorld (REPO_URL w)
               (Directory (Some (written mode data (index_of (output_dir w)))) true)
               (trace w ++ [Print "Writing history to file..."]
                  ++ mkdir_events (output_dir w) ++ write_events mode data
                  ++ publish_events (is_git (output_dir w)) (REPO_URL w))
        else printed ["Writing history to file..."] w).
Proof.
  destruct (mode_ok mode) eqn:Hm.
  - apply mode_ok_iff in Hm. destruct (usable (output_dir w)) eqn:Hu.
    + now rewrite write_history_to_file_usable.
    + now rewrite write_history_to_file_unusable.
  - assert (Hn : ~ valid_mode mode).
    { intros Hv. apply mode_ok_iff in Hv. congruence. }
    now rewrite write_history_to_file_invalid.
Qed.

Lemma inits_app t1 t2 : inits (t1 ++ t2) = inits t1 + inits t2.
Proof. unfold inits. now rewrite filter_app, length_app. Qed.

Lemma inits_publish_events git url :
  inits (publish_events git url) = if git then 0 else 1.
Proof. destruct git; reflexivity. Qed.

Lemma write_keeps_to_init data mode w :
  inits (trace (snd (write_history_to_file data mode w)))
    + to_init (output_dir (snd (write_history_to_file data mode w)))
  = inits (trace w) + to_init (output_dir w)
  /\ REPO_URL (snd (write_history_to_file data mode w)) = REPO_URL w.
Proof.
  destruct (write_history_to_file_cases data mode w) as [_ ->].
  destruct (mode_ok mode && usable (output_dir w)) eqn:E.
  - cbn [trace output_dir REPO_URL]. split; [|reflexivity].
    rewrite !inits_app, inits_publish_events. unfold to_init.
    cbn [is_git].
    assert (E1 : inits [Print "Writing history to file..."] = 0) by reflexivity.
    assert (E2 : inits (mkdir_events (output_dir w)) = 0)
      by (destruct (output_dir w); reflexivity).
    assert (E3 : inits (write_events mode data) = 0) by reflexivity.
    rewrite E1, E2, E3. destruct (is_git (output_dir w)); lia.
  - split; [|reflexivity]. rewrite printed_trace, inits_app. cbn. lia.
Qed.

(** X14: over any list of writes, whatever their contents, their modes
    and their outcomes, the number of runs of [git init] plus what is
    still to be initialised stays the same: the repository is
    initialised at most once, and never in a directory that is a git
    working tree already. *)
Theorem repository_initialised_once jobs : forall w,
  inits (trace (write_all jobs w)) + to_init (output_dir (write_all jobs w))
  = inits (trace w) + to_init (output_dir w)
  /\ inits (trace (write_all jobs w)) <= inits (trace w) + to_init (output_dir w)
  /\ REPO_URL (write_all jobs w) = REPO_URL w.
Proof.
  induction jobs as [|[data mode] jobs IH]; intros w; cbn [write_all].
  - repeat split. lia.
  - destruct (IH (snd (write_history_to_file data mode w))) as (H1 & H2 & H3).
    destruct (write_keeps_to_init data mode w) as [K1 K2].
    repeat split; [lia | lia | congruence].
Qed.

Lemma filter_nil_existsb {A} (f : A -> bool) l :
  filter f l = [] <-> existsb f l = false.
Proof.
  induction l as [|a l IH]; [split; reflexivity|].
  cbn [filter existsb]. destruct (f a); cbn [orb].
  - split; discriminate.
  - exact IH.
Qed.

Lemma history_blob_existsb msgs :
  history_blob msgs = [] <-> existsb is_challenge msgs = false.
Proof. rewrite history_blob_nil. apply filter_nil_existsb. Qed.

Lemma written_append data old :
  written (py "a") data old = match old with Some o => o | None => [] end ++ data.
Proof.
  unfold written, is_mode.
  destruct (str_eq_dec (py "a") (py "w")) as [E|_]; [discriminate E | reflexivity].
Qed.

Lemma written_overwrite data old : written (py "w") data old = data.
Proof.
  unfold written, is_mode.
  destruct (str_eq_dec (py "w") (py "w")) as [_|E]; [reflexivity | now contradiction E].
Qed.

(** X9: a batch parse run again on the same history rewrites the same
    target file and publishes by amending: the second run leaves the
    output directory as the first run left it, and its publication is
    the one of an existing working tree. *)
Theorem parse_channel_history_again ch w :
  existsb is_challenge (messages ch) = true ->
  usable (output_dir w) = true ->
  output_dir (snd (parse_channel_history ch w))
    = Directory (Some (history_blob (messages ch))) true
  /\ output_dir (snd (parse_channel_history ch (snd (parse_channel_history ch w))))
     = output_dir (snd (parse_channel_history ch w))
  /\ trace (snd (parse_channel_history ch (snd (parse_channel_history ch w))))
     = trace (snd (parse_channel_history ch w))
         ++ [Print "Parsing and formating history..."; Print "Done...";
             Print "Writing history to file..."]
         ++ write_events (py "w") (history_blob (messages ch))
         ++ publish_events true (REPO_URL w).
Proof.
  intros Hc Hu.
  assert (Hw : valid_mode (py "w")) by now right.
  assert (Hne : history_blob (messages ch) <> []).
  { intros E. apply history_blob_existsb in E. congruence. }
  rewrite !parse_channel_history_eq.
  destruct (history_blob (messages ch)) as [|b blob] eqn:Hb; [contradiction|].
  rewrite (write_history_to_file_usable (b :: blob) (py "w")
             (printed ["Parsing and formating history..."; "Done..."] w) Hw Hu).
  cbn [snd]. rewrite write_history_to_file_usable by (exact Hw || reflexivity).
  cbn [snd output_dir trace printed REPO_URL index_of is_git mkdir_events map].
  rewrite !written_overwrite. repeat split.
  rewrite <- !app_assoc. reflexivity.
Qed.

(** ** The writer and the publisher with their failures *)

Section EnvironmentFacts.

Variable encodable : char -> bool.
Variable git_succeeds : list event -> list string -> bool.

Lemma encodable_prefix_all data :
  forallb encodable data = true -> encodable_prefix encodable data = data.
Proof.
  induction data as [|a data IH]; [reflexivity|].
  cbn [forallb encodable_prefix]. intros H. apply andb_prop in H.
  destruct H as [Ha H]. rewrite Ha. now rewrite IH.
Qed.

Lemma encodable_prefix_app d1 d2 :
  forallb encodable d1 = true ->
  encodable_prefix encodable (d1 ++ d2) = d1 ++ encodable_prefix encodable d2.
Proof.
  induction d1 as [|a d1 IH]; [reflexivity|].
  cbn [forallb app encodable_prefix]. intros H. apply andb_prop in H.
  destruct H as [Ha H]. rewrite Ha. now rewrite IH.
Qed.

(** Run the git commands of the publisher one by one. *)
Ltac run_git :=
  repeat (match goal with
          | |- context [git_succeeds ?t ?a] => destruct (git_succeeds t a)
          end; cbv beta iota).

(** The publisher in a directory: it prints its first line, leaves the
    target file alone, and returns or raises [GitCommandError]; when it
    returns, the directory is a git working tree. *)
Lemma publish_challenges_env_Directory url f g t :
  exists r g' t',
    publish_challenges_env git_succeeds (mkWorld url (Directory f g) t)
    = (r, mkWorld url (Directory f g') (t ++ Print "Publishing result..." :: t'))
    /\ publish_runs t' = 0
    /\ (g = true -> g' = true)
    /\ match r with
       | Ok _ => g' = true
       | Raise (GitCommandError _) => True
       | Raise _ => False
       end.
Proof.
  destruct g;
    cbv [publish_challenges_env bind print emit get_output_dir get_REPO_URL
         set_output_dir git REPO_URL output_dir trace];
    run_git; rewrite <- ?app_assoc; cbn [app];
    do 3 eexists; (split; [reflexivity|]); repeat split; auto.
Qed.

(** When every git command succeeds, the publisher is the one of
    [publish_challenges]. *)
Lemma publish_challenges_env_succeeds w :
  (forall t a, git_succeeds t a = true) ->
  publish_challenges_env git_succeeds w = publish_challenges w.
Proof.
  intros H. destruct w as [url [| |f [|]] t];
    cbv [publish_challenges_env publish_challenges bind print emit
         get_output_dir get_REPO_URL set_output_dir git REPO_URL output_dir trace];
    rewrite ?H; try reflexivity;
    repeat (cbv beta iota; rewrite ?H); reflexivity.
Qed.

(** The writer up to the call of the publisher. *)
Ltac run_writer_env :=
  cbv [write_history_to_file_env bind print emit os_path_isdir os_mkdir
       get_output_dir set_output_dir ret raise open_writelines_env
       REPO_URL output_dir trace negb orb];
  unfold is_mode; decide_modes; cbv iota beta.

Lemma write_history_to_file_env_cases data mode w :
  write_history_to_file_env encodable git_succeeds data mode w =
  if negb (mode_ok mode) then
    (Raise (FileOpeningModeException "Given mode isn't 'a' or 'w'!"),
     printed ["Writing history to file..."] w)
  else if negb (usable (output_dir w)) then
    (Raise (OSError "FileExistsError"), printed ["Writing history to file..."] w)
  else if negb (forallb encodable data) then
    (Raise UnicodeEncodeError,
     mkWorld (REPO_URL w)
       (Directory
          (Some (written mode (encodable_prefix encodable data)
                   (index_of (output_dir w))))
          (is_git (output_dir w)))
       (trace w ++ [Print "Writing history to file..."]
          ++ mkdir_events (output_dir w)
          ++ [Open target mode; Writelines data; Close]))
  else
    publish_challenges_env git_succeeds
      (mkWorld (REPO_URL w)
         (Directory (Some (written mode data (index_of (output_dir w))))
            (is_git (output_dir w)))
         (trace w ++ [Print "Writing history to file..."]
            ++ mkdir_events (output_dir w) ++ write_events mode data)).
Proof.
  destruct (mode_ok mode) eqn:Hm; cbn [negb].
  - apply mode_ok_iff in Hm.
    destruct w as [url dir t]. cbn [output_dir REPO_URL trace].
    destruct (forallb encodable data) eqn:He; cbn [negb].
    + pose proof (encodable_prefix_all data He) as Hp.
      destruct dir as [| |old g]; cbn [usable negb index_of is_git mkdir_events];
        destruct Hm as [-> | ->]; run_writer_env; rewrite ?He, ?Hp;
        unfold written, is_mode; decide_modes; cbv iota beta;
        rewrite <- ?app_assoc; reflexivity.
    + destruct dir as [| |old g]; cbn [usable negb index_of is_git mkdir_events];
        destruct Hm as [-> | ->]; run_writer_env; rewrite ?He;
        unfold written, is_mode; decide_modes; cbv iota beta;
        rewrite <- ?app_assoc; reflexivity.
  - assert (Hn : ~ valid_mode mode).
    { intros Hv. apply mode_ok_iff in Hv. congruence. }
    unfold write_history_to_file_env, bind at 1, print at 1, emit.
    unfold mode_ok in Hm. rewrite Hm. reflexivity.
Qed.

(** What a write with a valid mode leaves, by its outcome. *)
Lemma write_history_to_file_env_class data mode w :
  valid_mode mode ->
  match fst (write_history_to_file_env encodable git_succeeds data mode w) with
  | Ok _ => usable (output_dir w) = true /\ forallb encodable data = true
  | Raise (OSError class) =>
      class = "FileExistsError" /\ usable (output_dir w) = false
  | Raise UnicodeEncodeError =>
      usable (output_dir w) = true /\ forallb encodable data = false
  | Raise (GitCommandError _) =>
      usable (output_dir w) = true /\ forallb encodable data = true
  | Raise _ => False
  end.
Proof.
  intros Hm. apply mode_ok_iff in Hm.
  rewrite write_history_to_file_env_cases, Hm. cbn [negb].
  destruct (usable (output_dir w)); cbn [negb fst]; [|now split].
  destruct (forallb encodable data); cbn [negb fst]; [|now split].
  destruct (publish_challenges_env_Directory (REPO_URL w)
              (Some (written mode data (index_of (output_dir w))))
              (is_git (output_dir w))
              (trace w ++ [Print "Writing history to file..."]
                 ++ mkdir_events (output_dir w) ++ write_events mode data))
    as (r & g' & t' & -> & _ & _ & Hr).
  cbn [fst]. destruct r as [u|e]; [now split|].
  destruct e; try contradiction. now split.
Qed.

Lemma publish_runs_mkdir_events n : publish_runs (mkdir_events n) = 0.
Proof. now destruct n. Qed.

(** What a write leaves behind: the file, the path, the URL and the runs
    of the publisher. *)
Lemma write_history_to_file_env_leaves data mode w :
  valid_mode mode -> usable (output_dir w) = true ->
  index_of (output_dir (snd (write_history_to_file_env encodable git_succeeds
                               data mode w)))
  = Some (written mode (encodable_prefix encodable data) (index_of (output_dir w)))
  /\ usable (output_dir (snd (write_history_to_file_env encodable git_succeeds
                                data mode w))) = true
  /\ REPO_URL (snd (write_history_to_file_env encodable git_succeeds data mode w))
     = REPO_URL w
  /\ publish_runs (trace (snd (write_history_to_file_env encodable git_succeeds
                                 data mode w)))
     = publish_runs (trace w) + (if forallb encodable data then 1 else 0).
Proof.
  intros Hm Hu. apply mode_ok_iff in Hm.
  rewrite write_history_to_file_env_cases, Hm, Hu. cbn [negb].
  destruct (forallb encodable data) eqn:He; cbn [negb].
  - rewrite (encodable_prefix_all data He).
    destruct (publish_challenges_env_Directory (REPO_URL w)
                (Some (written mode data (index_of (output_dir w))))
                (is_git (output_dir w))
                (trace w ++ [Print "Writing history to file..."]
                   ++ mkdir_events (output_dir w) ++ write_events mode data))
      as (r & g' & t' & -> & Ht' & _ & _).
    cbn [snd output_dir index_of usable REPO_URL trace]. repeat split.
    change (Print "Publishing result..." :: t')
      with ([Print "Publishing result..."] ++ t').
    rewrite !publish_runs_app, publish_runs_mkdir_events, Ht'. cbn. lia.
  - cbn [snd output_dir index_of usable REPO_URL trace]. repeat split.
    rewrite !publish_runs_app, publish_runs_mkdir_events. cbn. lia.
Qed.


(** X13: appends accumulate what could be written: after two writes in
    mode 'a' on a usable path the target file holds its previous
    content, then each of the two contents up to its first character
    that cannot be encoded.  When the first content can be encoded, this
    is what one append of the two contents leaves.  After a write in
    mode 'w' and one in mode 'a' the previous content is gone. *)
Theorem appends_accumulate d1 d2 w :
  usable (output_dir w) = true ->
  index_of (output_dir
              (snd (write_history_to_file_env encodable git_succeeds d2 (py "a")
                      (snd (write_history_to_file_env encodable git_succeeds
                              d1 (py "a") w)))))
  = Some (content (output_dir w) ++ encodable_prefix encodable d1
            ++ encodable_prefix encodable d2)
  /\ (forallb encodable d1 = true ->
      index_of (output_dir
                  (snd (write_history_to_file_env encodable git_succeeds d2 (py "a")
                          (snd (write_history_to_file_env encodable git_succeeds
                                  d1 (py "a") w)))))
      = index_of (output_dir
                    (snd (write_history_to_file_env encodable git_succeeds
                            (d1 ++ d2) (py "a") w))))
  /\ index_of (output_dir
                 (snd (write_history_to_file_env encodable git_succeeds d2 (py "a")
                         (snd (write_history_to_file_env encodable git_succeeds
                                 d1 (py "w") w)))))
     = Some (encodable_prefix encodable d1 ++ encodable_prefix encodable d2).
Proof.
  intros Hu.
  assert (Ha : valid_mode (py "a")) by now left.
  assert (Hw : valid_mode (py "w")) by now right.
  destruct (write_history_to_file_env_leaves d1 (py "a") w Ha Hu)
    as (A1 & A2 & _ & _).
  destruct (write_history_to_file_env_leaves d1 (py "w") w Hw Hu)
    as (W1 & W2 & _ & _).
  destruct (write_history_to_file_env_leaves d2 (py "a") _ Ha A2) as (B1 & _).
  destruct (write_history_to_file_env_leaves d2 (py "a") _ Ha W2) as (C1 & _).
  destruct (write_history_to_file_env_leaves (d1 ++ d2) (py "a") w Ha Hu)
    as (D1 & _).
  rewrite B1, A1, C1, W1, D1. rewrite !written_append, written_overwrite.
  fold (content (output_dir w)).
  split; [now rewrite <- app_assoc|]. split; [|reflexivity].
  intros He. rewrite (encodable_prefix_app d1 d2 He), (encodable_prefix_all d1 He).
  now rewrite <- app_assoc.
Qed.

(** The exceptions of the writer are not the one [parse_message]
    catches. *)
Lemma write_history_to_file_env_not_caught data w :
  match fst (write_history_to_file_env encodable git_succeeds data (py "a") w) with
  | Raise (MessageTypeException _ _) => False
  | _ => True
  end.
Proof.
  pose proof (write_history_to_file_env_class data (py "a") w
                (or_introl eq_refl)) as H.
  destruct (fst _) as [u|e]; [exact I|]. now destruct e.
Qed.

Lemma parse_message_env_eq message w :
  parse_message_env encodable git_succeeds message w
  = (if is_challenge message
     then write_history_to_file_env encodable git_succeeds
            (document message) (py "a") w
     else (Ok tt, w)).
Proof.
  unfold parse_message_env, try_except, bind at 1.
  rewrite format_messages_eq. destruct (is_challenge message); [|reflexivity].
  pose proof (write_history_to_file_env_not_caught (document message) w) as H.
  destruct (write_history_to_file_env _ _ _ _ _) as [r w'].
  cbn [fst] in H. destruct r as [u|e]; [reflexivity|].
  destruct e; try contradiction; reflexivity.
Qed.




(** X11: messages handed to [parse_message] one after the other, on a
    usable path, whatever the outcome of each call: the target file
    holds its previous content followed by the documents of the
    challenges in order, each up to its first character that cannot be
    encoded, with no separator between them; and the publisher has run
    once for every challenge whose document could be encoded. *)
Theorem messages_one_by_one msgs : forall w,
  usable (output_dir w) = true ->
  usable (output_dir (handle_all encodable git_succeeds msgs w)) = true
  /\ index_of (output_dir (handle_all encodable git_succeeds msgs w))
     = (if existsb is_challenge msgs
        then Some (content (output_dir w)
                     ++ List.concat
                          (map (fun m => encodable_prefix encodable (document m))
                             (filter is_challenge msgs)))
        else index_of (output_dir w))
  /\ publish_runs (trace (handle_all encodable git_succeeds msgs w))
     = publish_runs (trace w)
       + List.length
           (filter (fun m => is_challenge m && forallb encodable (document m))
              msgs).
Proof.
  induction msgs as [|m msgs IH]; intros w Hu.
  - cbn. repeat split; auto.
  - cbn [handle_all existsb filter]. rewrite parse_message_env_eq.
    destruct (is_challenge m) eqn:Hm; cbn [orb andb].
    + assert (Ha : valid_mode (py "a")) by now left.
      destruct (write_history_to_file_env_leaves (document m) (py "a") w Ha Hu)
        as (L1 & L2 & _ & L4).
      destruct (IH _ L2) as (I1 & I2 & I3).
      split; [exact I1|]. split.
      * rewrite I2. unfold content at 1. rewrite L1, written_append.
        fold (content (output_dir w)). cbn [map List.concat].
        destruct (existsb is_challenge msgs) eqn:Hr.
        -- now rewrite <- app_assoc.
        -- apply filter_nil_existsb in Hr. rewrite Hr. cbn [map List.concat].
           now rewrite app_nil_r.
      * rewrite I3, L4.
        destruct (forallb encodable (document m)); cbn [List.length]; lia.
    + cbn [snd]. apply IH. exact Hu.
Qed.

(** When every character can be encoded and every git command
    succeeds, the writer is the one of [write_history_to_file]. *)
Lemma write_history_to_file_env_agrees data mode w :
  (forall t a, git_succeeds t a = true) ->
  forallb encodable data = true ->
  write_history_to_file_env encodable git_succeeds data mode w
  = write_history_to_file data mode w.
Proof.
  intros Hg He. rewrite write_history_to_file_env_cases, He.
  destruct (mode_ok mode) eqn:Hm; cbn [negb].
  - apply mode_ok_iff in Hm. destruct (usable (output_dir w)) eqn:Hu; cbn [negb].
    + rewrite (publish_challenges_env_succeeds _ Hg).
      rewrite publish_challenges_Directory.
      rewrite (write_history_to_file_usable data mode w Hm Hu).
      now rewrite <- !app_assoc.
    + now rewrite (write_history_to_file_unusable data mode w Hm Hu).
  - assert (Hn : ~ valid_mode mode).
    { intros Hv. apply mode_ok_iff in Hv. congruence. }
    now rewrite write_history_to_file_invalid.
Qed.

End EnvironmentFacts.

(** ** The singleton and the configuration *)

Lemma getitem_GitRepoInfo defaults sections p :
  ConfigParser_getitem (mkConfigParser defaults sections) "GitRepoInfo" p =
  match lookup "GitRepoInfo" sections with
  | Some _ => (Return (mkConfigParser defaults sections, "GitRepoInfo"), p)
  | None => (Throw (KeyError "GitRepoInfo"), p)
  end.
Proof.
  unfold ConfigParser_getitem, has_section. cbn [_sections].
  change (String.eqb "GitRepoInfo" default_section) with false. cbn [negb andb].
  destruct (lookup "GitRepoInfo" sections); reflexivity.
Qed.

Lemma getitem_repo defaults sections sectiondict p :
  lookup "GitRepoInfo" sections = Some sectiondict ->
  SectionProxy_getitem (mkConfigParser defaults sections, "GitRepoInfo") "repo" p =
  match configured (Parsed defaults sections) with
  | None => (Throw (KeyError "repo"), p)
  | Some (Text v) => (Return v, p)
  | Some (Interpolation class) => (Throw (LibraryError class), p)
  end.
Proof.
  intros Hs. unfold SectionProxy_getitem, has_option, ConfigParser_get,
    has_section, unify_values, configured.
  cbn [fst snd _sections _defaults].
  change (String.eqb "GitRepoInfo" EmptyString) with false.
  change (String.eqb "GitRepoInfo" default_section) with false.
  rewrite Hs. cbn [orb negb andb is_some].
  destruct (lookup "repo" sectiondict) as [[v|class]|]; cbn [is_some orb negb];
    try reflexivity.
  destruct (lookup "repo" defaults) as [[v|class]|]; reflexivity.
Qed.

Lemma read_config_Parsed self p defaults sections :
  config_ini p = Parsed defaults sections ->
  read_config self p =
  match lookup "GitRepoInfo" sections with
  | None => (Return tt, said (diagnostic "Missing section 'GitRepoInfo'") p)
  | Some sectiondict =>
      match configured (config_ini p) with
      | None => (Return tt, said (diagnostic "Missing section 'repo'") p)
      | Some (Text v) =>
          if String.eqb v EmptyString
          then (Return tt, said (diagnostic check_option_repo) p)
          else (Return tt,
                mkProcess (instance p) (set_attribute self v (objects p))
                  (config_ini p) (disk p) (events p))
      | Some (Interpolation class) => (Throw (LibraryError class), p)
      end
  end.
Proof.
  intros Hc. rewrite Hc.
  unfold read_config, try_config, and_then at 1 2 3.
  unfold ConfigParser_read at 1. rewrite Hc.
  rewrite getitem_GitRepoInfo.
  destruct (lookup "GitRepoInfo" sections) as [sectiondict|] eqn:Hs;
    [|reflexivity].
  rewrite (getitem_repo _ _ _ _ Hs).
  destruct (configured (Parsed defaults sections)) as [[v|class]|] eqn:Hv;
    [| reflexivity | reflexivity].
  unfold and_then at 1.
  destruct (String.eqb v EmptyString) eqn:Ev; [reflexivity|].
  unfold pure at 1, and_then at 1.
  rewrite (getitem_repo _ _ _ _ Hs), Hv.
  unfold set_REPO_URL. now rewrite Hc.
Qed.

(** [read_config] case by case. *)
Lemma read_config_eq self p :
  read_config self p =
  match config_ini p with
  | Unreadable => (Return tt, said (diagnostic "Missing section 'GitRepoInfo'") p)
  | Malformed => (Return tt, said (diagnostic EmptyString) p)
  | Unusable class => (Throw (LibraryError class), p)
  | Parsed defaults sections =>
      match lookup "GitRepoInfo" sections with
      | None => (Return tt, said (diagnostic "Missing section 'GitRepoInfo'") p)
      | Some sectiondict =>
          match configured (config_ini p) with
          | None => (Return tt, said (diagnostic "Missing section 'repo'") p)
          | Some (Text v) =>
              if String.eqb v EmptyString
              then (Return tt, said (diagnostic check_option_repo) p)
              else (Return tt,
                    mkProcess (instance p) (set_attribute self v (objects p))
                      (config_ini p) (disk p) (events p))
          | Some (Interpolation class) => (Throw (LibraryError class), p)
          end
      end
  end.
Proof.
  destruct (config_ini p) as [| |class|defaults sections] eqn:Hc.
  - unfold read_config, try_config, and_then at 1 2 3.
    unfold ConfigParser_read at 1. rewrite Hc. reflexivity.
  - unfold read_config, try_config, and_then at 1 2 3.
    unfold ConfigParser_read at 1. rewrite Hc. reflexivity.
  - unfold read_config, try_config, and_then at 1 2 3.
    unfold ConfigParser_read at 1. rewrite Hc. reflexivity.
  - rewrite (read_config_Parsed self p defaults sections Hc). now rewrite Hc.
Qed.

Lemma read_config_keeps self p :
  instance (snd (read_config self p)) = instance p
  /\ config_ini (snd (read_config self p)) = config_ini p
  /\ disk (snd (read_config self p)) = disk p
  /\ List.length (objects (snd (read_config self p))) = List.length (objects p).
Proof.
  assert (L : forall v os, List.length (set_attribute self v os) = List.length os).
  { intros v os. revert self. induction os as [|o os IH]; intros [|a];
      cbn [set_attribute List.length]; auto. }
  rewrite read_config_eq.
  destruct (config_ini p) as [| |class|defaults sections] eqn:Hc;
    try (cbn [snd said instance config_ini disk objects]; now repeat split).
  destruct (lookup "GitRepoInfo" sections);
    [|cbn [snd said instance config_ini disk objects]; now repeat split].
  destruct (configured (Parsed defaults sections)) as [[v|class]|];
    try (cbn [snd said instance config_ini disk objects]; now repeat split).
  destruct (String.eqb v EmptyString); cbn [snd said instance config_ini disk objects];
    repeat split; auto.
Qed.

Lemma nth_error_set_attribute self v : forall os other,
  nth_error (set_attribute self v os) other
  = if (other =? self) && (self <? List.length os) then Some (Some v)
    else nth_error os other.
Proof.
  intros os. revert self. induction os as [|o os IH]; intros [|a] [|b];
    cbn [set_attribute nth_error List.length]; try reflexivity.
  - now destruct (S b =? S a).
  - rewrite IH. reflexivity.
Qed.

(** [read_config] on a configuration file that names a repository. *)
Lemma read_config_configured self p v :
  configured (config_ini p) = Some (Text v) -> v <> EmptyString ->
  read_config self p
  = (Return tt,
     mkProcess (instance p) (set_attribute self v (objects p))
       (config_ini p) (disk p) (events p)).
Proof.
  intros Hv Hne. rewrite read_config_eq. rewrite Hv.
  destruct (config_ini p) as [| |class|defaults sections]; try discriminate Hv.
  cbn [configured] in Hv.
  destruct (lookup "GitRepoInfo" sections); [|discriminate Hv].
  destruct (String.eqb v EmptyString) eqn:Ev; [|reflexivity].
  apply String.eqb_eq in Ev. contradiction.
Qed.

(** X15: with a configuration file that gives a text that is not empty
    for the option 'repo' of the section 'GitRepoInfo', [read_config]
    sets the repository URL of the helper to that text; it prints
    nothing, raises nothing and leaves every other object alone. *)
Theorem read_config_sets_url self p v :
  configured (config_ini p) = Some (Text v) -> v <> EmptyString ->
  self < List.length (objects p) ->
  read_config self p
  = (Return tt,
     mkProcess (instance p) (set_attribute self v (objects p))
       (config_ini p) (disk p) (events p))
  /\ REPO_URL_of (snd (read_config self p)) self = v
  /\ (forall other, other <> self ->
        REPO_URL_of (snd (read_config self p)) other = REPO_URL_of p other).
Proof.
  intros Hv Hne Hself.
  rewrite (read_config_configured self p v Hv Hne).
  cbn [snd]. unfold REPO_URL_of. cbn [objects].
  split; [reflexivity|]. split.
  - rewrite nth_error_set_attribute, Nat.eqb_refl.
    apply Nat.ltb_lt in Hself. now rewrite Hself.
  - intros other Ho. rewrite nth_error_set_attribute.
    apply Nat.eqb_neq in Ho. now rewrite Ho.
Qed.

(** X16: a missing key is recovered from, with the repository URL left
    as it was: without a readable file, or without the section
    'GitRepoInfo', the diagnostic names the section; with the section
    but without the option 'repo' (in the section and in the defaults),
    the diagnostic names 'repo', and calls it a section too. *)
Theorem read_config_missing_key self p :
  (config_ini p = Unreadable ->
   read_config self p
   = (Return tt, said (diagnostic "Missing section 'GitRepoInfo'") p))
  /\ (forall defaults sections,
        config_ini p = Parsed defaults sections ->
        lookup "GitRepoInfo" sections = None ->
        read_config self p
        = (Return tt, said (diagnostic "Missing section 'GitRepoInfo'") p))
  /\ (forall defaults sections sectiondict,
        config_ini p = Parsed defaults sections ->
        lookup "GitRepoInfo" sections = Some sectiondict ->
        lookup "repo" sectiondict = None ->
        lookup "repo" defaults = None ->
        read_config self p
        = (Return tt, said (diagnostic "Missing section 'repo'") p)).
Proof.
  split; [|split].
  - intros Hc. now rewrite read_config_eq, Hc.
  - intros defaults sections Hc Hs. now rewrite read_config_eq, Hc, Hs.
  - intros defaults sections sectiondict Hc Hs Hr Hd.
    rewrite read_config_eq, Hc, Hs. cbn [configured]. now rewrite Hs, Hr, Hd.
Qed.

(** X17: an empty value and a file the parser rejects are recovered
    from as well, with the repository URL left as it was: for an empty
    value the diagnostic asks to check the option; for a parsing error
    it has no line of detail. *)
Theorem read_config_empty_or_malformed self p :
  (configured (config_ini p) = Some (Text EmptyString) ->
   read_config self p = (Return tt, said (diagnostic check_option_repo) p))
  /\ (config_ini p = Malformed ->
      read_config self p = (Return tt, said (diagnostic EmptyString) p)).
Proof.
  split.
  - intros Hv. rewrite read_config_eq, Hv.
    destruct (config_ini p) as [| |class|defaults sections]; try discriminate Hv.
    cbn [configured] in Hv.
    destruct (lookup "GitRepoInfo" sections); [reflexivity | discriminate Hv].
  - intros Hc. now rewrite read_config_eq, Hc.
Qed.

Lemma getInstance_registered p self :
  instance p = Some self -> getInstance p = (Return (Some self), p).
Proof.
  intros H. unfold getInstance, and_then, get_instance, pure.
  cbv beta iota. rewrite H. cbv beta iota. now rewrite H.
Qed.

Lemma REPO_URL_of_garbage p a : REPO_URL_of (with_garbage p) a = REPO_URL_of p a.
Proof.
  unfold REPO_URL_of, with_garbage. cbn [objects].
  destruct (Nat.lt_ge_cases a (List.length (objects p))) as [H|H].
  - now rewrite nth_error_app1.
  - rewrite nth_error_app2 by exact H.
    assert (N : nth_error (objects p) a = None) by now apply nth_error_None.
    rewrite N. destruct (a - List.length (objects p)) as [|[|k]]; reflexivity.
Qed.

(** The constructor on a process without an instance: the new object is
    registered, then the configuration is read. *)
Lemma getInstance_first p :
  instance p = None ->
  getInstance p =
  (let p0 := mkProcess (Some (List.length (objects p))) (objects p ++ [None])
               (config_ini p) (disk p) (events p) in
   match read_config (List.length (objects p)) p0 with
   | (Return _, p1) => (Return (instance p1), p1)
   | (Throw e, p1) => (Throw e, p1)
   end).
Proof.
  intros H. unfold getInstance, and_then at 1 2, get_instance at 1. rewrite H.
  unfold and_then at 1, DailyProgrammerHelper, and_then at 1 2, allocate.
  unfold __init__, and_then at 1, get_instance at 1. cbn [instance]. rewrite H.
  unfold and_then at 1, set_instance. cbn [instance objects config_ini disk events].
  destruct (read_config _ _) as [[u|e] p1]; reflexivity.
Qed.

(** X19: [getInstance] never returns None; once it has returned, every
    later call returns the same object and changes nothing, whatever the
    configuration file has become; and the constructor called again
    raises, leaving the instance and the repository URL of every object
    as they were. *)
Theorem getInstance_singleton p r p1 :
  getInstance p = (Return r, p1) ->
  exists self,
    r = Some self
    /\ instance p1 = Some self
    /\ (forall c, getInstance (with_config c p1)
                  = (Return (Some self), with_config c p1))
    /\ DailyProgrammerHelper p1
       = (Throw (Exception "This class is a singleton!"), with_garbage p1)
    /\ (forall a, REPO_URL_of (with_garbage p1) a = REPO_URL_of p1 a).
Proof.
  intros H.
  assert (Hi : exists self, r = Some self /\ instance p1 = Some self).
  { destruct (instance p) as [self|] eqn:Hp.
    - rewrite (getInstance_registered p self Hp) in H.
      injection H as <- <-. now exists self.
    - rewrite (getInstance_first p Hp) in H. cbv zeta in H.
      pose proof (read_config_keeps (List.length (objects p))
                    (mkProcess (Some (List.length (objects p))) (objects p ++ [None])
                       (config_ini p) (disk p) (events p))) as (K & _).
      destruct (read_config _ _) as [[u|e] p2]; [|discriminate H].
      injection H as <- <-. cbn [snd instance] in K.
      exists (List.length (objects p)). now rewrite K. }
  destruct Hi as (self & -> & Hi). exists self.
  split; [reflexivity|]. split; [exact Hi|]. split; [|split].
  - intros c. now apply getInstance_registered.
  - unfold DailyProgrammerHelper, and_then at 1 2, allocate.
    unfold __init__, and_then at 1, get_instance at 1, with_garbage.
    cbn [instance]. rewrite Hi. reflexivity.
  - apply REPO_URL_of_garbage.
Qed.

(** X18: an error of the library that [read_config] does not catch
    leaves [read_config], the constructor and [getInstance]; but the
    object is registered before the configuration is read, so the next
    call of [getInstance] returns it, with the repository URL of the
    class, without reading the configuration again. *)
Theorem library_error_leaves_instance p class :
  instance p = None ->
  config_ini p = Unusable class
  \/ configured (config_ini p) = Some (Interpolation class) ->
  (forall self, read_config self p = (Throw (LibraryError class), p))
  /\ exists p1,
       getInstance p = (Throw (LibraryError class), p1)
       /\ instance p1 = Some (List.length (objects p))
       /\ events p1 = events p
       /\ REPO_URL_of p1 (List.length (objects p)) = REPO_URL_default
       /\ forall c, getInstance (with_config c p1)
                    = (Return (Some (List.length (objects p))), with_config c p1).
Proof.
  intros Hi Hc.
  assert (R : forall self q, config_ini q = config_ini p ->
                read_config self q = (Throw (LibraryError class), q)).
  { intros self q Hq. rewrite read_config_eq, Hq.
    destruct Hc as [Hc|Hc].
    - now rewrite Hc.
    - rewrite Hc.
      destruct (config_ini p) as [| |cl|defaults sections]; try discriminate Hc.
      cbn [configured] in Hc.
      destruct (lookup "GitRepoInfo" sections); [reflexivity | discriminate Hc]. }
  split; [intros self; now apply R|].
  rewrite (getInstance_first p Hi). cbv zeta.
  rewrite R by reflexivity.
  eexists. split; [reflexivity|]. cbn [instance events].
  split; [reflexivity|]. split; [reflexivity|]. split.
  - unfold REPO_URL_of. cbn [objects].
    rewrite nth_error_app2 by apply le_n. now rewrite Nat.sub_diag.
  - intros c. now apply getInstance_registered.
Qed.

Lemma method_write_first url data mode :
  valid_mode mode ->
  write_history_to_file data mode (mkWorld url Missing [])
  = (Ok tt,
     mkWorld url (Directory (Some data) true)
       ([Print "Writing history to file..."; Mkdir directory]
          ++ write_events mode data ++ publish_events false url)).
Proof.
  intros Hm. rewrite write_history_to_file_Missing by exact Hm.
  rewrite publish_challenges_Directory.
  assert (E : written mode data None = data).
  { destruct Hm as [-> | ->]; [now rewrite written_append | apply written_overwrite]. }
  rewrite E. reflexivity.
Qed.

(** X20: the URL of the configuration file is the one the first
    publication registers as [origin]: in a new process, the helper
    obtained from [getInstance] that writes a first history initialises
    the repository with the configured URL; without a configuration
    file it prints the diagnostic and uses the URL of the class. *)
Theorem configured_url_reaches_publisher data mode :
  valid_mode mode ->
  (forall c v,
     configured c = Some (Text v) -> v <> EmptyString ->
     first_write data mode (fresh c)
     = (Return tt,
        mkProcess (Some 0) [Some v] c (Directory (Some data) true)
          ([Print "Writing history to file..."; Mkdir directory]
             ++ write_events mode data ++ publish_events false v)))
  /\ first_write data mode (fresh Unreadable)
     = (Return tt,
        mkProcess (Some 0) [None] Unreadable (Directory (Some data) true)
          ([Print (diagnostic "Missing section 'GitRepoInfo'");
            Print "Writing history to file..."; Mkdir directory]
             ++ write_events mode data
             ++ publish_events false REPO_URL_default)).
Proof.
  intros Hm. split.
  - intros c v Hv Hne.
    unfold first_write, and_then at 1.
    rewrite (getInstance_first (fresh c) eq_refl). cbv zeta.
    cbn [fresh objects config_ini disk events List.length app].
    rewrite (read_config_configured 0
               (mkProcess (Some 0) [None] c Missing []) v Hv Hne). cbn [instance set_attribute objects config_ini disk events].
    unfold call, method, REPO_URL_of.
    cbn [objects nth_error disk events].
    rewrite (method_write_first v data mode Hm). reflexivity.
  - unfold first_write, and_then at 1.
    rewrite (getInstance_first (fresh Unreadable) eq_refl). cbv zeta.
    cbn [fresh objects config_ini disk events List.length app].
    rewrite read_config_eq. cbn [config_ini said instance objects disk events app].
    unfold call, method, REPO_URL_of.
    cbn [objects nth_error disk events].
    rewrite write_history_to_file_Missing by exact Hm.
    rewrite publish_challenges_Directory.
    assert (E : written mode data None = data).
    { destruct Hm as [-> | ->]; [now rewrite written_append | apply written_overwrite]. }
    rewrite E. cbn [output_dir trace app]. now rewrite <- !app_assoc.
Qed.

End Unicode.

(** ** Concrete instances *)

Example example_transformed :
  transform no_table example_text
  = py "## Binary Tree Postorder Traversal -- Wednesday October 27th 2020"
      ++ nl ++ py "```" ++ nl ++ py "Input: root = []" ++ nl ++ py "Output: []"
      ++ nl ++ py "```".
Proof. vm_compute. reflexivity. Qed.

Lemma title_heading_witness :
  format_messages no_table no_table (text_message example_text) w0 =
  (Ok (py "## " ++ example_title ++ py " -- " ++ example_date
         ++ images_step
              (code_blocs_step
                 (sub (TITLE_REGEX no_table) TITLE_TEMPLATE ([] ++ example_body)))),
   w0).
Proof.
  apply (title_heading no_table no_table (text_message example_text) w0
           example_date example_title 2 [] example_body);
    vm_compute; reflexivity.
Defined.

(** C1, counterexample: text before the banner stays between the heading
    marker and the title. *)
Lemma title_heading_counterexample :
  format_messages no_table no_table
    (text_message (py "x" ++ banner_head ++ py "a" ++ banner_tail ++ nl
                     ++ py "*[" ++ py "T" ++ py "]*")) w0
  = (Ok (py "## x" ++ py "T -- a"), w0)
  /\ starts_with (py "## " ++ py "T -- a") (py "## x" ++ py "T -- a") = false.
Proof. split; vm_compute; reflexivity. Qed.

(** Why [title_heading] asks what it asks.  A date with a comma does not
    pass the guard; a title with a code block is rewritten by the second
    step; a second closing bracket on the title line is taken into the
    title; a date of two lines is not matched; and with the title on the
    banner line itself, a later text that repeats the banner words wins. *)
Example title_needs_the_guard :
  fst (format_messages no_table no_table
         (text_message (banner_head ++ py "Wed, Oct 27" ++ banner_tail ++ nl
                          ++ py "*[T]*")) w0)
  = Raise (not_a_challenge
             (text_message (banner_head ++ py "Wed, Oct 27" ++ banner_tail ++ nl
                              ++ py "*[T]*"))).
Proof. vm_compute. reflexivity. Qed.

Example title_with_code_block :
  transform no_table
    (banner_head ++ py "Mon" ++ banner_tail ++ nl ++ py "*[a```b```c]*")
  = py "## a```" ++ nl ++ py "b" ++ nl ++ py "```c -- Mon".
Proof. vm_compute. reflexivity. Qed.

Example title_line_with_second_bracket :
  transform no_table
    (banner_head ++ py "Mon" ++ banner_tail ++ nl ++ py "*[T]* and [U]*")
  = py "## T]* and [U -- Mon".
Proof. vm_compute. reflexivity. Qed.

Example date_of_two_lines :
  transform no_table
    (banner_head ++ py "Mon" ++ nl ++ py "day" ++ banner_tail ++ nl ++ py "*[T]*")
  = py "## " ++ banner_head ++ py "Mon" ++ nl ++ py "day" ++ banner_tail ++ nl
      ++ py "*[T]*".
Proof. vm_compute. reflexivity. Qed.

Example title_on_banner_line :
  transform no_table (banner_head ++ py "a" ++ banner_tail ++ py "*[T]*")
  = py "## T -- a"
  /\ transform no_table
       (banner_head ++ py "a" ++ banner_tail ++ py "*[T]*" ++ nl ++ py "-" ++ nl
          ++ py "Daily" ++ nl ++ py "Programmer" ++ nl ++ py "===*" ++ nl
          ++ py "*[U]*")
     = py "## U -- a" ++ banner_tail ++ py "*[T]*".
Proof. split; vm_compute; reflexivity. Qed.

(** *** C2 *)

Lemma occurs_app p : forall pre post, occurs p (pre ++ p ++ post) = true.
Proof.
  induction pre as [|a pre IH]; intros post.
  - cbn [app]. destruct (p ++ post) eqn:E; cbn [occurs]; rewrite <- E;
      now rewrite starts_with_app.
  - cbn [app occurs]. rewrite IH. apply orb_true_r.
Qed.

Lemma strict_banner_occurs isspace isalnum text :
  contains (strict_banner isspace isalnum) text -> occurs (py "===") text = true.
Proof.
  intros (pre & s & post & -> & (ws1 & w & hy & q & ws2 & -> & _)).
  rewrite <- !app_assoc. apply occurs_app.
Qed.

(** A strict banner is a banner: the amended statement covers it. *)
Lemma strict_banner_is_banner isspace isalnum s :
  strict_banner isspace isalnum s -> challenge_banner isspace isalnum s.
Proof.
  intros (ws1 & w & hy & q & ws2 & -> & H1 & Hw & Hhy & Hq & H2).
  exists [EQUALS], ws1, w, hy, q, ws2, [EQUALS].
  split; [reflexivity|].
  split; [now right|]. split; [exact H1|]. split; [exact Hw|].
  split; [exact Hhy|]. split; [exact Hq|]. split; [exact H2 | now right].
Qed.

(** C2, counterexample: two equals signs on each side are enough for the
    pattern, so a text with no run of three is transformed, not rejected. *)
Lemma not_a_challenge_counterexample :
  ~ contains (strict_banner no_table no_table) (py "== a ==")
  /\ format_messages no_table no_table (text_message (py "== a ==")) w0
     = (Ok (py "## == a =="), w0).
Proof.
  split.
  - intros H. apply strict_banner_occurs in H. discriminate H.
  - vm_compute. reflexivity.
Qed.

Lemma not_a_challenge_raised_witness :
  format_messages no_table no_table (text_message (py "hello")) w0
    = (Raise (not_a_challenge (text_message (py "hello"))), w0)
  /\ format_messages no_table no_table [("ts", VStr (py "1"))] w0
     = (Raise (not_a_challenge [("ts", VStr (py "1"))]), w0)
  /\ format_messages no_table no_table (text_message []) w0
     = (Raise (not_a_challenge (text_message [])), w0)
  /\ format_messages no_table no_table (text_message (py "=== a - b ===")) w0
     = (Ok (transform no_table (py "=== a - b ===")), w0)
  /\ parse_channel_history no_table no_table
       {| messages := [text_message example_text] ++ text_message (py "hello") :: [] |} w0
     = parse_channel_history no_table no_table
         {| messages := [text_message example_text] ++ [] |} w0.
Proof.
  assert (H1 : forall text,
             get_text (text_message (py "hello")) = Some text ->
             ~ contains (challenge_banner no_table no_table) text).
  { intros text E C.
    assert (T : is_challenge no_table no_table (text_message (py "hello")) = true)
      by (apply is_challenge_iff; eauto).
    discriminate T. }
  assert (H2 : forall text,
             get_text [("ts", VStr (py "1"))] = Some text ->
             ~ contains (challenge_banner no_table no_table) text)
    by (intros text E; discriminate E).
  split; [|split; [|split; [|split]]].
  - apply (proj1 (not_a_challenge_raised no_table no_table
                    (text_message (py "hello")) w0)). exact H1.
  - apply (proj1 (not_a_challenge_raised no_table no_table
                    [("ts", VStr (py "1"))] w0)). exact H2.
  - apply (proj1 (not_a_challenge_raised no_table no_table
                    (text_message []) w0)).
    intros text E C.
    assert (T : is_challenge no_table no_table (text_message []) = true)
      by (apply is_challenge_iff; eauto).
    discriminate T.
  - apply (proj1 (proj2 (not_a_challenge_raised no_table no_table
                           (text_message (py "=== a - b ===")) w0))).
    + reflexivity.
    + apply challenge_search_iff. vm_compute. reflexivity.
  - apply (proj2 (proj2 (not_a_challenge_raised no_table no_table
                           (text_message (py "hello")) w0))). exact H1.
Defined.

(** *** C4 *)

(** C4, counterexample: the second run of the step changes the text. *)
Lemma code_block_counterexample :
  code_blocs_step (py "```a```") = py "```" ++ nl ++ py "a" ++ nl ++ py "```"
  /\ code_blocs_step (code_blocs_step (py "```a```"))
     = py "```" ++ nl ++ nl ++ py "a" ++ nl ++ nl ++ py "```"
  /\ code_blocs_step (code_blocs_step (py "```a```"))
     <> code_blocs_step (py "```a```").
Proof.
  split; [|split]; [vm_compute; reflexivity | vm_compute; reflexivity |].
  vm_compute. intros E. discriminate E.
Qed.

Lemma code_block_normalized_witness :
  code_blocs_step (py "see " ++ fence ++ py "Input: root = []" ++ fence ++ py " end")
  = py "see " ++ fence ++ nl ++ py "Input: root = []" ++ nl ++ fence
      ++ code_blocs_step (py " end")
  /\ code_blocs_step (fence ++ nl ++ py "Input: root = []" ++ nl ++ fence)
     = fence ++ nl ++ nl ++ py "Input: root = []" ++ nl ++ nl ++ fence.
Proof.
  apply (code_block_normalized (py "see ") (py "Input: root = []") (py " end"));
    reflexivity.
Defined.

(** *** C5 *)

(** C5, counterexample: the URL of an image link runs up to the first
    closing bracket of its line, so a link under another prefix that
    follows on the line is taken into it and loses its brackets; and a
    link under the image prefix that is broken by a newline is not
    rewritten. *)
Lemma image_links_counterexample :
  images_step (py "<https://assets.leetcode.com/uploads/ <https://example.com/x>")
  = py "![Illustration](https://assets.leetcode.com/uploads/ <https://example.com/x)"
      ++ nl
  /\ occurs (py "<https://example.com/x>")
       (images_step
          (py "<https://assets.leetcode.com/uploads/ <https://example.com/x>"))
     = false
  /\ images_step (py "<https://assets.leetcode.com/uploads/a" ++ nl ++ py "b.png>")
     = py "<https://assets.leetcode.com/uploads/a" ++ nl ++ py "b.png>".
Proof. repeat split; vm_compute; reflexivity. Qed.

Lemma image_links_rewritten_witness :
  images_step (flat_map render example_pieces) = flat_map rewritten example_pieces.
Proof. apply (image_links_rewritten example_pieces). reflexivity. Defined.

Example example_pieces_rewritten :
  flat_map rewritten example_pieces
  = py "a ![Illustration](https://assets.leetcode.com/uploads/2020/10/27/tree.png)"
      ++ nl ++ py " <https://example.com/uploads/x.png>"
      ++ py "![Illustration](https://assets.leetcode.com/uploads/)" ++ nl.
Proof. vm_compute. reflexivity. Qed.

(** *** C3 *)

(** A batch of three messages, newest first, of which two match: the
    older document comes first and each is followed by the three
    newlines, three hyphens and three newlines. *)
Example example_history :
  fst (history_loop no_table no_table
         (rev [text_message (py "== b =="); text_message (py "nope");
               text_message (py "== a ==")]) [] w0)
  = Ok (py "## == a =="
          ++ [10; 10; 10; 45; 45; 45; 10; 10; 10]%N
          ++ py "## == b =="
          ++ [10; 10; 10; 45; 45; 45; 10; 10; 10]%N).
Proof. vm_compute. reflexivity. Qed.

Lemma history_is_joined_documents_witness :
  (forall m,
     In m [text_message (py "== b =="); text_message (py "nope");
           text_message (py "== a ==")] ->
     format_messages no_table no_table m w0
     = (if is_challenge no_table no_table m then Ok (document no_table m)
        else Raise (not_a_challenge m), w0))
  /\ parse_channel_history no_table no_table
       {| messages := [text_message (py "== b =="); text_message (py "nope");
                       text_message (py "== a ==")] |} w0
     = write_history_to_file
         (py "## == a ==" ++ separator_text ++ py "## == b ==" ++ separator_text)
         (py "w")
         (printed ["Parsing and formating history..."; "Done..."] w0).
Proof.
  split.
  - apply (proj1 (proj2 (history_is_joined_documents no_table no_table
                           {| messages := [text_message (py "== b ==");
                                           text_message (py "nope");
                                           text_message (py "== a ==")] |} w0))).
  - rewrite (proj2 (proj2 (proj2 (proj2
               (history_is_joined_documents no_table no_table
                  {| messages := [text_message (py "== b ==");
                                  text_message (py "nope");
                                  text_message (py "== a ==")] |} w0))))).
    vm_compute. reflexivity.
Defined.

(** *** C6 to C10 *)

Lemma writer_checks_mode_witness :
  (exists w',
     write_history_to_file (py "text") (py "r") w0 =
       (Raise (FileOpeningModeException "Given mode isn't 'a' or 'w'!"), w')
     /\ output_dir w' = output_dir w0
     /\ trace w' = trace w0 ++ [Print "Writing history to file..."]
     /\ publish_runs (trace w') = publish_runs (trace w0))
  /\ (exists w1 w',
        write_history_to_file (py "text") (py "w") w0 = publish_challenges w1
        /\ trace w1 = trace w0 ++ [Print "Writing history to file..."]
                        ++ mkdir_events (output_dir w0)
                        ++ write_events (py "w") (py "text")
        /\ output_dir w1
           = Directory (Some (written (py "w") (py "text") (index_of (output_dir w0))))
               (is_git (output_dir w0))
        /\ publish_challenges w1 = (Ok tt, w')
        /\ trace w' = trace w1 ++ publish_events (is_git (output_dir w0)) (REPO_URL w0)
        /\ publish_runs (trace w') = publish_runs (trace w0) + 1).
Proof.
  split.
  - apply (proj1 (writer_checks_mode (py "text") (py "r") w0)).
    intros [E|E]; discriminate E.
  - apply (proj2 (writer_checks_mode (py "text") (py "w") w0)).
    + now right.
    + discriminate.
Defined.

Lemma empty_history_not_written_witness :
  history_blob no_table no_table [text_message (py "hello"); [("ts", VStr (py "2"))]] = []
  /\ exists w',
       parse_channel_history no_table no_table
         {| messages := [text_message (py "hello"); [("ts", VStr (py "2"))]] |} w0
       = (Ok tt, w')
       /\ output_dir w' = output_dir w0
       /\ trace w' = trace w0 ++ [Print "Parsing and formating history...";
                                  Print "Done..."]
       /\ publish_runs (trace w') = publish_runs (trace w0).
Proof.
  apply (empty_history_not_written no_table no_table
           {| messages := [text_message (py "hello"); [("ts", VStr (py "2"))]] |} w0).
  intros m [<-|[<-|[]]]; reflexivity.
Defined.

Lemma writer_accepts_empty_content_witness :
  write_history_to_file [] (py "a") (mkWorld "origin-url" Missing []) =
    (Ok tt,
     mkWorld "origin-url" (Directory (Some []) true)
       ([] ++ [Print "Writing history to file..."; Mkdir directory;
               Open target (py "a"); Writelines []; Close; Print "Done..."]
          ++ publish_events false "origin-url")).
Proof.
  apply (proj1 (writer_accepts_empty_content no_table no_table
                  (py "a") "origin-url" [] (or_introl eq_refl))).
Defined.

Lemma format_messages_reads_text_only_witness :
  snd (format_messages no_table no_table (text_message example_text) w0) = w0
  /\ snd (format_messages no_table no_table
            [("text", VStr example_text); ("user", VStr (py "U1"))]
            (mkWorld "other" (Directory None true) [Print "x"]))
     = mkWorld "other" (Directory None true) [Print "x"]
  /\ ((exists doc,
         fst (format_messages no_table no_table (text_message example_text) w0) = Ok doc
         /\ fst (format_messages no_table no_table
                   [("text", VStr example_text); ("user", VStr (py "U1"))]
                   (mkWorld "other" (Directory None true) [Print "x"])) = Ok doc)
      \/ (fst (format_messages no_table no_table (text_message example_text) w0)
            = Raise (not_a_challenge (text_message example_text))
          /\ fst (format_messages no_table no_table
                    [("text", VStr example_text); ("user", VStr (py "U1"))]
                    (mkWorld "other" (Directory None true) [Print "x"]))
             = Raise (not_a_challenge
                        [("text", VStr example_text); ("user", VStr (py "U1"))]))).
Proof.
  apply (format_messages_reads_text_only no_table no_table
           (text_message example_text)
           [("text", VStr example_text); ("user", VStr (py "U1"))]
           w0 (mkWorld "other" (Directory None true) [Print "x"])).
  reflexivity.
Defined.

Lemma entry_points_write_modes_witness :
  parse_channel_history no_table no_table
    {| messages := [text_message (py "== b =="); text_message (py "== a ==")] |} w0
  = write_history_to_file
      (history_blob no_table no_table
         [text_message (py "== b =="); text_message (py "== a ==")])
      (py "w") (printed ["Parsing and formating history..."; "Done..."] w0)
  /\ parse_message no_table no_table (text_message (py "== a ==")) w0
     = write_history_to_file
         (document no_table (text_message (py "== a ==")))
         (py "a") w0
  /\ output_dir (snd (write_history_to_file (py "new") (py "w")
                        (mkWorld "url" (Directory (Some (py "old")) true) [])))
     = Directory (Some (py "new")) true
  /\ output_dir (snd (write_history_to_file (py "new") (py "a")
                        (mkWorld "url" (Directory (Some (py "old")) true) [])))
     = Directory (Some (py "old" ++ py "new")) true.
Proof.
  split; [|split; [|split]].
  - apply (proj1 (entry_points_write_modes no_table no_table)).
    vm_compute. intros E. discriminate E.
  - apply (proj1 (proj2 (entry_points_write_modes no_table no_table))).
    reflexivity.
  - apply (proj1 (proj2 (proj2 (entry_points_write_modes no_table no_table)))).
  - apply (proj2 (proj2 (proj2 (entry_points_write_modes no_table no_table)))).
Defined.

(** *** X1 to X6 *)

Lemma document_starts_with_heading_witness :
  w0 = w0
  /\ exists text,
       get_text (text_message (py "== a ==")) = Some text
       /\ py "## == a =="
          = py "## "
              ++ images_step
                   (code_blocs_step (sub (TITLE_REGEX no_table) TITLE_TEMPLATE text)).
Proof.
  apply (document_starts_with_heading no_table no_table
           (text_message (py "== a ==")) w0 (py "## == a ==") w0).
  vm_compute. reflexivity.
Defined.

Lemma few_backticks_unchanged_witness :
  code_blocs_step (py "see " ++ fence ++ py "Input: root = []")
  = py "see " ++ fence ++ py "Input: root = []"
  /\ forall text, backticks text < 6 -> code_blocs_step text = text.
Proof.
  apply (few_backticks_unchanged (py "see ") (py "Input: root = []"));
    reflexivity.
Defined.

Lemma text_without_patterns_gets_heading_only_witness :
  transform no_table (py "=== Monday *bold* `x` <https://example.com/a.png> ===")
  = py "## " ++ py "=== Monday *bold* `x` <https://example.com/a.png> ===".
Proof.
  apply (text_without_patterns_gets_heading_only no_table
           (py "=== Monday *bold* `x` <https://example.com/a.png> ==="));
    [reflexivity | vm_compute; lia | reflexivity].
Defined.

Lemma banner_passes_guard_witness :
  is_challenge no_table no_table
    (text_message (py "cc " ++ banner_head ++ py "Monday 1st" ++ banner_tail
                     ++ py " and more")) = true
  /\ format_messages no_table no_table
       (text_message (py "cc " ++ banner_head ++ py "Monday 1st" ++ banner_tail
                        ++ py " and more")) w0
     = (Ok (document no_table
              (text_message (py "cc " ++ banner_head ++ py "Monday 1st"
                               ++ banner_tail ++ py " and more"))), w0).
Proof.
  apply (banner_passes_guard no_table no_table
           (text_message (py "cc " ++ banner_head ++ py "Monday 1st" ++ banner_tail
                            ++ py " and more"))
           (py "cc ") (py "Monday 1st") (py " and more") w0);
    reflexivity.
Defined.

(** *** X9 to X13 *)

Lemma parse_channel_history_again_witness :
  output_dir
    (snd (parse_channel_history no_table no_table
            {| messages := [text_message (py "== a ==")] |} w0))
  = Directory
      (Some (history_blob no_table no_table [text_message (py "== a ==")])) true
  /\ output_dir
       (snd (parse_channel_history no_table no_table
               {| messages := [text_message (py "== a ==")] |}
               (snd (parse_channel_history no_table no_table
                       {| messages := [text_message (py "== a ==")] |} w0))))
     = output_dir
         (snd (parse_channel_history no_table no_table
                 {| messages := [text_message (py "== a ==")] |} w0))
  /\ trace
       (snd (parse_channel_history no_table no_table
               {| messages := [text_message (py "== a ==")] |}
               (snd (parse_channel_history no_table no_table
                       {| messages := [text_message (py "== a ==")] |} w0))))
     = trace
         (snd (parse_channel_history no_table no_table
                 {| messages := [text_message (py "== a ==")] |} w0))
         ++ [Print "Parsing and formating history..."; Print "Done...";
             Print "Writing history to file..."]
         ++ write_events (py "w")
              (history_blob no_table no_table [text_message (py "== a ==")])
         ++ publish_events true (REPO_URL w0).
Proof.
  apply (parse_channel_history_again no_table no_table
           {| messages := [text_message (py "== a ==")] |} w0);
    reflexivity.
Defined.

Lemma messages_one_by_one_witness :
  usable
    (output_dir
       (handle_all no_table no_table ascii_only offline
          [text_message (py "== a =="); text_message (py "no");
           text_message (py "== b == " ++ [233%N] ++ py "t" ++ [233%N])] w0))
  = true
  /\ index_of
       (output_dir
          (handle_all no_table no_table ascii_only offline
             [text_message (py "== a =="); text_message (py "no");
              text_message (py "== b == " ++ [233%N] ++ py "t" ++ [233%N])] w0))
     = (if existsb (is_challenge no_table no_table)
             [text_message (py "== a =="); text_message (py "no");
              text_message (py "== b == " ++ [233%N] ++ py "t" ++ [233%N])]
        then Some
               (content (output_dir w0)
                  ++ List.concat
                       (map (fun m => encodable_prefix ascii_only
                                        (document no_table m))
                          (filter (is_challenge no_table no_table)
                             [text_message (py "== a ==");
                              text_message (py "no");
                              text_message
                                (py "== b == " ++ [233%N] ++ py "t" ++ [233%N])])))
        else index_of (output_dir w0))
  /\ publish_runs
       (trace
          (handle_all no_table no_table ascii_only offline
             [text_message (py "== a =="); text_message (py "no");
              text_message (py "== b == " ++ [233%N] ++ py "t" ++ [233%N])] w0))
     = publish_runs (trace w0)
       + List.length
           (filter
              (fun m => is_challenge no_table no_table m
                        && forallb ascii_only (document no_table m))
              [text_message (py "== a =="); text_message (py "no");
               text_message (py "== b == " ++ [233%N] ++ py "t" ++ [233%N])]).
Proof.
  apply (messages_one_by_one no_table no_table ascii_only offline
           [text_message (py "== a =="); text_message (py "no");
            text_message (py "== b == " ++ [233%N] ++ py "t" ++ [233%N])] w0).
  reflexivity.
Defined.

(** Two challenges handed over one by one, the second with a character
    the file cannot take, on a machine without network: the first
    document is in the file, followed with nothing between them by the
    second up to that character; the publisher ran for the first only,
    and its push failed. *)
Example example_one_by_one :
  index_of
    (output_dir
       (handle_all no_table no_table ascii_only offline
          [text_message (py "== a =="); text_message (py "no");
           text_message (py "== b == " ++ [233%N] ++ py "t" ++ [233%N])] w0))
  = Some (py "## == a ==" ++ py "## == b == ")
  /\ publish_runs
       (trace
          (handle_all no_table no_table ascii_only offline
             [text_message (py "== a =="); text_message (py "no");
              text_message (py "== b == " ++ [233%N] ++ py "t" ++ [233%N])] w0))
     = 1
  /\ fst (parse_message_env no_table no_table ascii_only offline
            (text_message (py "== a ==")) w0)
     = Raise (GitCommandError ["fetch"; "origin"])
  /\ fst (parse_message_env no_table no_table ascii_only offline
            (text_message (py "== b == " ++ [233%N])) w0)
     = Raise UnicodeEncodeError.
Proof. repeat split; vm_compute; reflexivity. Qed.

Lemma appends_accumulate_witness :
  index_of
    (output_dir
       (snd (write_history_to_file_env ascii_only offline
               (py "ab" ++ [233%N] ++ py "cd") (py "a")
               (snd (write_history_to_file_env ascii_only offline
                       (py "one") (py "a") w0)))))
  = Some (content (output_dir w0)
            ++ encodable_prefix ascii_only (py "one")
            ++ encodable_prefix ascii_only (py "ab" ++ [233%N] ++ py "cd"))
  /\ (forallb ascii_only (py "one") = true ->
      index_of
        (output_dir
           (snd (write_history_to_file_env ascii_only offline
                   (py "ab" ++ [233%N] ++ py "cd") (py "a")
                   (snd (write_history_to_file_env ascii_only offline
                           (py "one") (py "a") w0)))))
      = index_of
          (output_dir
             (snd (write_history_to_file_env ascii_only offline
                     (py "one" ++ py "ab" ++ [233%N] ++ py "cd") (py "a") w0))))
  /\ index_of
       (output_dir
          (snd (write_history_to_file_env ascii_only offline
                  (py "ab" ++ [233%N] ++ py "cd") (py "a")
                  (snd (write_history_to_file_env ascii_only offline
                          (py "one") (py "w") w0)))))
     = Some (encodable_prefix ascii_only (py "one")
               ++ encodable_prefix ascii_only (py "ab" ++ [233%N] ++ py "cd")).
Proof.
  apply (appends_accumulate ascii_only offline
           (py "one") (py "ab" ++ [233%N] ++ py "cd") w0).
  reflexivity.
Defined.

(** A write that breaks off: the file keeps the two characters written
    before the one that cannot be encoded, the second append lands
    behind them, and one append of the two contents leaves less. *)
Example example_broken_write :
  write_history_to_file_env ascii_only offline
    (py "ab" ++ [233%N] ++ py "cd") (py "w") w0
  = (Raise UnicodeEncodeError,
     mkWorld (REPO_URL w0) (Directory (Some (py "ab")) false)
       [Print "Writing history to file..."; Mkdir directory;
        Open target (py "w"); Writelines (py "ab" ++ [233%N] ++ py "cd"); Close])
  /\ index_of
       (output_dir
          (snd (write_history_to_file_env ascii_only offline (py "two") (py "a")
                  (snd (write_history_to_file_env ascii_only offline
                          (py "ab" ++ [233%N] ++ py "cd") (py "a") w0)))))
     = Some (py "ab" ++ py "two")
  /\ index_of
       (output_dir
          (snd (write_history_to_file_env ascii_only offline
                  ((py "ab" ++ [233%N] ++ py "cd") ++ py "two") (py "a") w0)))
     = Some (py "ab").
Proof. repeat split; vm_compute; reflexivity. Qed.

(** *** X15 to X20 *)

Lemma read_config_sets_url_witness :
  read_config 0 (one_object example_config)
  = (Return tt,
     mkProcess (instance (one_object example_config))
       (set_attribute 0 example_url (objects (one_object example_config)))
       (config_ini (one_object example_config))
       (disk (one_object example_config))
       (events (one_object example_config)))
  /\ REPO_URL_of (snd (read_config 0 (one_object example_config))) 0 = example_url
  /\ (forall other, other <> 0 ->
        REPO_URL_of (snd (read_config 0 (one_object example_config))) other
        = REPO_URL_of (one_object example_config) other).
Proof.
  apply (read_config_sets_url 0 (one_object example_config) example_url).
  - reflexivity.
  - discriminate.
  - cbn. lia.
Defined.

Lemma read_config_missing_key_witness :
  read_config 0 (one_object Unreadable)
  = (Return tt,
     said (diagnostic "Missing section 'GitRepoInfo'") (one_object Unreadable))
  /\ read_config 0 (one_object (Parsed [] [("Other", [("repo", Text example_url)])]))
     = (Return tt,
        said (diagnostic "Missing section 'GitRepoInfo'")
          (one_object (Parsed [] [("Other", [("repo", Text example_url)])])))
  /\ read_config 0 (one_object (Parsed [] [("GitRepoInfo", [("url", Text example_url)])]))
     = (Return tt,
        said (diagnostic "Missing section 'repo'")
          (one_object (Parsed [] [("GitRepoInfo", [("url", Text example_url)])]))).
Proof.
  split; [|split].
  - apply (proj1 (read_config_missing_key 0 (one_object Unreadable))).
    reflexivity.
  - apply (proj1 (proj2 (read_config_missing_key 0
                           (one_object (Parsed [] [("Other", [("repo", Text example_url)])]))))
             [] [("Other", [("repo", Text example_url)])]);
      reflexivity.
  - apply (proj2 (proj2 (read_config_missing_key 0
                           (one_object (Parsed [] [("GitRepoInfo", [("url", Text example_url)])]))))
             [] [("GitRepoInfo", [("url", Text example_url)])]
             [("url", Text example_url)]);
      reflexivity.
Defined.

Lemma read_config_empty_or_malformed_witness :
  read_config 0 (one_object (Parsed [] [("GitRepoInfo", [("repo", Text EmptyString)])]))
  = (Return tt,
     said (diagnostic check_option_repo)
       (one_object (Parsed [] [("GitRepoInfo", [("repo", Text EmptyString)])])))
  /\ read_config 0 (one_object Malformed)
     = (Return tt, said (diagnostic EmptyString) (one_object Malformed)).
Proof.
  split.
  - apply (proj1 (read_config_empty_or_malformed 0
                    (one_object (Parsed [] [("GitRepoInfo", [("repo", Text EmptyString)])])))).
    reflexivity.
  - apply (proj2 (read_config_empty_or_malformed 0 (one_object Malformed))).
    reflexivity.
Defined.

Lemma library_error_leaves_instance_witness :
  (forall self,
     read_config self (fresh (Unusable "DuplicateSectionError"))
     = (Throw (LibraryError "DuplicateSectionError"),
        fresh (Unusable "DuplicateSectionError")))
  /\ exists p1,
       getInstance (fresh (Unusable "DuplicateSectionError"))
       = (Throw (LibraryError "DuplicateSectionError"), p1)
       /\ instance p1
          = Some (List.length (objects (fresh (Unusable "DuplicateSectionError"))))
       /\ events p1 = events (fresh (Unusable "DuplicateSectionError"))
       /\ REPO_URL_of p1
            (List.length (objects (fresh (Unusable "DuplicateSectionError"))))
          = REPO_URL_default
       /\ forall c,
            getInstance (with_config c p1)
            = (Return
                 (Some (List.length
                          (objects (fresh (Unusable "DuplicateSectionError"))))),
               with_config c p1).
Proof.
  apply (library_error_leaves_instance
           (fresh (Unusable "DuplicateSectionError")) "DuplicateSectionError").
  - reflexivity.
  - left. reflexivity.
Defined.

Lemma getInstance_singleton_witness :
  exists self,
    Some 0 = Some self
    /\ instance (mkProcess (Some 0) [Some example_url] example_config Missing [])
       = Some self
    /\ (forall c,
          getInstance
            (with_config c
               (mkProcess (Some 0) [Some example_url] example_config Missing []))
          = (Return (Some self),
             with_config c
               (mkProcess (Some 0) [Some example_url] example_config Missing [])))
    /\ DailyProgrammerHelper
         (mkProcess (Some 0) [Some example_url] example_config Missing [])
       = (Throw (Exception "This class is a singleton!"),
          with_garbage
            (mkProcess (Some 0) [Some example_url] example_config Missing []))
    /\ (forall a,
          REPO_URL_of
            (with_garbage
               (mkProcess (Some 0) [Some example_url] example_config Missing [])) a
          = REPO_URL_of
              (mkProcess (Some 0) [Some example_url] example_config Missing []) a).
Proof.
  apply (getInstance_singleton (fresh example_config) (Some 0)
           (mkProcess (Some 0) [Some example_url] example_config Missing [])).
  reflexivity.
Defined.

Lemma configured_url_reaches_publisher_witness :
  first_write (py "text") (py "w") (fresh example_config)
  = (Return tt,
     mkProcess (Some 0) [Some example_url] example_config
       (Directory (Some (py "text")) true)
       ([Print "Writing history to file..."; Mkdir directory]
          ++ write_events (py "w") (py "text")
          ++ publish_events false example_url))
  /\ first_write (py "text") (py "w") (fresh Unreadable)
     = (Return tt,
        mkProcess (Some 0) [None] Unreadable (Directory (Some (py "text")) true)
          ([Print (diagnostic "Missing section 'GitRepoInfo'");
            Print "Writing history to file..."; Mkdir directory]
             ++ write_events (py "w") (py "text")
             ++ publish_events false REPO_URL_default)).
Proof.
  assert (Hm : valid_mode (py "w")) by (right; reflexivity).
  split.
  - apply (proj1 (configured_url_reaches_publisher (py "text") (py "w") Hm)
             example_config example_url).
    + reflexivity.
    + discriminate.
  - apply (proj2 (configured_url_reaches_publisher (py "text") (py "w") Hm)).
Defined.
